(** * WaveBank: a shallow embedding of obsplus/bank/wavebank.py

    The index of a directory of waveform files is a table with one row per
    channel segment.  This development embeds the index engine of
    [WaveBank] (query filters, bulk resolution, gap and uptime statistics,
    the write path and the assembly step) and proves properties of it.

    Conventions.
    - Times are POSIX timestamps held in IEEE binary64, as in the index
      columns [starttime] and [endtime]; Python's [float] is Rocq's
      primitive [float], so comparisons with NaN behave as in the source.
    - A pandas DataFrame of index rows is a list of records plus its column
      names; a boolean numpy array is a [list bool].
    - Code that raises returns [Raise]; code that reads or writes the
      directory or the index file threads a [World]. *)

From Stdlib Require Import List Bool Arith Lia Ascii String ZArith Floats.
From Stdlib Require Import Permutation Sorted.
From Stdlib Require OrderedTypeEx.
Import ListNotations.

Open Scope list_scope.
Open Scope string_scope.

Set Implicit Arguments.

(** ** Python built-ins *)

Module Py.

(** [sub in s] for strings. *)
Fixpoint contains (sub s : string) : bool :=
  String.prefix sub s ||
  match s with
  | EmptyString => false
  | String _ rest => contains sub rest
  end.

(** [s.replace(old, new)] after the first [skip] characters, which belong
    to an occurrence already replaced. *)
Fixpoint replace_from (skip : nat) (old new s : string) : string :=
  match s with
  | EmptyString => EmptyString
  | String c rest =>
      match skip with
      | S k => replace_from k old new rest
      | O =>
          if String.prefix old s
          then new ++ replace_from (String.length old - 1) old new rest
          else String c (replace_from 0 old new rest)
      end
  end.

Fixpoint intersperse (new s : string) : string :=
  match s with
  | EmptyString => new
  | String c rest => new ++ String c (intersperse new rest)
  end.

(** [s.replace(old, new)]: every non-overlapping occurrence, left to right;
    an empty [old] matches between all characters. *)
Definition replace (old new s : string) : string :=
  match old with
  | EmptyString => intersperse new s
  | _ => replace_from 0 old new s
  end.

(** Python's truth value of a float: zero (of either sign) is false. *)
Definition truthy (x : float) : bool := negb (PrimFloat.eqb x 0%float).

(** [min(xs)] and [max(xs)]: the first extremal element. *)
Definition min (x : float) (xs : list float) : float :=
  fold_left (fun cur item => if PrimFloat.ltb item cur then item else cur) xs x.

Definition max (x : float) (xs : list float) : float :=
  fold_left (fun cur item => if PrimFloat.ltb cur item then item else cur) xs x.

End Py.

(** ** [fnmatch.translate] and [re.match]

    [get_regex] compiles a shell pattern with Python's [fnmatch.translate];
    pandas' [Series.str.match] then applies [re.match] to every value.  The
    compiled expression is kept as a token list instead of regex source
    text: [.*] for a star, [.] for a question mark, a bracket class, or an
    escaped literal, all wrapped in [(?s:...)\Z]. *)

Module Fnmatch.

Inductive set_item : Type :=
| SChar (c : ascii)
| SRange (lo hi : ascii).

Inductive tok : Type :=
| Star
| AnyChar
| Lit (c : ascii)
| CharSet (negated : bool) (items : list set_item).

(** Position of the first closing bracket. *)
Fixpoint find_close (s : string) : option nat :=
  match s with
  | EmptyString => None
  | String c rest =>
      if Ascii.eqb c "]" then Some 0
      else option_map S (find_close rest)
  end.

Definition starts_with (c : ascii) (s : string) : bool :=
  match s with
  | String d _ => Ascii.eqb c d
  | EmptyString => false
  end.

(** The scan [translate] runs after an opening bracket: skip a leading
    [!], skip a [[]]] that comes first, then run to the next [[]]].  The
    result is the offset [j - i] of the closing bracket, if there is one. *)
Definition class_end (rest : string) : option nat :=
  let k1 := if starts_with "!" rest then 1 else 0 in
  let r1 := String.substring k1 (String.length rest) rest in
  let k2 := if starts_with "]" r1 then 1 else 0 in
  let r2 := String.substring k2 (String.length r1) r1 in
  option_map (fun j => k1 + k2 + j) (find_close r2).

(** Members of a bracket class: [lo-hi] is a range, anything else stands
    for itself. *)
Fixpoint parse_items (s : string) : list set_item :=
  match s with
  | EmptyString => []
  | String lo rest =>
      match rest with
      | String "-" (String hi rest') => SRange lo hi :: parse_items rest'
      | _ => SChar lo :: parse_items rest
      end
  end.

(** [stuff = pat[i:j]]: a leading [!] negates the class. *)
Definition class_of (stuff : string) : tok :=
  match stuff with
  | String "!" members => CharSet true (parse_items members)
  | _ => CharSet false (parse_items stuff)
  end.

(** The loop of [translate]; [skip] counts the characters of a bracket
    class still to step over ([i = j + 1] in the source). *)
Fixpoint translate_from (skip : nat) (pat : string) : list tok :=
  match pat with
  | EmptyString => []
  | String c rest =>
      match skip with
      | S k => translate_from k rest
      | O =>
          if Ascii.eqb c "*" then Star :: translate_from 0 rest
          else if Ascii.eqb c "?" then AnyChar :: translate_from 0 rest
          else if Ascii.eqb c "[" then
            match class_end rest with
            | None => Lit "[" :: translate_from 0 rest
            | Some j =>
                class_of (String.substring 0 j rest)
                  :: translate_from (S j) rest
            end
          else Lit c :: translate_from 0 rest
      end
  end.

Definition translate (pat : string) : list tok := translate_from 0 pat.

Definition ascii_leb (a b : ascii) : bool :=
  Nat.leb (nat_of_ascii a) (nat_of_ascii b).

Definition item_match (c : ascii) (it : set_item) : bool :=
  match it with
  | SChar d => Ascii.eqb c d
  | SRange lo hi => ascii_leb lo c && ascii_leb c hi
  end.

Definition tok_match (t : tok) (c : ascii) : bool :=
  match t with
  | Star => true
  | AnyChar => true
  | Lit d => Ascii.eqb c d
  | CharSet negated items => xorb negated (existsb (item_match c) items)
  end.

(** [re.match(regex, s) is not None]: the expression is anchored at the
    start by [re.match] and at the end by [\Z]; with the [s] flag a dot
    matches every character. *)
Fixpoint re_match (p : list tok) (s : string) {struct p} : bool :=
  match p with
  | [] => match s with EmptyString => true | _ => false end
  | Star :: p' =>
      (fix star (s : string) : bool :=
         re_match p' s ||
         match s with
         | EmptyString => false
         | String _ s' => star s'
         end) s
  | t :: p' =>
      match s with
      | EmptyString => false
      | String c s' => tok_match t c && re_match p' s'
      end
  end.

End Fnmatch.

(** [get_regex]: the cache decorator does not change the value. *)
Definition get_regex (nslc_str : string) : list Fnmatch.tok :=
  Fnmatch.translate nslc_str.

(** ** Data model *)

(** The four code columns, [NSLC] in obsplus.constants. *)
Inductive nslc_key : Type := Network | Station | Location | Channel.

Definition NSLC : list nslc_key := [Network; Station; Location; Channel].

Definition key_name (k : nslc_key) : string :=
  match k with
  | Network => "network"
  | Station => "station"
  | Location => "location"
  | Channel => "channel"
  end.

(** One row of the index table. *)
Record IndexRow : Type := mkRow {
  network : string;
  station : string;
  location : string;
  channel : string;
  starttime : float;
  endtime : float;
  path : string
}.

(** [row[key]] for a code column. *)
Definition code (key : nslc_key) (r : IndexRow) : string :=
  match key with
  | Network => network r
  | Station => station r
  | Location => location r
  | Channel => channel r
  end.

(** A DataFrame of index rows. *)
Record DataFrame : Type := mkDF {
  df_columns : list string;
  df_rows : list IndexRow
}.

Definition index_str : list string := map key_name NSLC.
Definition index_float : list string := ["starttime"; "endtime"].
Definition index_columns : list string :=
  (index_str ++ index_float ++ ["path"])%list.
Definition columns_no_path : list string := removelast index_columns.
Definition gap_columns : list string :=
  (columns_no_path ++ ["gap_duration"])%list.

(** The time before and after the desired times to pull. *)
#[local] Set Warnings "-inexact-float".
Definition buffer : float := 10.111%float.
#[local] Set Warnings "inexact-float".

(** A query parameter for a code column: omitted, a string that is read as
    a pattern, or a sequence of literal codes. *)
Inductive param : Type :=
| PNone
| PStr (s : string)
| PSeq (vals : list string).

Definition is_str (v : param) : bool :=
  match v with PStr _ => true | _ => false end.

Definition is_none (v : param) : bool :=
  match v with PNone => true | _ => false end.

(** ** Boolean arrays *)

Definition ones (n : nat) : list bool := repeat true n.

(** [np.logical_and] and [np.logical_or] on arrays of one length. *)
Fixpoint logical_and (a b : list bool) : list bool :=
  match a, b with
  | x :: a', y :: b' => (x && y) :: logical_and a' b'
  | _, _ => []
  end.

Fixpoint logical_or (a b : list bool) : list bool :=
  match a, b with
  | x :: a', y :: b' => (x || y) :: logical_or a' b'
  | _, _ => []
  end.

(** [df[mask]]: the rows at which the mask is true. *)
Fixpoint select {A : Type} (l : list A) (mask : list bool) : list A :=
  match l, mask with
  | x :: l', b :: mask' => if b then x :: select l' mask' else select l' mask'
  | _, _ => []
  end.

Definition df_select (df : DataFrame) (mask : list bool) : DataFrame :=
  mkDF (df_columns df) (select (df_rows df) mask).

(** [mar.any(axis=0)] over the masks of several requests, each of length
    [n]. *)
Definition any_axis0 (n : nat) (masks : list (list bool)) : list bool :=
  fold_left logical_or masks (repeat false n).

(** ** Module-level functions of wavebank.py *)

Definition isin (vals : list string) (v : string) : bool :=
  existsb (String.eqb v) vals.

(** [_column_contains]: whether each value contains any of the strings. *)
Definition _column_contains (ser : list string) (str_sequence : list string)
    : list bool :=
  map (fun v => existsb (fun x => Py.contains x v) str_sequence) ser.

(** [Series.replace({None: "", "--": ""})] on one cell. *)
Definition replace_empty (v : option string) : string :=
  match v with
  | None => ""
  | Some s => if String.eqb s "--" then "" else s
  end.

(** [_get_nslc]: the seed id of every row of a frame with the four code
    columns; [col] reads a cell, which may hold [None]. *)
Definition _get_nslc {A : Type} (col : nslc_key -> A -> option string)
    (df : list A) : list string :=
  map (fun r =>
         replace_empty (col Network r) ++ "." ++
         replace_empty (col Station r) ++ "." ++
         replace_empty (col Location r) ++ "." ++
         replace_empty (col Channel r))
    df.

(** The cell of an index row, which holds a string in every code. *)
Definition row_cell (k : nslc_key) (r : IndexRow) : option string :=
  Some (code k r).

(** The seed id [network.station.location.channel] without replacement, as
    [_index2stream] and [_read_index_by_seed] build it. *)
Definition seed_id (r : IndexRow) : string :=
  network r ++ "." ++ station r ++ "." ++ location r ++ "." ++ channel r.

(** ** Waveforms and files *)

(** A trace of obspy: its seed id, the times of its first and last sample
    and its samples. *)
Record Trace : Type := mkTrace {
  tr_id : string;
  tr_starttime : float;
  tr_endtime : float;
  tr_data : list float
}.

Definition Stream : Type := list Trace.

(** A file below the bank directory: when it was last modified and the
    traces a reader finds in it ([None] when it cannot be parsed). *)
Record WaveFile : Type := mkFile {
  mtime : float;
  contents : option Stream
}.

(** A value of a code column as the summary extractor hands it over: text,
    or the raw bytes of a header field. *)
Inductive Cell : Type :=
| CStr (s : string)
| CBytes (s : string).

(** One summary record of [summarize_wave_file]. *)
Record Summary : Type := mkSummary {
  s_network : Cell;
  s_station : Cell;
  s_location : Cell;
  s_channel : Cell;
  s_starttime : float;
  s_endtime : float;
  s_path : string
}.

Definition s_code (k : nslc_key) (u : Summary) : Cell :=
  match k with
  | Network => s_network u
  | Station => s_station u
  | Location => s_location u
  | Channel => s_channel u
  end.

(** The index file: the table of rows, the metadata table and the
    timestamp of the last update. *)
Record IndexFile : Type := mkIndex {
  index_node : list IndexRow;
  meta_node : option (string * string);
  time_node : option float
}.

(** A keyword argument of [read_index] that is passed on to the reader of
    the index file: the columns to load. *)
Definition kwargs : Type := option (list string).

Record CacheEntry : Type := mkEntry {
  c_starttime : option float;
  c_endtime : option float;
  c_buffer : float;
  c_kwargs : kwargs;
  c_index : DataFrame
}.

(** What the code touches outside itself. *)
Inductive Event : Type :=
| StoreExists
| StoreRead
| StoreWrite
| WalkDirectory
| FileRead (p : string)
| FileWrite (p : string).

(** The directory of the bank, the index file in it ([None] when there is
    none), the cache object of the bank, the wall clock, and the accesses
    made so far, latest first. *)
Record World : Type := mkWorld {
  files : list (string * WaveFile);
  index_file : option IndexFile;
  cache : list CacheEntry;
  now : float;
  log : list Event
}.

(** A time as a caller passes it: a number, or a time object of obspy,
    held by its timestamp.  Python takes the number 0.0 for false and
    every time object for true. *)
Inductive pytime : Type :=
| Stamp (x : float)
| TimeObj (t : float).

Definition time_truthy (v : pytime) : bool :=
  match v with
  | Stamp x => Py.truthy x
  | TimeObj _ => true
  end.

(** [a or b] for an optional time [a]: [None] and the number [0.0] are
    both falsy. *)
Definition time_or_else (a : option pytime) (b : pytime) : pytime :=
  match a with
  | Some v => if time_truthy v then v else b
  | None => b
  end.

(** ** Exceptions and state *)

Inductive exn : Type :=
| ValueError (msg : string)
| KeyError (msg : string)
| AssertionError (msg : string)
| ReadError (p : string)
| MergeError.

Inductive result (A : Type) : Type :=
| Ok (a : A)
| Raise (e : exn).

Arguments Ok {A} a.
Arguments Raise {A} e.

Definition M (A : Type) : Type := World -> result A * World.

Definition ret {A : Type} (a : A) : M A := fun w => (Ok a, w).

Definition raise {A : Type} (e : exn) : M A := fun w => (Raise e, w).

Definition bind {A B : Type} (m : M A) (k : A -> M B) : M B :=
  fun w =>
    match m w with
    | (Ok a, w') => k a w'
    | (Raise e, w') => (Raise e, w')
    end.

Notation "x <- m ;; k" := (bind m (fun x => k))
  (at level 61, m at next level, right associativity).
Notation "m ;;; k" := (bind m (fun _ => k))
  (at level 61, right associativity).

Definition gets {A : Type} (f : World -> A) : M A := fun w => (Ok (f w), w).

Definition modify (f : World -> World) : M unit := fun w => (Ok tt, f w).

Definition emit (e : Event) : M unit :=
  modify (fun w =>
            mkWorld (files w) (index_file w) (cache w) (now w) (e :: log w)).

Definition set_index_file (i : option IndexFile) : M unit :=
  modify (fun w => mkWorld (files w) i (cache w) (now w) (log w)).

Definition set_cache (c : list CacheEntry) : M unit :=
  modify (fun w => mkWorld (files w) (index_file w) c (now w) (log w)).

Definition set_files (f : list (string * WaveFile)) : M unit :=
  modify (fun w => mkWorld f (index_file w) (cache w) (now w) (log w)).

(** [for x in xs: body(x)], stopping at the first exception. *)
Fixpoint for_each {A : Type} (xs : list A) (body : A -> M unit) : M unit :=
  match xs with
  | [] => ret tt
  | x :: xs' => body x ;;; for_each xs' body
  end.

(** ** The bank object *)

Record WaveBank : Type := mkBank {
  bank_path : string;
  path_structure : string;
  name_structure : string;
  cache_size : nat;
  format : string;
  ext : option string
}.

(** [os.path.exists(self.index_path)]. *)
Definition index_exists : M bool :=
  emit StoreExists ;;;
  gets (fun w => match index_file w with Some _ => true | None => false end).

(** [last_updated]: the time stored in the index, else [None]. *)
Definition last_updated : M (option float) :=
  emit StoreRead ;;;
  gets (fun w =>
          match index_file w with
          | Some i => time_node i
          | None => None
          end).

(** ** The index store, its cache and the directory scanner

    obsplus.bank.utils and obsplus.bank.core are not part of the sources at
    hand; the three operations below follow the contracts of the
    specification. *)

Definition overlaps (lo hi : float) (r : IndexRow) : bool :=
  negb (PrimFloat.ltb (endtime r) lo || PrimFloat.ltb hi (starttime r)).

(** Modelled from the spec: the reader of the index file that
    [_IndexCache] calls on a miss (4.1, read_range): the rows overlapping
    [[lo, hi]], and no rows when there is no index file. *)
Definition read_range (lo hi : float) (kw : kwargs) : M DataFrame :=
  emit StoreRead ;;;
  gets (fun w =>
          mkDF (match kw with Some cols => cols | None => index_columns end)
            (match index_file w with
             | Some i => filter (overlaps lo hi) (index_node i)
             | None => []
             end)).

Definition opt_float_eqb (a b : option float) : bool :=
  match a, b with
  | None, None => true
  | Some x, Some y => PrimFloat.eqb x y
  | _, _ => false
  end.

Fixpoint strings_eqb (a b : list string) : bool :=
  match a, b with
  | [], [] => true
  | x :: a', y :: b' => String.eqb x y && strings_eqb a' b'
  | _, _ => false
  end.

Definition kwargs_eqb (a b : kwargs) : bool :=
  match a, b with
  | None, None => true
  | Some x, Some y => strings_eqb x y
  | _, _ => false
  end.

Definition same_key (st en : option float) (buf : float) (kw : kwargs)
    (e : CacheEntry) : bool :=
  opt_float_eqb st (c_starttime e) && opt_float_eqb en (c_endtime e)
  && PrimFloat.eqb buf (c_buffer e) && kwargs_eqb kw (c_kwargs e).

Definition padded_lo (st : option float) (buf : float) : float :=
  match st with
  | Some s => (s - buf)%float
  | None => (- infinity)%float
  end.

Definition padded_hi (en : option float) (buf : float) : float :=
  match en with
  | Some e => (e + buf)%float
  | None => infinity
  end.

(** Modelled from the spec: [_IndexCache.__call__] (4.2, get).  A request
    served before under the same parameters returns the cached copy; a miss
    reads the padded range from the store, keeps the result under the exact
    parameters and drops the oldest entry when the capacity is exceeded. *)
Definition _index_cache (self : WaveBank) (st en : option float)
    (buf : float) (kw : kwargs) : M DataFrame :=
  entries <- gets cache ;;
  match find (same_key st en buf kw) entries with
  | Some e => ret (c_index e)
  | None =>
      index <- read_range (padded_lo st buf) (padded_hi en buf) kw ;;
      let entries' := (entries ++ [mkEntry st en buf kw index])%list in
      set_cache (if Nat.ltb (cache_size self) (List.length entries')
                 then tl entries' else entries') ;;;
      ret index
  end.

(** Modelled from the spec: [_IndexCache.clear_cache] (4.2, clear). *)
Definition clear_cache : M unit := set_cache [].

Fixpoint ends_with (suffix s : string) : bool :=
  String.eqb suffix s ||
  match s with
  | EmptyString => false
  | String _ rest => ends_with suffix rest
  end.

(** Modelled from the spec: [_Bank._unindexed_file_iterator] (4.3): the
    files of the directory, the index file apart, that carry the required
    extension and are newer than the last update, or all of them when no
    index was built yet. *)
Definition _unindexed_file_iterator (self : WaveBank)
    : M (list (string * WaveFile)) :=
  lu <- last_updated ;;
  emit WalkDirectory ;;;
  gets (fun w =>
          filter
            (fun pf =>
               match ext self with
               | Some e => ends_with e (fst pf)
               | None => true
               end
               && match lu with
                  | Some t => PrimFloat.ltb t (mtime (snd pf))
                  | None => true
                  end)
            (files w)).

(** ** Methods of [WaveBank] *)

Section Bank.

#[local] Set Default Proof Using "Type".

(** The collaborators the class calls: the summary extractor of
    obsplus.bank.utils, the template renderer behind [summarize_trace],
    and obspy's merge (method 1, which may raise), trim, sort and
    response attachment of a stream. *)
Variable summarize_wave_file : string -> WaveFile -> string -> list Summary.
Variable summarize_trace : Trace -> option string -> string -> string -> string.
Variable st_merge : Stream -> option Stream.
Variable st_trim : float -> float -> Stream -> Stream.
Variable st_sort : Stream -> Stream.
Variable st_attach_response : Stream -> Stream.

(** obspy's time object: [UTCDateTime x] is the timestamp of the object
    [UTCDateTime(x)] made from the number [x]; obspy keeps it in whole
    nanoseconds. *)
Variable UTCDateTime : float -> float.

(** [obspy.UTCDateTime(v)] for a time as the caller passes it. *)
Definition utc_of (v : pytime) : float :=
  match v with
  | Stamp x => UTCDateTime x
  | TimeObj t => t
  end.

(** *** The filter of the module level *)

(** [filter_index]: an array of booleans as long as the index, true where
    the row meets the filter. *)
Definition filter_index (index : list IndexRow) (net sta loc chan : param)
    (start end_ : option float) : list bool :=
  let query :=
    [(Network, net); (Station, sta); (Location, loc); (Channel, chan)] in
  let match_query := filter (fun kv => is_str (snd kv)) query in
  let sequence_query :=
    filter (fun kv => negb (is_str (snd kv)) && negb (is_none (snd kv)))
      query in
  let bool_index := ones (List.length index) in
  let bool_index :=
    fold_left
      (fun bool_index kv =>
         match snd kv with
         | PStr val =>
             let regex := get_regex val in
             let new :=
               map (fun r => Fnmatch.re_match regex (code (fst kv) r)) index in
             logical_and bool_index new
         | _ => bool_index
         end)
      match_query bool_index in
  let bool_index :=
    fold_left
      (fun bool_index kv =>
         match snd kv with
         | PSeq val =>
             logical_and bool_index
               (map (fun r => isin val (code (fst kv) r)) index)
         | _ => bool_index
         end)
      sequence_query bool_index in
  match start, end_ with
  | None, None => bool_index
  | _, _ =>
      let t1 :=
        match start with
        | Some s => UTCDateTime s
        | None => (- infinity)%float
        end in
      let t2 :=
        match end_ with
        | Some e => UTCDateTime e
        | None => infinity
        end in
      let in_time :=
        map (fun r =>
               negb (PrimFloat.ltb (endtime r) t1
                     || PrimFloat.ltb t2 (starttime r)))
          index in
      logical_and bool_index in_time
  end.


(** [df[col].astype(str)]: text is kept, bytes are shown as Python prints
    them (for header bytes that are printable and hold neither a quote nor
    a backslash). *)
Definition astype_str (c : Cell) : string :=
  match c with
  | CStr s => s
  | CBytes s => "b'" ++ s ++ "'"
  end.

(** The value [_write_update] stores for a code column. *)
Definition stored_code (c : Cell) : string :=
  let sser := astype_str c in
  Py.replace "'" "" (Py.replace "b" "" sser).

(** The row [_write_update] stores for a summary.  The bank path is taken
    out of the path as the text it is; pandas before 2.0 reads it as a
    regular expression, which comes to the same for a bank path without
    characters special there. *)
Definition stored_row (self : WaveBank) (u : Summary) : IndexRow :=
  mkRow (stored_code (s_network u)) (stored_code (s_station u))
    (stored_code (s_location u)) (stored_code (s_channel u))
    (s_starttime u) (s_endtime u)
    (Py.replace (bank_path self) "" (s_path u)).

Definition isnull (r : IndexRow) : bool :=
  PrimFloat.is_nan (starttime r) || PrimFloat.is_nan (endtime r).

(** [_write_update]: convert updates to a dataframe, then append it to the
    index table.  An empty list of updates gives a frame without columns,
    so that reading its path column fails.  Column widths of the table are
    not represented. *)
Definition _write_update (self : WaveBank) (updates : list Summary)
    : M unit :=
  match updates with
  | [] => raise (KeyError "path")
  | _ =>
      let df := map (stored_row self) updates in
      if existsb isnull df
      then raise (AssertionError "null values found in index dataframe")
      else
        emit StoreWrite ;;;
        old <- gets index_file ;;
        t <- gets now ;;
        set_index_file
          (Some
             match old with
             | Some i =>
                 mkIndex (index_node i ++ df)
                   (match meta_node i with
                    | Some m => Some m
                    | None => Some (path_structure self, name_structure self)
                    end)
                   (Some t)
             | None =>
                 mkIndex df (Some (path_structure self, name_structure self))
                   (Some t)
             end)
  end.

(** The loop of [update_index] over the files not yet indexed. *)
Fixpoint summarize_files (self : WaveBank) (fis : list (string * WaveFile))
    : M (list (list Summary)) :=
  match fis with
  | [] => ret []
  | fi :: rest =>
      emit (FileRead (fst fi)) ;;;
      updates <- summarize_files self rest ;;
      ret (summarize_wave_file (fst fi) (snd fi) (format self) :: updates)
  end.

(** [update_index]: add any file modified since the last update to the
    index.  The progress bar only reports, the lock is moot for one
    thread, and the version check of [_Bank] is not at hand and left
    out. *)
Definition update_index (self : WaveBank) : M unit :=
  counted <- _unindexed_file_iterator self ;;
  let num_files := List.length counted in
  fis <- _unindexed_file_iterator self ;;
  updates <- summarize_files self fis ;;
  if Nat.ltb 0 (List.length updates)
  then _write_update self (List.concat updates) ;;; clear_cache
  else ret tt.

(** [read_index]: the subset of the index that meets the parameters. *)
Definition read_index (self : WaveBank) (network station location channel : param)
    (starttime endtime : option float) (kw : kwargs) : M DataFrame :=
  match starttime, endtime with
  | Some s, Some e =>
      if PrimFloat.ltb e s
      then raise (ValueError "starttime cannot be greater than endtime")
      else ret tt
  | _, _ => ret tt
  end ;;;
  exists_ <- index_exists ;;
  (if negb exists_ then update_index self else ret tt) ;;;
  exists_ <- index_exists ;;
  if negb exists_
  then ret (mkDF index_columns [])
  else
    index <- _index_cache self starttime endtime buffer kw ;;
    let filt :=
      filter_index (df_rows index) network station location channel None None
    in
    ret (df_select index filt).

(** *** Availability, gaps and uptime *)

(** The columns [df.starttime] and [df.endtime]. *)
Definition col_starttime (df : list IndexRow) : list float :=
  map starttime df.

Definition col_endtime (df : list IndexRow) : list float :=
  map endtime df.

(** The key of a [groupby(list(NSLC))]. *)
Definition nslc : Type := (string * string * string * string)%type.

Definition nslc_of (r : IndexRow) : nslc :=
  (network r, station r, location r, channel r).

Definition nslc_eqb (a b : nslc) : bool :=
  match a, b with
  | (n1, s1, l1, c1), (n2, s2, l2, c2) =>
      String.eqb n1 n2 && String.eqb s1 s2 && String.eqb l1 l2
      && String.eqb c1 c2
  end.

Definition lex (c : comparison) (rest : comparison) : comparison :=
  match c with
  | Eq => rest
  | _ => c
  end.

Definition nslc_ltb (a b : nslc) : bool :=
  match a, b with
  | (n1, s1, l1, c1), (n2, s2, l2, c2) =>
      match lex (String.compare n1 n2)
              (lex (String.compare s1 s2)
                 (lex (String.compare l1 l2) (String.compare c1 c2))) with
      | Lt => true
      | _ => false
      end
  end.

(** The distinct keys in ascending order. *)
Fixpoint insert_key (k : nslc) (ks : list nslc) : list nslc :=
  match ks with
  | [] => [k]
  | k' :: rest =>
      if nslc_eqb k k' then ks
      else if nslc_ltb k k' then k :: ks
      else k' :: insert_key k rest
  end.

Definition group_keys {A : Type} (key : A -> nslc) (rows : list A)
    : list nslc :=
  fold_left (fun ks r => insert_key (key r) ks) rows [].

(** [df.groupby(list(NSLC))]: the groups by ascending key, each with its
    rows in the order of the frame. *)
Definition groupby {A : Type} (key : A -> nslc) (rows : list A)
    : list (nslc * list A) :=
  map (fun k => (k, filter (fun r => nslc_eqb (key r) k) rows))
    (group_keys key rows).

(** Minimum, maximum and sum of a column of numbers that holds no NaN. *)
Definition series_min (xs : list float) : float :=
  match xs with
  | [] => nan
  | x :: rest => Py.min x rest
  end.

Definition series_max (xs : list float) : float :=
  match xs with
  | [] => nan
  | x :: rest => Py.max x rest
  end.

Definition series_sum (xs : list float) : float :=
  fold_left PrimFloat.add xs 0%float.

Record AvailRow : Type := mkAvail {
  a_nslc : nslc;
  a_starttime : float;
  a_endtime : float
}.

Record GapRow : Type := mkGap {
  g_nslc : nslc;
  g_starttime : float;
  g_endtime : float;
  g_gap_duration : float
}.

Record UptimeRow : Type := mkUptime {
  u_nslc : nslc;
  u_starttime : float;
  u_endtime : float;
  u_duration : float;
  u_gap_duration : float;
  u_uptime : float;
  u_availability : float
}.

(** [get_availability_df]: start and end times of every channel. *)
Definition get_availability_df (self : WaveBank)
    (network station location channel : param)
    (starttime endtime : option float) : M (list AvailRow) :=
  ind <- read_index self network station location channel starttime endtime
           (Some columns_no_path) ;;
  let gro := groupby nslc_of (df_rows ind) in
  ret (map (fun g =>
              mkAvail (fst g)
                (series_min (col_starttime (snd g)))
                (series_max (col_endtime (snd g))))
         gro).

(** [df.sort_values(["starttime", "endtime"])]. *)
Definition time_ltb (a b : IndexRow) : bool :=
  PrimFloat.ltb (starttime a) (starttime b)
  || (PrimFloat.eqb (starttime a) (starttime b)
      && PrimFloat.ltb (endtime a) (endtime b)).

Fixpoint insert_row (r : IndexRow) (sorted : list IndexRow) : list IndexRow :=
  match sorted with
  | [] => [r]
  | r' :: rest =>
      if time_ltb r r' then r :: sorted else r' :: insert_row r rest
  end.

Definition sort_values (rows : list IndexRow) : list IndexRow :=
  fold_left (fun sorted r => insert_row r sorted) rows [].

(** [ser.shift(-1)]: every value moves one place up and the last place is
    filled with NaN. *)
Definition shift_up (ser : list float) : list float :=
  match ser with
  | [] => []
  | _ :: rest => (rest ++ [nan])%list
  end.

(** [_get_gap_dfs]: the function applied to the rows of one seed id. *)
Definition _get_gap_dfs (df : list IndexRow) (min_gap : float) : list GapRow :=
  let dd := sort_values df in
  let shifted_starttimes := shift_up (col_starttime dd) in
  let gap_index :=
    map (fun p => PrimFloat.ltb (endtime (fst p) + min_gap)%float (snd p))
      (combine dd shifted_starttimes) in
  map (fun p =>
         let start := endtime (fst p) in
         let end_ := snd p in
         mkGap (nslc_of (fst p)) start end_ (end_ - start)%float)
    (select (combine dd shifted_starttimes) gap_index).

(** [get_gaps_df]: an entry for every gap in the archive. *)
Definition get_gaps_df (self : WaveBank)
    (network station location channel : param)
    (starttime endtime : option float) (min_gap : float) : M (list GapRow) :=
  index <- read_index self network station location channel starttime endtime
             (Some columns_no_path) ;;
  let group := groupby nslc_of (df_rows index) in
  let out := List.concat (map (fun g => _get_gap_dfs (snd g) min_gap) group) in
  match out with
  | [] => ret []
  | _ => ret out
  end.

(** [pd.merge(avail, gap_total_df)]: an inner join on the code columns. *)
Definition merge_on_nslc (avail : list (AvailRow * float))
    (gap_total : list (nslc * float)) : list (AvailRow * float * float) :=
  flat_map
    (fun a =>
       map (fun g => (fst a, snd a, snd g))
         (filter (fun g => nslc_eqb (a_nslc (fst a)) (fst g)) gap_total))
    avail.

(** [get_uptime_df]: duration, gap duration and availability of each seed
    id. *)
Definition get_uptime_df (self : WaveBank)
    (network station location channel : param)
    (starttime endtime : option float) : M (list UptimeRow) :=
  avail <- get_availability_df self network station location channel
             starttime endtime ;;
  let avail :=
    map (fun a => (a, (a_endtime a - a_starttime a)%float)) avail in
  gaps_df <- get_gaps_df self network station location channel
               starttime endtime 1%float ;;
  let gap_total_df :=
    match gaps_df with
    | _ :: _ =>
        map (fun g => (fst g, series_sum (map g_gap_duration (snd g))))
          (groupby g_nslc gaps_df)
    | [] => map (fun a => (a_nslc (fst a), 0%float)) avail
    end in
  ret (map (fun row =>
              match row with
              | (a, duration, gap_duration) =>
                  let uptime := (duration - gap_duration)%float in
                  mkUptime (a_nslc a) (a_starttime a) (a_endtime a) duration
                    gap_duration uptime (uptime / duration)%float
              end)
         (merge_on_nslc avail gap_total_df)).

(** *** Retrieval and assembly *)

Fixpoint unique (l : list string) : list string :=
  match l with
  | [] => []
  | x :: rest => x :: filter (fun y => negb (String.eqb x y)) (unique rest)
  end.

Fixpoint lookup_file (p : string) (fs : list (string * WaveFile))
    : option WaveFile :=
  match fs with
  | [] => None
  | (q, f) :: rest => if String.eqb p q then Some f else lookup_file p rest
  end.

(** Modelled from the spec: [try_read_stream] of obsplus.bank.utils (6,
    stream-reader): the traces of the file, or [None] when it is missing or
    cannot be parsed. *)
Definition try_read_stream (p : string) : M (option Stream) :=
  emit (FileRead p) ;;;
  gets (fun w =>
          match lookup_file p (files w) with
          | Some f => contents f
          | None => None
          end).

Fixpoint read_streams (ps : list string) : M Stream :=
  match ps with
  | [] => ret []
  | p :: rest =>
      st <- try_read_stream p ;;
      stt <- read_streams rest ;;
      match st with
      | Some ((_ :: _) as traces) => ret (traces ++ stt)%list
      | _ => ret stt
      end
  end.

(** [_polish_stream]: trim to the desired times, attach responses and
    merge channels; the stream as it is left. *)
Definition _polish_stream (st : Stream) (starttime endtime : option pytime)
    (attach_response : bool) : Stream :=
  match st with
  | [] => st
  | x :: rest =>
      let starttime :=
        time_or_else starttime
          (TimeObj (Py.min (tr_starttime x) (map tr_starttime rest))) in
      let endtime :=
        time_or_else endtime
          (TimeObj (Py.max (tr_endtime x) (map tr_endtime rest))) in
      let st := st_trim (utc_of starttime) (utc_of endtime) st in
      let st := if attach_response then st_attach_response st else st in
      let st :=
        match st_merge st with
        | Some merged => merged
        | None => st
        end in
      st_sort st
  end.

(** [_index2stream]: the waveforms in the index. *)
Definition _index2stream (self : WaveBank) (index : DataFrame)
    (starttime endtime : option pytime) (attach_response : bool) : M Stream :=
  let files_ :=
    unique (map (fun r => bank_path self ++ path r) (df_rows index)) in
  stt <- read_streams files_ ;;
  let nslc_ := map seed_id (df_rows index) in
  let stt := filter (fun x => isin nslc_ (tr_id x)) stt in
  ret (_polish_stream stt starttime endtime attach_response).

(** [get_waveforms], for bounds given as numbers; a bound given as a time
    object reaches [_index2stream] the way it was passed. *)
Definition get_waveforms (self : WaveBank)
    (network station location channel : param)
    (starttime endtime : option float) (attach_response : bool) : M Stream :=
  index <- read_index self network station location channel starttime endtime
             None ;;
  _index2stream self index (option_map Stamp starttime)
    (option_map Stamp endtime) attach_response.

(** *** Bulk requests *)

(** One entry of a bulk request. *)
Record BulkRequest : Type := mkReq {
  b_network : string;
  b_station : string;
  b_location : string;
  b_channel : string;
  utc1 : float;
  utc2 : float
}.

Definition b_code (k : nslc_key) (b : BulkRequest) : string :=
  match k with
  | Network => b_network b
  | Station => b_station b
  | Location => b_location b
  | Channel => b_channel b
  end.

(** The cell of a request that holds a string in every code; requests that
    hold [None] are rows of [RequestRow]. *)
Definition b_cell (k : nslc_key) (b : BulkRequest) : option string :=
  Some (b_code k b).

(** The columns [t1] and [t2] of the frame of requests. *)
Definition t1 (b : BulkRequest) : float := utc1 b.
Definition t2 (b : BulkRequest) : float := utc2 b.

Definition match_chars : list string := ["*"; "?"; "["; "]"].

(** The rows of [ind] that the inner function [_func] of
    [get_waveforms_bulk] loads for one time window. *)
Definition _func_mask (time : float * float) (ind : list IndexRow)
    (df : list BulkRequest) : list bool :=
  let ar := ones (List.length ind) in
  let df :=
    filter (fun b => PrimFloat.eqb (t1 b) (fst time)
                     && PrimFloat.eqb (t2 b) (snd time)) df in
  let uses_matches :=
    map (fun x => _column_contains (map (b_code x) df) match_chars) NSLC in
  let match_ar := any_axis0 (List.length df) uses_matches in
  let df_match := select df match_ar in
  let df_no_match := select df (map negb match_ar) in
  let ar :=
    match df_match with
    | [] => ar
    | _ =>
        let mar :=
          map (fun b =>
                 filter_index ind (PStr (b_network b)) (PStr (b_station b))
                   (PStr (b_location b)) (PStr (b_channel b)) None None)
            df_match in
        logical_and ar (any_axis0 (List.length ind) mar)
    end in
  let ar :=
    match df_no_match with
    | [] => ar
    | _ =>
        let nslc1 := _get_nslc b_cell df_no_match in
        let nslc2 := _get_nslc row_cell ind in
        logical_and ar (map (isin nslc1) nslc2)
    end in
  ar.

Definition _func (self : WaveBank) (time : float * float) (ind : DataFrame)
    (df : list BulkRequest) : M Stream :=
  _index2stream self (df_select ind (_func_mask time (df_rows ind) df))
    (Some (Stamp (fst time))) (Some (Stamp (snd time))) false.

(** *** Frames whose code cells may hold [None]

    The frames above hold a string in every code cell.  A cell of a request,
    or of an index that the caller passes in, may also hold [None].  The
    string accessor of pandas leaves such a cell the way it is, so that its
    result is an array of objects, and numpy combines arrays of objects
    entry by entry with Python's [and], [or] and [~]. *)

(** The four code cells of one row of a frame. *)
Record CodeRow : Type := mkCodes {
  c_network : option string;
  c_station : option string;
  c_location : option string;
  c_channel : option string
}.

Definition cell (k : nslc_key) (c : CodeRow) : option string :=
  match k with
  | Network => c_network c
  | Station => c_station c
  | Location => c_location c
  | Channel => c_channel c
  end.

(** One row of the frame of requests: the codes and the columns [t1] and
    [t2]. *)
Record RequestRow : Type := mkRequestRow {
  r_codes : CodeRow;
  r_t1 : float;
  r_t2 : float
}.

Definition is_null {A : Type} (v : option A) : bool :=
  match v with
  | None => true
  | Some _ => false
  end.

(** Python's [a or b] and [a and b] on [True], [False] and [None]. *)
Definition py_or (a b : option bool) : option bool :=
  match a with
  | Some true => a
  | _ => b
  end.

Definition py_and (a b : option bool) : option bool :=
  match a with
  | Some true => b
  | _ => a
  end.

(** A ufunc of two arguments on arrays of one length. *)
Fixpoint object_zip (f : option bool -> option bool -> option bool)
    (a b : list (option bool)) : list (option bool) :=
  match a, b with
  | x :: a', y :: b' => f x y :: object_zip f a' b'
  | _, _ => []
  end.

(** [.any(axis=0)] over arrays of length [n]. *)
Definition object_any (n : nat) (rows : list (list (option bool)))
    : list (option bool) :=
  fold_left (object_zip py_or) rows (repeat (Some false) n).

Definition truth (v : option bool) : bool :=
  match v with
  | Some b => b
  | None => false
  end.

(** [frame[ar]] as pandas reads the key [ar]: a mask that holds [None]
    is refused. *)
Definition getitem_mask (ar : list (option bool)) : result (list bool) :=
  if existsb is_null ar
  then Raise (ValueError "cannot index with vector containing NA / NaN values")
  else Ok (map truth ar).

(** [_column_contains] on a column that may hold [None]. *)
Definition _column_contains_cells (ser : list (option string))
    (str_sequence : list string) : list (option bool) :=
  map (option_map (fun v => existsb (fun x => Py.contains x v) str_sequence))
    ser.

(** [filter_index] for the codes of a request and no bounds: a string is
    matched against its column, [None] asks nothing. *)
Definition filter_index_cells (index : list CodeRow)
    (net sta loc chan : option string) : list (option bool) :=
  let query :=
    [(Network, net); (Station, sta); (Location, loc); (Channel, chan)] in
  let bool_index := repeat (Some true) (List.length index) in
  fold_left
    (fun bool_index kv =>
       match snd kv with
       | Some val =>
           let regex := get_regex val in
           let new :=
             map (fun r => option_map (Fnmatch.re_match regex)
                             (cell (fst kv) r)) index in
           object_zip py_and bool_index new
       | None => bool_index
       end)
    query bool_index.

(** The mask of [_func] on such frames.  When a code column of the requests
    holds [None], [match_ar] is an array of objects: a [None] in it is
    refused by [df[match_ar]], and otherwise [~match_ar] holds the integers
    that [~] makes of Python's booleans, which [df[~match_ar]] looks up as
    column labels; the text of that error is not modelled. *)
Definition _func_cells (time : float * float) (ind : list CodeRow)
    (df : list RequestRow) : result (list bool) :=
  let ar := repeat (Some true) (List.length ind) in
  let df :=
    filter (fun b => PrimFloat.eqb (r_t1 b) (fst time)
                     && PrimFloat.eqb (r_t2 b) (snd time)) df in
  let uses_matches :=
    map (fun x =>
           _column_contains_cells (map (fun b => cell x (r_codes b)) df)
             match_chars)
      NSLC in
  let match_ar := object_any (List.length df) uses_matches in
  let objects :=
    existsb (fun b => existsb (fun x => is_null (cell x (r_codes b))) NSLC)
      df in
  match getitem_mask match_ar with
  | Raise e => Raise e
  | Ok match_ar =>
      if objects then Raise (KeyError "not in index")
      else
        let df_match := select df match_ar in
        let df_no_match := select df (map negb match_ar) in
        let ar :=
          match df_match with
          | [] => ar
          | _ =>
              let mar :=
                map (fun b =>
                       filter_index_cells ind (c_network (r_codes b))
                         (c_station (r_codes b)) (c_location (r_codes b))
                         (c_channel (r_codes b)))
                  df_match in
              object_zip py_and ar (object_any (List.length ind) mar)
          end in
        let ar :=
          match df_no_match with
          | [] => ar
          | _ =>
              let nslc1 :=
                _get_nslc (fun k b => cell k (r_codes b)) df_no_match in
              let nslc2 := _get_nslc cell ind in
              object_zip py_and ar
                (map (fun x => Some (isin nslc1 x)) nslc2)
          end in
        getitem_mask ar
  end.

(** [np.unique(values, axis=0)] on pairs of times: sorted, without
    repetition. *)
Definition pair_ltb (a b : float * float) : bool :=
  PrimFloat.ltb (fst a) (fst b)
  || (PrimFloat.eqb (fst a) (fst b) && PrimFloat.ltb (snd a) (snd b)).

Definition pair_eqb (a b : float * float) : bool :=
  PrimFloat.eqb (fst a) (fst b) && PrimFloat.eqb (snd a) (snd b).

Fixpoint insert_time (t : float * float) (ts : list (float * float))
    : list (float * float) :=
  match ts with
  | [] => [t]
  | t' :: rest =>
      if pair_eqb t t' then ts
      else if pair_ltb t t' then t :: ts
      else t' :: insert_time t rest
  end.

Definition unique_times (df : list BulkRequest) : list (float * float) :=
  fold_left (fun ts b => insert_time (t1 b, t2 b) ts) df [].

(** The part of [get_waveforms_bulk] before any waveform file is read: the
    index rows [ind] for the whole request. *)
Definition bulk_index (self : WaveBank) (bulk : list BulkRequest)
    (index : option DataFrame) : M DataFrame :=
  let t1_ := series_min (map t1 bulk) in
  let t2_ := series_max (map t2 bulk) in
  match index with
  | Some index =>
      ret (mkDF (df_columns index)
             (filter (fun r => negb (PrimFloat.ltb t2_ (starttime r)
                                     || PrimFloat.ltb (endtime r) t1_))
                (df_rows index)))
  | None => read_index self PNone PNone PNone PNone (Some t1_) (Some t2_) None
  end.

(** [[f(x) for x in xs]] for an [f] with effects. *)
Fixpoint map_m {A B : Type} (f : A -> M B) (xs : list A) : M (list B) :=
  match xs with
  | [] => ret []
  | x :: rest =>
      y <- f x ;;
      ys <- map_m f rest ;;
      ret (y :: ys)
  end.

(** [get_waveforms_bulk]: an empty request gives an empty stream; otherwise
    the streams of all time windows are added up. *)
Definition get_waveforms_bulk (self : WaveBank) (bulk : list BulkRequest)
    (index : option DataFrame) : M Stream :=
  match bulk with
  | [] => ret []
  | _ =>
      let df := bulk in
      ind <- bulk_index self bulk index ;;
      streams <- map_m (fun time => _func self time ind df)
                   (unique_times df) ;;
      ret (List.concat streams)
  end.

(** The index rows a bulk request resolves to, one frame per time window:
    what [get_waveforms_bulk] hands to [_index2stream]. *)
Definition bulk_resolve (self : WaveBank) (bulk : list BulkRequest)
    (index : option DataFrame) : M (list ((float * float) * DataFrame)) :=
  ind <- bulk_index self bulk index ;;
  ret (map (fun time =>
              (time, df_select ind (_func_mask time (df_rows ind) bulk)))
         (unique_times bulk)).

(** *** Depositing waveforms *)

(** [os.path.join(a, b)]. *)
Definition path_join (a b : string) : string :=
  if Fnmatch.starts_with "/" b then b
  else if String.eqb a "" || ends_with "/" a then a ++ b
  else a ++ "/" ++ b.

(** [st_dic[path].append(tr)] on a dictionary that keeps the order in
    which its keys were added. *)
Fixpoint dict_append (p : string) (tr : Trace)
    (st_dic : list (string * list Trace)) : list (string * list Trace) :=
  match st_dic with
  | [] => [(p, [tr])]
  | (q, trs) :: rest =>
      if String.eqb p q then (q, (trs ++ [tr])%list) :: rest
      else (q, trs) :: dict_append p tr rest
  end.

(** Writing a file: its contents are replaced, or it is created. *)
Fixpoint store_file (p : string) (f : WaveFile)
    (fs : list (string * WaveFile)) : list (string * WaveFile) :=
  match fs with
  | [] => [(p, f)]
  | (q, g) :: rest =>
      if String.eqb p q then (q, f) :: rest
      else (q, g) :: store_file p f rest
  end.

(** [obspy.read(path)] of a file that exists. *)
Definition obspy_read (p : string) : M Stream :=
  emit (FileRead p) ;;;
  f <- gets (fun w => lookup_file p (files w)) ;;
  match f with
  | Some (mkFile _ (Some st)) => ret st
  | _ => raise (ReadError p)
  end.

(** [stream.write(path, format="mseed")]; a write that fails is not
    represented. *)
Definition stream_write (p : string) (st : Stream) : M unit :=
  emit (FileWrite p) ;;;
  t <- gets now ;;
  fs <- gets files ;;
  set_files (store_file p (mkFile t (Some st)) fs).

(** The grouping loop of [put_waveforms]. *)
Definition group_by_path (self : WaveBank) (stream : Stream)
    (name : option string) : list (string * list Trace) :=
  fold_left
    (fun st_dic tr =>
       let summary_path :=
         summarize_trace tr name (path_structure self) (name_structure self)
       in
       let path := path_join (bank_path self) summary_path in
       dict_append path tr st_dic)
    stream [].

(** The body of the saving loop of [put_waveforms] for one path. *)
Definition put_one (item : string * list Trace) : M unit :=
  let path := fst item in
  let stream := snd item in
  f <- gets (fun w => lookup_file path (files w)) ;;
  stream <-
    match f with
    | Some _ =>
        st_existing <- obspy_read path ;;
        ret (stream ++ st_existing)%list
    | None => ret stream
    end ;;
  match st_merge stream with
  | Some merged => stream_write path merged
  | None => raise MergeError
  end.

(** [put_waveforms]: add the traces of a stream to the bank.  Directories
    are not represented: a file is known by its path alone. *)
Definition put_waveforms (self : WaveBank) (stream : Stream)
    (name : option string) : M unit :=
  let st_dic := group_by_path self stream name in
  for_each st_dic put_one ;;;
  match st_dic with
  | [] => ret tt
  | _ => update_index self
  end.

(** *** Retrieval by seed id *)

(** The argument [seed_id] of [get_waveforms_by_seed]: a single id or a
    sequence of ids. *)
Inductive seed_arg : Type :=
| OneSeed (s : string)
| SeedList (l : list string).

(** [_read_index_by_seed]: read the index by seed ids. *)
Definition _read_index_by_seed (self : WaveBank) (seed_ids : list string)
    (starttime endtime : float) : M DataFrame :=
  exists_ <- index_exists ;;
  (if negb exists_ then update_index self else ret tt) ;;;
  index <- _index_cache self (Some starttime) (Some endtime) buffer None ;;
  let seed := map seed_id (df_rows index) in
  ret (df_select index (map (isin seed_ids) seed)).

(** [get_waveforms_by_seed]: waveforms of one seed id or of a list of
    them. *)
Definition get_waveforms_by_seed (self : WaveBank) (seed : seed_arg)
    (starttime endtime : float) (attach_response : bool) : M Stream :=
  let seed_ids :=
    match seed with
    | OneSeed s => [s]
    | SeedList l => l
    end in
  index <- _read_index_by_seed self seed_ids starttime endtime ;;
  _index2stream self index (Some (Stamp starttime)) (Some (Stamp endtime))
    attach_response.

(** * Vocabulary of the properties *)

(** A zero of either sign. *)
Definition is_zero (x : float) : Prop := x = 0%float \/ x = (-0)%float.

(** ** Filters *)

(** What one parameter asks of a row (4.4 of the specification): a string
    is a pattern for the whole value, a sequence lists the values allowed,
    an omitted parameter asks nothing. *)
Definition param_ok (key : nslc_key) (v : param) (r : IndexRow) : bool :=
  match v with
  | PNone => true
  | PStr val => Fnmatch.re_match (get_regex val) (code key r)
  | PSeq vals => isin vals (code key r)
  end.

Definition row_passes (net sta loc chan : param) (r : IndexRow) : bool :=
  param_ok Network net r && param_ok Station sta r
  && param_ok Location loc r && param_ok Channel chan r.

(** ** Shell patterns as they are described

    The relation below is written from the description of a shell pattern,
    on the text of the pattern and of the value, without the translation to
    a regular expression: a star stands for any run of characters, a
    question mark for any one character, a bracket class for one character
    of the class (or, after [!], for one that is not in it), and every
    other character for itself. *)

(** No closing bracket in the text. *)
Fixpoint no_close (s : string) : bool :=
  match s with
  | EmptyString => true
  | String c rest => negb (Ascii.eqb c "]") && no_close rest
  end.

(** The members of a class: at least one character, and a closing bracket
    only as the first of them. *)
Definition members_text (m : string) : bool :=
  match m with
  | String _ tail => no_close tail
  | EmptyString => false
  end.

(** What stands between the brackets of a class: the members, after [!]
    for a negated class. *)
Definition class_text (body : string) : bool :=
  match body with
  | String "!" m => members_text m
  | _ => members_text body
  end.

(** [c] lies in the range from [lo] to [hi]. *)
Definition between (lo hi c : ascii) : bool :=
  Nat.leb (nat_of_ascii lo) (nat_of_ascii c)
  && Nat.leb (nat_of_ascii c) (nat_of_ascii hi).

(** [c] is one of the members: [lo-hi] is a range, any other character
    stands for itself. *)
Fixpoint member_of (m : string) (c : ascii) : bool :=
  match m with
  | EmptyString => false
  | String lo rest =>
      match rest with
      | String "-" (String hi rest') => between lo hi c || member_of rest' c
      | _ => Ascii.eqb c lo || member_of rest c
      end
  end.

(** [c] is matched by the class with this text. *)
Definition class_has (body : string) (c : ascii) : bool :=
  match body with
  | String "!" m => negb (member_of m c)
  | _ => member_of body c
  end.

(** No class text is closed in [p]: an opening bracket before [p] stands
    for itself. *)
Definition unclosed (p : string) : Prop :=
  forall body q, p = body ++ String "]" q -> class_text body = false.

(** [shell_match pat s]: the whole of [s] matches the shell pattern
    [pat]. *)
Inductive shell_match : string -> string -> Prop :=
| shell_end : shell_match "" ""
| shell_star (p s t : string) :
    shell_match p t -> shell_match (String "*" p) (s ++ t)
| shell_any (p : string) (c : ascii) (s : string) :
    shell_match p s -> shell_match (String "?" p) (String c s)
| shell_class (body p : string) (c : ascii) (s : string) :
    class_text body = true -> class_has body c = true ->
    shell_match p s ->
    shell_match (String "[" (body ++ String "]" p)) (String c s)
| shell_lit (c : ascii) (p s : string) :
    c <> "*"%char -> c <> "?"%char -> (c = "["%char -> unclosed p) ->
    shell_match p s -> shell_match (String c p) (String c s).

Fixpoint literal (s : string) : list Fnmatch.tok :=
  match s with
  | EmptyString => []
  | String c rest => Fnmatch.Lit c :: literal rest
  end.

(** No character of the string opens a wildcard. *)
Fixpoint plain (s : string) : bool :=
  match s with
  | EmptyString => true
  | String c rest =>
      negb (Ascii.eqb c "*") && negb (Ascii.eqb c "?")
      && negb (Ascii.eqb c "[") && plain rest
  end.

(** The parameter list that sets one code column to a string. *)
Definition only (key : nslc_key) (val : string) (k : nslc_key) : param :=
  match key, k with
  | Network, Network | Station, Station
  | Location, Location | Channel, Channel => PStr val
  | _, _ => PNone
  end.

(** ** Worlds and runs *)

(** The world after more accesses, the latest first. *)
Definition logged (es : list Event) (w : World) : World :=
  mkWorld (files w) (index_file w) (cache w) (now w) (es ++ log w).

(** The files the scanner yields. *)
Definition unindexed (self : WaveBank) (w : World)
    : list (string * WaveFile) :=
  filter
    (fun pf =>
       match ext self with
       | Some e => ends_with e (fst pf)
       | None => true
       end
       && match match index_file w with
                | Some i => time_node i
                | None => None
                end with
          | Some t => PrimFloat.ltb t (mtime (snd pf))
          | None => true
          end)
    (files w).

Definition summaries (self : WaveBank) (fis : list (string * WaveFile))
    : list (list Summary) :=
  map (fun fi => summarize_wave_file (fst fi) (snd fi) (format self)) fis.

Definition reads (fis : list (string * WaveFile)) : list Event :=
  rev (map (fun fi => FileRead (fst fi)) fis).

(** The accesses of [update_index] before it writes. *)
Definition scan_events (self : WaveBank) (w : World) : list Event :=
  (reads (unindexed self w)
   ++ [WalkDirectory; StoreRead; WalkDirectory; StoreRead])%list.

(** The index file after [df] was appended at time [t]. *)
Definition appended (self : WaveBank) (df : list IndexRow)
    (old : option IndexFile) (t : float) : IndexFile :=
  match old with
  | Some i =>
      mkIndex (index_node i ++ df)
        (match meta_node i with
         | Some m => Some m
         | None => Some (path_structure self, name_structure self)
         end)
        (Some t)
  | None =>
      mkIndex df (Some (path_structure self, name_structure self)) (Some t)
  end.

Definition kw_columns (kw : kwargs) : list string :=
  match kw with
  | Some cols => cols
  | None => index_columns
  end.

Definition index_rows (w : World) : list IndexRow :=
  match index_file w with
  | Some i => index_node i
  | None => []
  end.

Definition stored_frame (st en : option float) (buf : float) (kw : kwargs)
    (rows : list IndexRow) : DataFrame :=
  mkDF (kw_columns kw)
    (filter (overlaps (padded_lo st buf) (padded_hi en buf)) rows).

Definition fresh (rows : list IndexRow) (e : CacheEntry) : Prop :=
  c_index e
  = stored_frame (c_starttime e) (c_endtime e) (c_buffer e) (c_kwargs e) rows.

Definition coherent (w : World) : Prop :=
  Forall (fresh (index_rows w)) (cache w).

(** The test that opens [read_index]: [starttime > endtime]. *)
Definition bad_times (st en : option float) : bool :=
  match st, en with
  | Some s, Some e => PrimFloat.ltb e s
  | _, _ => false
  end.

(** The end of [read_index], once there is an index file. *)
Definition read_cached (self : WaveBank) (net sta loc chan : param)
    (st en : option float) (kw : kwargs) : M DataFrame :=
  index <- _index_cache self st en buffer kw ;;
  ret (df_select index
         (filter_index (df_rows index) net sta loc chan None None)).

Definition has_index (w : World) : bool :=
  match index_file w with
  | Some _ => true
  | None => false
  end.

(** The exceptions [_write_update] raises in this model. *)
Definition write_failure (e : exn) : Prop :=
  match e with
  | KeyError _ | AssertionError _ => True
  | _ => False
  end.

(** ** Bulk requests *)

(** A request bears a wildcard when one of its four codes holds one of the
    special characters. *)
Definition uses_wildcard (b : BulkRequest) : bool :=
  existsb
    (fun x => existsb (fun m => Py.contains m (b_code x b)) match_chars)
    NSLC.

Definition in_window (time : float * float) (b : BulkRequest) : bool :=
  PrimFloat.eqb (t1 b) (fst time) && PrimFloat.eqb (t2 b) (snd time).

(** The requests of one time window, on frames that may hold [None]. *)
Definition in_group (time : float * float) (b : RequestRow) : bool :=
  PrimFloat.eqb (r_t1 b) (fst time) && PrimFloat.eqb (r_t2 b) (snd time).

(** The four codes of the request are strings without any of the
    characters of [match_chars]. *)
Definition exact_row (b : RequestRow) : bool :=
  forallb
    (fun k =>
       match cell k (r_codes b) with
       | Some v => negb (existsb (fun m => Py.contains m v) match_chars)
       | None => false
       end)
    NSLC.

(** One of the four codes of the request is [None]. *)
Definition has_null (b : RequestRow) : bool :=
  existsb (fun k => is_null (cell k (r_codes b))) NSLC.

(** A code that stands for the empty code: [None], [--] or the empty
    string. *)
Definition empty_ish (v : option string) : Prop :=
  v = None \/ v = Some "--" \/ v = Some "".

(** The rows above as rows that hold no [None]. *)
Definition codes_of (r : IndexRow) : CodeRow :=
  mkCodes (Some (network r)) (Some (station r)) (Some (location r))
    (Some (channel r)).

Definition request_row (b : BulkRequest) : RequestRow :=
  mkRequestRow
    (mkCodes (Some (b_network b)) (Some (b_station b)) (Some (b_location b))
       (Some (b_channel b)))
    (t1 b) (t2 b).

(** The seed id [_get_nslc] gives one row. *)
Definition nslc_id {A : Type} (col : nslc_key -> A -> option string) (r : A)
    : string :=
  replace_empty (col Network r) ++ "." ++
  replace_empty (col Station r) ++ "." ++
  replace_empty (col Location r) ++ "." ++
  replace_empty (col Channel r).

Definition request_passes (b : BulkRequest) (r : IndexRow) : bool :=
  row_passes (PStr (b_network b)) (PStr (b_station b)) (PStr (b_location b))
    (PStr (b_channel b)) r.

Definition wild_ok (wild : list BulkRequest) (r : IndexRow) : bool :=
  match wild with
  | [] => true
  | _ => existsb (fun b => request_passes b r) wild
  end.

Definition exact_ok (exact : list BulkRequest) (r : IndexRow) : bool :=
  match exact with
  | [] => true
  | _ =>
      existsb (fun b => String.eqb (nslc_id row_cell r) (nslc_id b_cell b))
        exact
  end.

(** The replacement [_get_nslc] makes in one code. *)
Definition norm (s : string) : string :=
  if String.eqb s "--" then "" else s.

Fixpoint has_char (c : ascii) (s : string) : bool :=
  match s with
  | EmptyString => false
  | String d rest => Ascii.eqb c d || has_char c rest
  end.

Fixpoint count_char (c : ascii) (s : string) : nat :=
  match s with
  | EmptyString => 0
  | String d rest => (if Ascii.eqb c d then 1 else 0) + count_char c rest
  end.

(** ** Files written *)

(** The world after [stream.write(p)] of [m], with the accesses [es]. *)
Definition written (p : string) (m : Stream) (es : list Event) (w : World)
    : World :=
  mkWorld (store_file p (mkFile (now w) (Some m)) (files w)) (index_file w)
    (cache w) (now w) (es ++ log w).

(** The file at [p] holds the merge of the new traces with what [old]
    held. *)
Definition merged_into (old : WaveFile) (trs : list Trace) (t : float)
    (f : option WaveFile) : Prop :=
  exists st m,
    contents old = Some st /\ st_merge (trs ++ st)%list = Some m
    /\ f = Some (mkFile t (Some m)).

(** The record of accesses shows the read of [p] right before its write. *)
Definition read_then_written (p : string) (l : list Event) : Prop :=
  exists later earlier, l = (later ++ FileWrite p :: FileRead p :: earlier)%list.

(** The path [put_waveforms] computes for a trace. *)
Definition destination (self : WaveBank) (name : option string) (tr : Trace)
    : string :=
  path_join (bank_path self)
    (summarize_trace tr name (path_structure self) (name_structure self)).

(** The traces of a stream that go to [p], in their order. *)
Definition routed_to (self : WaveBank) (name : option string) (p : string)
    (stream : Stream) : list Trace :=
  filter (fun tr => String.eqb (destination self name tr) p) stream.

Fixpoint dict_get (p : string) (d : list (string * list Trace))
    : option (list Trace) :=
  match d with
  | [] => None
  | (q, trs) :: rest => if String.eqb p q then Some trs else dict_get p rest
  end.

(** ** Gaps and uptime as functions of the rows read *)

Definition gaps_of (rows : list IndexRow) (min_gap : float) : list GapRow :=
  List.concat
    (map (fun g => _get_gap_dfs (snd g) min_gap) (groupby nslc_of rows)).

Definition availability_of (rows : list IndexRow) : list AvailRow :=
  map (fun g =>
         mkAvail (fst g) (series_min (col_starttime (snd g)))
           (series_max (col_endtime (snd g))))
    (groupby nslc_of rows).

Definition uptime_of (rows : list IndexRow) : list UptimeRow :=
  let avail :=
    map (fun a => (a, (a_endtime a - a_starttime a)%float))
      (availability_of rows) in
  let gaps_df := gaps_of rows 1%float in
  let gap_total_df :=
    match gaps_df with
    | _ :: _ =>
        map (fun g => (fst g, series_sum (map g_gap_duration (snd g))))
          (groupby g_nslc gaps_df)
    | [] => map (fun a => (a_nslc (fst a), 0%float)) avail
    end in
  map (fun row =>
         match row with
         | (a, duration, gap_duration) =>
             let uptime := (duration - gap_duration)%float in
             mkUptime (a_nslc a) (a_starttime a) (a_endtime a) duration
               gap_duration uptime (uptime / duration)%float
         end)
    (merge_on_nslc avail gap_total_df).

(** The rows of the index a query reads. *)
Definition matching (net sta loc chan : param) (st en : option float)
    (rows : list IndexRow) : list IndexRow :=
  filter (fun r =>
            overlaps (padded_lo st buffer) (padded_hi en buffer) r
            && row_passes net sta loc chan r)
    rows.

(** ** Example banks

    A bank over [/data/bank] with stand-ins for the collaborators: an
    extractor that reports every trace of a file as a segment of
    UU.TMU..HHZ, file names made of the seed id, and a merge that keeps the
    traces as they are. *)

Definition demo_bank : WaveBank :=
  mkBank "/data/bank" "{network}/{station}" "{time}" 5 "mseed" None.

Definition demo_summarize (p : string) (f : WaveFile) (fmt : string)
    : list Summary :=
  match contents f with
  | Some st =>
      map (fun tr =>
             mkSummary (CStr "UU") (CStr "TMU") (CStr "") (CStr "HHZ")
               (tr_starttime tr) (tr_endtime tr) p)
        st
  | None => []
  end.

Definition demo_trace_path (tr : Trace) (name : option string)
    (path_struct name_struct : string) : string :=
  match name with
  | Some n => n
  | None => tr_id tr ++ ".mseed"
  end.

Definition demo_merge (st : Stream) : option Stream := Some st.

(** A stand-in for the timestamp of obspy's time object, exact on the whole
    seconds the examples use. *)
Definition demo_time (t : float) : float := t.

(** A stand-in for the trim of obspy: the times of every trace are cut to
    the bounds. *)
Definition demo_trim (lo hi : float) (st : Stream) : Stream :=
  map (fun tr =>
         mkTrace (tr_id tr)
           (if PrimFloat.ltb (tr_starttime tr) lo then lo
            else tr_starttime tr)
           (if PrimFloat.ltb hi (tr_endtime tr) then hi else tr_endtime tr)
           (tr_data tr))
    st.

Definition seg (loc : string) (t1 t2 : float) (p : string) : IndexRow :=
  mkRow "UU" "TMU" loc "HHZ" t1 t2 p.

(** A bank whose index holds two segments with an empty location code. *)
Definition demo_index : IndexFile :=
  mkIndex [seg "" 0 100 "/a.mseed"; seg "" 300 400 "/b.mseed"]
    (Some ("{network}/{station}", "{time}")) (Some 1000%float).

Definition demo_world : World :=
  mkWorld [] (Some demo_index) [] 2000%float [].

Definition empty_world : World := mkWorld [] None [] 2000%float [].

(** The three segments of the gap scenario, stored out of order. *)
Definition gap_world : World :=
  mkWorld []
    (Some (mkIndex [mkRow "X" "Y" "" "Z" 300 400 "/c.mseed";
                    mkRow "X" "Y" "" "Z" 0 100 "/a.mseed";
                    mkRow "X" "Y" "" "Z" 100 200 "/b.mseed"]
             None (Some 1000%float)))
    [] 2000%float [].

Definition old_trace : Trace := mkTrace "UU.TMU..HHZ" 0 100 [1; 2; 3]%float.
Definition new_trace : Trace := mkTrace "UU.TMU..HHZ" 100 200 [4; 5]%float.

Definition old_file : WaveFile := mkFile 1500%float (Some [old_trace]).

(** A bank without index that holds one file. *)
Definition file_world : World :=
  mkWorld [("/data/bank/UU.TMU..HHZ.mseed", old_file)] None [] 2000%float [].

(** Rows of the stations ABC, A1 and BXY. *)
Definition station_rows : list IndexRow :=
  [mkRow "UU" "ABC" "" "HHZ" 0 1 "/1.mseed";
   mkRow "UU" "A1" "" "HHZ" 0 1 "/2.mseed";
   mkRow "UU" "BXY" "" "HHZ" 0 1 "/3.mseed"].

(** The request of C1's counterexample: an exact request whose location is
    written [--]. *)
Definition dashed_request : BulkRequest := mkReq "UU" "TMU" "--" "HHZ" 0 50.

Definition plain_request : BulkRequest := mkReq "UU" "TMU" "" "HHZ" 0 50.

(** The codes of UU.TMU.HHZ with a location that may be [None]. *)
Definition codes (loc : option string) : CodeRow :=
  mkCodes (Some "UU") (Some "TMU") loc (Some "HHZ").

(** Index rows whose location is [None], [--], empty and 00. *)
Definition null_rows : list CodeRow :=
  [codes None; codes (Some "--"); codes (Some ""); codes (Some "00")].

(** A request with the location [--], and one with the location [None]. *)
Definition dashed_row : RequestRow := mkRequestRow (codes (Some "--")) 0 50.
Definition null_request : RequestRow := mkRequestRow (codes None) 0 50.

(** ** Time bounds of a filter *)

(** A row ends at or after the start asked for, if one is given; the start
    is read as the timestamp of the time object made of it. *)
Definition ends_after (start : option float) (r : IndexRow) : bool :=
  match start with
  | Some s => negb (PrimFloat.ltb (endtime r) (UTCDateTime s))
  | None => true
  end.

(** A row starts at or before the end asked for, if one is given; the end
    is read as the timestamp of the time object made of it. *)
Definition starts_before (end_ : option float) (r : IndexRow) : bool :=
  match end_ with
  | Some e => negb (PrimFloat.ltb (UTCDateTime e) (starttime r))
  | None => true
  end.

(** ** What an update appends *)

(** The summary rows of the files the scanner yields. *)
Definition pending (self : WaveBank) (w : World) : list Summary :=
  List.concat (summaries self (unindexed self w)).

(** The index rows of a world, if it has an index file. *)
Definition rows_of (w : World) : option (list IndexRow) :=
  option_map index_node (index_file w).

(** The characters with a meaning of their own in a regular expression.
    pandas before 2.0 reads the pattern of [Series.str.replace] as a
    regular expression; a bank path without these characters is removed
    from the paths as the text it is. *)
Definition regex_special : list ascii :=
  ["."; "^"; "$"; "*"; "+"; "?"; "{"; "}"; "["; "]"; "\"; "|"; "("; ")"]%char.

Fixpoint regex_free (s : string) : bool :=
  match s with
  | EmptyString => true
  | String c rest =>
      negb (existsb (Ascii.eqb c) regex_special) && regex_free rest
  end.

(** No file of the directory is newer than the clock. *)
Definition no_file_from_the_future (w : World) : Prop :=
  forall pf, In pf (files w) -> PrimFloat.ltb (now w) (mtime (snd pf)) = false.

(** ** More example banks *)

(** The bank of [demo_world] after a file was added that the index does
    not know yet. *)
Definition stale_world : World :=
  mkWorld [("/data/bank/UU.TMU..HHZ.mseed", old_file)] (Some demo_index) []
    2000%float [].

(** A bank without index whose only file cannot be parsed. *)
Definition junk_world : World :=
  mkWorld [("/data/bank/notes.txt", mkFile 1500%float None)] None []
    2000%float [].

(** ** Files as the assembly step sees them *)

(** The traces a reader gets from the file at [p]; none when the file is
    missing or cannot be parsed. *)
Definition readable (w : World) (p : string) : Stream :=
  match lookup_file p (files w) with
  | Some f =>
      match contents f with
      | Some st => st
      | None => []
      end
  | None => []
  end.

(** The rows of an index that a list of seed ids selects in a window. *)
Definition seed_rows (seed_ids : list string) (s e : float)
    (rows : list IndexRow) : list IndexRow :=
  filter (fun r =>
            overlaps (s - buffer) (e + buffer) r && isin seed_ids (seed_id r))
    rows.

(** ** Rows of one channel in time order *)

(** The pairs of a row and the row after it. *)
Fixpoint neighbours (l : list IndexRow) : list (IndexRow * IndexRow) :=
  match l with
  | [] => []
  | a :: rest =>
      match rest with
      | [] => []
      | b :: _ => (a, b) :: neighbours rest
      end
  end.

(** The second row starts more than [min_gap] after the end of the first. *)
Definition apart (min_gap : float) (p : IndexRow * IndexRow) : bool :=
  PrimFloat.ltb (endtime (fst p) + min_gap)%float (starttime (snd p)).

(** The gap between the end of a row and the start of the next. *)
Definition gap_between (p : IndexRow * IndexRow) : GapRow :=
  mkGap (nslc_of (fst p)) (endtime (fst p)) (starttime (snd p))
    (starttime (snd p) - endtime (fst p))%float.

(** The uptime row of a channel when no gap was found in the bank. *)
Definition gapless (a : AvailRow) : UptimeRow :=
  let duration := (a_endtime a - a_starttime a)%float in
  let uptime := (duration - 0)%float in
  mkUptime (a_nslc a) (a_starttime a) (a_endtime a) duration 0 uptime
    (uptime / duration)%float.

(** The gaps reported for one channel. *)
Definition gaps_for (k : nslc) (gaps : list GapRow) : list GapRow :=
  filter (fun g => nslc_eqb (g_nslc g) k) gaps.

(** ** The order of the group keys *)

(** The comparison [nslc_ltb] tests. *)
Definition nslc_compare (a b : nslc) : comparison :=
  match a, b with
  | (n1, s1, l1, c1), (n2, s2, l2, c2) =>
      lex (String.compare n1 n2)
        (lex (String.compare s1 s2)
           (lex (String.compare l1 l2) (String.compare c1 c2)))
  end.

(** A comparison that decides equality, is antisymmetric and transitive. *)
Definition good {A : Type} (cmp : A -> A -> comparison) : Prop :=
  (forall a b, cmp a b = Eq <-> a = b)
  /\ (forall a b, cmp b a = CompOpp (cmp a b))
  /\ (forall a b c, cmp a b = Lt -> cmp b c = Lt -> cmp a c = Lt).

Definition lex_pair {A B : Type} (ca : A -> A -> comparison)
    (cb : B -> B -> comparison) (x y : A * B) : comparison :=
  lex (ca (fst x) (fst y)) (cb (snd x) (snd y)).

Definition key_lt (a b : nslc) : Prop := nslc_ltb a b = true.

(** ** Files that [put_waveforms] creates *)

(** The file holds the merge of the traces [trs] alone, written at [t]. *)
Definition created (trs : list Trace) (t : float) (f : option WaveFile)
    : Prop :=
  exists m, st_merge trs = Some m /\ f = Some (mkFile t (Some m)).

(** ** Accesses to waveform files *)


(** * Properties *)

(** ** Comparisons of binary64 numbers *)

Lemma SFcompare_swap (x y : spec_float) :
  SFcompare y x = option_map CompOpp (SFcompare x y).
Proof.
  destruct x as [sx | sx | | sx mx ex], y as [sy | sy | | sy my ey];
    cbn; try reflexivity;
    try (destruct sx; reflexivity); try (destruct sy; reflexivity);
    try (destruct sx, sy; reflexivity).
  destruct sx, sy; cbn; try reflexivity;
    rewrite (Z.compare_antisym ex ey);
    destruct (ex ?= ey)%Z; cbn; try reflexivity;
    change (Pos.compare_cont Eq my mx) with (Pos.compare my mx);
    change (Pos.compare_cont Eq mx my) with (Pos.compare mx my);
    rewrite (Pos.compare_antisym mx my); destruct (mx ?= my)%positive; reflexivity.
Qed.

Lemma SFcompare_refl (x : spec_float) :
  x <> S754_nan -> SFcompare x x = Some Eq.
Proof.
  destruct x as [s | s | | s m e]; cbn; intros H; try reflexivity.
  - destruct s; reflexivity.
  - contradiction H; reflexivity.
  - destruct s; rewrite Z.compare_refl;
      change (Pos.compare_cont Eq m m) with (Pos.compare m m);
      rewrite Pos.compare_refl; reflexivity.
Qed.

Lemma SFcompare_eq (x y : spec_float) :
  SFcompare x y = Some Eq ->
  x = y \/ exists sx sy, x = S754_zero sx /\ y = S754_zero sy.
Proof.
  destruct x as [sx | sx | | sx mx ex], y as [sy | sy | | sy my ey];
    cbn; try discriminate;
    try (destruct sx; discriminate); try (destruct sy; discriminate).
  - intros _. right. eauto.
  - destruct sx, sy; try discriminate; intros _; left; reflexivity.
  - destruct sx, sy; try discriminate;
      destruct (ex ?= ey)%Z eqn:He; try discriminate;
      change (Pos.compare_cont Eq mx my) with (Pos.compare mx my);
      destruct (mx ?= my)%positive eqn:Hm; try discriminate;
      intros _; left;
      apply Z.compare_eq in He; apply Pos.compare_eq in Hm; subst; reflexivity.
Qed.

Lemma leb_ltb_false (x y : float) :
  (x <=? y)%float = true -> (y <? x)%float = false.
Proof.
  rewrite leb_spec, ltb_spec. unfold SFleb, SFltb.
  rewrite (SFcompare_swap (Prim2SF x) (Prim2SF y)).
  destruct (SFcompare (Prim2SF x) (Prim2SF y)) as [[ | | ] | ]; cbn;
    congruence.
Qed.

Lemma ltb_leb_false (x y : float) :
  (y <? x)%float = true -> (x <=? y)%float = false.
Proof.
  intros H. destruct (x <=? y)%float eqn:E; [ | reflexivity ].
  apply leb_ltb_false in E. congruence.
Qed.

Lemma leb_eqb_refl (x y : float) :
  (x <=? y)%float = true -> (x =? x)%float = true /\ (y =? y)%float = true.
Proof.
  rewrite leb_spec, !eqb_spec. unfold SFleb, SFeqb. intros H.
  assert (Hx : Prim2SF x <> S754_nan).
  { intros E. rewrite E in H. cbn in H. discriminate. }
  assert (Hy : Prim2SF y <> S754_nan).
  { intros E. rewrite E in H. destruct (Prim2SF x); cbn in H; discriminate. }
  rewrite !SFcompare_refl by assumption. auto.
Qed.

Lemma eqb_cases (x y : float) :
  (x =? y)%float = true -> x = y \/ (is_zero x /\ is_zero y).
Proof.
  rewrite eqb_spec. unfold SFeqb.
  destruct (SFcompare (Prim2SF x) (Prim2SF y)) as [[ | | ] | ] eqn:E;
    try discriminate.
  intros _. apply SFcompare_eq in E. destruct E as [E | (sx & sy & Ex & Ey)].
  - left. apply Prim2SF_inj. exact E.
  - right. split.
    + rewrite <- (SF2Prim_Prim2SF x), Ex. destruct sx; [right | left]; reflexivity.
    + rewrite <- (SF2Prim_Prim2SF y), Ey. destruct sy; [right | left]; reflexivity.
Qed.

Lemma eqb_sub_buffer (x y : float) :
  (x =? y)%float = true -> (x - buffer)%float = (y - buffer)%float.
Proof.
  intros H. destruct (eqb_cases H) as [-> | [[-> | ->] [-> | ->]]];
    reflexivity.
Qed.

Lemma eqb_add_buffer (x y : float) :
  (x =? y)%float = true -> (x + buffer)%float = (y + buffer)%float.
Proof.
  intros H. destruct (eqb_cases H) as [-> | [[-> | ->] [-> | ->]]];
    reflexivity.
Qed.

Lemma buffer_not_zero (b : float) :
  (buffer =? b)%float = true -> b = buffer.
Proof.
  intros H. destruct (eqb_cases H) as [E | [[E | E] _]].
  - symmetry. exact E.
  - apply (f_equal (fun x => (x =? 0)%float)) in E. vm_compute in E.
    discriminate.
  - apply (f_equal (fun x => (x =? 0)%float)) in E. vm_compute in E.
    discriminate.
Qed.

(** ** Boolean arrays and row selection *)

Lemma ones_map {A : Type} (l : list A) :
  ones (List.length l) = map (fun _ => true) l.
Proof.
  unfold ones. induction l as [ | x l IH]; cbn; [ | rewrite IH ]; reflexivity.
Qed.

Lemma logical_and_map {A : Type} (f g : A -> bool) (l : list A) :
  logical_and (map f l) (map g l) = map (fun x => f x && g x) l.
Proof.
  induction l as [ | x l IH]; cbn; [ | rewrite IH ]; reflexivity.
Qed.

Lemma logical_or_map {A : Type} (f g : A -> bool) (l : list A) :
  logical_or (map f l) (map g l) = map (fun x => f x || g x) l.
Proof.
  induction l as [ | x l IH]; cbn; [ | rewrite IH ]; reflexivity.
Qed.

Lemma repeat_map {A B : Type} (b : B) (l : list A) :
  repeat b (List.length l) = map (fun _ => b) l.
Proof.
  induction l as [ | x l IH]; cbn; [ | rewrite IH ]; reflexivity.
Qed.

Lemma select_map {A : Type} (f : A -> bool) (l : list A) :
  select l (map f l) = filter f l.
Proof.
  induction l as [ | x l IH]; cbn; [ reflexivity | ].
  rewrite IH. reflexivity.
Qed.

Lemma filter_filter {A : Type} (f g : A -> bool) (l : list A) :
  filter f (filter g l) = filter (fun x => g x && f x) l.
Proof.
  induction l as [ | x l IH]; cbn; [ reflexivity | ].
  destruct (g x); cbn; [ destruct (f x) | ]; rewrite IH; reflexivity.
Qed.

(** ** The filter, row by row *)

Ltac split_atoms :=
  repeat match goal with
    | |- context [Fnmatch.re_match ?p ?s] => destruct (Fnmatch.re_match p s)
    | |- context [isin ?v ?s] => destruct (isin v s)
    end.

Lemma filter_index_rowwise (index : list IndexRow) (net sta loc chan : param) :
  filter_index index net sta loc chan None None
  = map (row_passes net sta loc chan) index.
Proof.
  unfold filter_index. rewrite ones_map.
  destruct net, sta, loc, chan; cbn;
    rewrite ?logical_and_map; apply map_ext; intros r;
    unfold row_passes, param_ok; cbn; split_atoms; reflexivity.
Qed.

Lemma filter_index_none (index : list IndexRow) :
  filter_index index PNone PNone PNone PNone None None
  = map (fun _ => true) index.
Proof. rewrite filter_index_rowwise. reflexivity. Qed.

Lemma select_all {A : Type} (l : list A) :
  select l (map (fun _ => true) l) = l.
Proof.
  induction l as [ | x l IH]; cbn; [ | rewrite IH ]; reflexivity.
Qed.

(** ** Patterns without special characters *)

Lemma translate_plain (s : string) :
  plain s = true -> Fnmatch.translate s = literal s.
Proof.
  unfold Fnmatch.translate.
  induction s as [ | c s IH]; cbn; [ reflexivity | ].
  intros H. apply andb_true_iff in H. destruct H as [H Hs].
  apply andb_true_iff in H. destruct H as [H H3].
  apply andb_true_iff in H. destruct H as [H1 H2].
  apply negb_true_iff in H1, H2, H3. rewrite H1, H2, H3, (IH Hs).
  reflexivity.
Qed.

Lemma re_match_literal (p s : string) :
  Fnmatch.re_match (literal p) s = String.eqb s p.
Proof.
  revert s. induction p as [ | c p IH]; intros [ | d s]; cbn;
    try reflexivity.
  rewrite IH. destruct (Ascii.eqb d c); reflexivity.
Qed.

Lemma re_match_plain (p s : string) :
  plain p = true -> Fnmatch.re_match (get_regex p) s = String.eqb s p.
Proof.
  intros H. unfold get_regex. rewrite (translate_plain _ H).
  apply re_match_literal.
Qed.

Lemma re_match_star_end (s : string) :
  Fnmatch.re_match [Fnmatch.Star] s = true.
Proof.
  induction s as [ | c s IH]; cbn; [ reflexivity | exact IH ].
Qed.

Lemma re_match_A_star (s : string) :
  Fnmatch.re_match (get_regex "A*") s = Fnmatch.starts_with "A" s.
Proof.
  destruct s as [ | c s]; [ reflexivity | ].
  change (Fnmatch.re_match (get_regex "A*") (String c s))
    with (Ascii.eqb c "A" && Fnmatch.re_match [Fnmatch.Star] s).
  rewrite re_match_star_end, andb_true_r. apply Ascii.eqb_sym.
Qed.

Lemma re_match_A_any (s : string) :
  Fnmatch.re_match (get_regex "A?") s
  = Fnmatch.starts_with "A" s && Nat.eqb (String.length s) 2.
Proof.
  destruct s as [ | c [ | d [ | e s]]]; cbn;
    rewrite ?andb_false_r, ?andb_true_r; try reflexivity;
    apply Ascii.eqb_sym.
Qed.

(** ** The translation of a pattern matches as the pattern reads *)


Lemma translate_from_skip (pre p : string) :
  Fnmatch.translate_from (String.length pre) (pre ++ p)
  = Fnmatch.translate_from 0 p.
Proof.
  induction pre as [ | c pre IH]; cbn; [ reflexivity | exact IH ].
Qed.

Lemma substring_prefix (pre p : string) :
  String.substring 0 (String.length pre) (pre ++ p) = pre.
Proof.
  induction pre as [ | c pre IH]; cbn.
  - destruct p; reflexivity.
  - rewrite IH. reflexivity.
Qed.

Lemma substring_all (n : nat) (s : string) :
  String.length s <= n -> String.substring 0 n s = s.
Proof.
  revert n. induction s as [ | c s IH]; intros [ | n] H; cbn in *;
    try reflexivity; try lia.
  rewrite IH by lia. reflexivity.
Qed.

Lemma substring_tail (c : ascii) (s : string) :
  String.substring 1 (String.length (String c s)) (String c s) = s.
Proof.
  cbn [String.substring String.length]. 
  destruct s as [ | d s]; [ reflexivity | ].
  change (String.substring 0 (S (String.length (String d s))) (String d s) = String d s).
  apply substring_all. lia.
Qed.

Lemma find_close_spec (s : string) (j : nat) :
  Fnmatch.find_close s = Some j ->
  exists pre q, s = pre ++ String "]" q /\ no_close pre = true
                /\ String.length pre = j.
Proof.
  revert j. induction s as [ | c s IH]; intros j; cbn; [ discriminate | ].
  destruct (Ascii.eqb c "]") eqn:E.
  - intros [= <-]. apply Ascii.eqb_eq in E. subst c.
    exists "", s. repeat split.
  - destruct (Fnmatch.find_close s) as [k | ]; [ | discriminate ].
    intros [= <-]. destruct (IH k eq_refl) as (pre & q & -> & Hn & Hl).
    exists (String c pre), q. cbn. rewrite E, Hn, Hl. repeat split.
Qed.

Lemma find_close_complete (pre q : string) :
  no_close pre = true ->
  Fnmatch.find_close (pre ++ String "]" q) = Some (String.length pre).
Proof.
  induction pre as [ | c pre IH]; cbn; [ reflexivity | ].
  intros H. apply andb_true_iff in H. destruct H as [H1 H2].
  apply negb_true_iff in H1. rewrite H1, (IH H2). reflexivity.
Qed.

Lemma class_text_cons (c : ascii) (m : string) :
  class_text (String c m)
  = if Ascii.eqb c "!" then members_text m else no_close m.
Proof. destruct c as [[] [] [] [] [] [] [] []]; reflexivity. Qed.

Lemma class_has_cons (c : ascii) (m : string) (x : ascii) :
  class_has (String c m) x
  = if Ascii.eqb c "!" then negb (member_of m x)
    else member_of (String c m) x.
Proof. destruct c as [[] [] [] [] [] [] [] []]; reflexivity. Qed.

Lemma class_of_cons (c : ascii) (m : string) :
  Fnmatch.class_of (String c m)
  = if Ascii.eqb c "!" then Fnmatch.CharSet true (Fnmatch.parse_items m)
    else Fnmatch.CharSet false (Fnmatch.parse_items (String c m)).
Proof. destruct c as [[] [] [] [] [] [] [] []]; reflexivity. Qed.

Lemma parse_items_cons (lo d : ascii) (rest : string) :
  Fnmatch.parse_items (String lo (String d rest))
  = match rest with
    | String hi rest' =>
        if Ascii.eqb d "-"
        then Fnmatch.SRange lo hi :: Fnmatch.parse_items rest'
        else Fnmatch.SChar lo :: Fnmatch.parse_items (String d rest)
    | EmptyString => Fnmatch.SChar lo :: Fnmatch.parse_items (String d rest)
    end.
Proof.
  destruct d as [[] [] [] [] [] [] [] []]; destruct rest; reflexivity.
Qed.

Lemma member_of_cons (lo d : ascii) (rest : string) (c : ascii) :
  member_of (String lo (String d rest)) c
  = match rest with
    | String hi rest' =>
        if Ascii.eqb d "-" then between lo hi c || member_of rest' c
        else Ascii.eqb c lo || member_of (String d rest) c
    | EmptyString => Ascii.eqb c lo || member_of (String d rest) c
    end.
Proof.
  destruct d as [[] [] [] [] [] [] [] []]; destruct rest; reflexivity.
Qed.

Lemma members_match (n : nat) (m : string) (c : ascii) :
  String.length m <= n ->
  existsb (Fnmatch.item_match c) (Fnmatch.parse_items m) = member_of m c.
Proof.
  revert m. induction n as [ | n IH]; intros m H.
  - destruct m; [ reflexivity | cbn in H; lia ].
  - destruct m as [ | lo [ | d rest]]; [ reflexivity | reflexivity | ].
    rewrite parse_items_cons, member_of_cons.
    destruct rest as [ | hi rest'].
    + cbn [existsb Fnmatch.item_match]. rewrite IH by (cbn in *; lia).
      reflexivity.
    + destruct (Ascii.eqb d "-").
      * cbn [existsb Fnmatch.item_match]. rewrite IH by (cbn in *; lia).
        reflexivity.
      * cbn [existsb Fnmatch.item_match]. rewrite IH by (cbn in *; lia).
        reflexivity.
Qed.

Lemma class_match (body : string) (c : ascii) :
  Fnmatch.tok_match (Fnmatch.class_of body) c = class_has body c.
Proof.
  destruct body as [ | b m]; [ reflexivity | ].
  rewrite class_of_cons, class_has_cons.
  destruct (Ascii.eqb b "!"); cbn [Fnmatch.tok_match];
    rewrite (@members_match _ _ c (le_n _)); [ | reflexivity ].
  destruct (member_of m c); reflexivity.
Qed.

Lemma members_end_spec (m : string) (j : nat) :
  option_map (fun j => (if Fnmatch.starts_with "]" m then 1 else 0) + j)
    (Fnmatch.find_close
       (String.substring (if Fnmatch.starts_with "]" m then 1 else 0)
          (String.length m) m))
  = Some j ->
  exists body p, m = body ++ String "]" p /\ members_text body = true
                 /\ String.length body = j.
Proof.
  destruct m as [ | c m]; [ discriminate | ].
  cbn [Fnmatch.starts_with].
  destruct (Ascii.eqb "]" c) eqn:E.
  - apply Ascii.eqb_eq in E. subst c. rewrite substring_tail.
    destruct (Fnmatch.find_close m) as [k | ] eqn:F; [ | discriminate ].
    intros [= <-]. destruct (@find_close_spec _ _ F) as (pre & q & -> & Hn & <-).
    exists (String "]" pre), q. repeat split. exact Hn.
  - rewrite substring_all by lia.
    destruct (Fnmatch.find_close (String c m)) as [k | ] eqn:F;
      [ | discriminate ].
    intros [= <-]. destruct (@find_close_spec _ _ F) as (pre & q & Hs & Hn & <-).
    exists pre, q. split; [ exact Hs | ]. split; [ | reflexivity ].
    destruct pre as [ | d pre].
    + cbn in Hs. injection Hs as -> _. rewrite Ascii.eqb_refl in E.
      discriminate.
    + cbn in Hn |- *. apply andb_true_iff in Hn. apply Hn.
Qed.

Lemma members_end_complete (body p : string) :
  members_text body = true ->
  let m := body ++ String "]" p in
  option_map (fun j => (if Fnmatch.starts_with "]" m then 1 else 0) + j)
    (Fnmatch.find_close
       (String.substring (if Fnmatch.starts_with "]" m then 1 else 0)
          (String.length m) m))
  = Some (String.length body).
Proof.
  destruct body as [ | c tail]; [ discriminate | ].
  cbv zeta. cbn [members_text]. intros Hn.
  change (String c tail ++ String "]" p)
    with (String c (tail ++ String "]" p)).
  cbn [Fnmatch.starts_with].
  destruct (Ascii.eqb "]" c) eqn:E.
  - rewrite substring_tail, (@find_close_complete _ p Hn). reflexivity.
  - rewrite substring_all by lia.
    cbn [Fnmatch.find_close]. rewrite Ascii.eqb_sym, E.
    rewrite (@find_close_complete _ p Hn). reflexivity.
Qed.

Lemma class_end_unfold (rest : string) :
  Fnmatch.class_end rest
  = let k1 := if Fnmatch.starts_with "!" rest then 1 else 0 in
    let r1 := String.substring k1 (String.length rest) rest in
    option_map (fun j => k1 + j)
      (option_map (fun j => (if Fnmatch.starts_with "]" r1 then 1 else 0) + j)
         (Fnmatch.find_close
            (String.substring (if Fnmatch.starts_with "]" r1 then 1 else 0)
               (String.length r1) r1))).
Proof.
  unfold Fnmatch.class_end. cbv zeta.
  destruct (Fnmatch.find_close _); cbn [option_map]; [ | reflexivity ].
  f_equal. lia.
Qed.

Lemma class_end_spec (rest : string) (j : nat) :
  Fnmatch.class_end rest = Some j ->
  exists body p, rest = body ++ String "]" p /\ class_text body = true
                 /\ String.length body = j.
Proof.
  rewrite class_end_unfold. cbv zeta.
  destruct rest as [ | c m].
  - cbn. discriminate.
  - cbn [Fnmatch.starts_with].
    destruct (Ascii.eqb "!" c) eqn:E.
    + apply Ascii.eqb_eq in E. subst c. rewrite substring_tail.
      destruct (option_map _ (Fnmatch.find_close _)) as [k | ] eqn:F;
        [ | discriminate ].
      intros [= <-].
      destruct (@members_end_spec _ _ F) as (body & p & -> & Hm & <-).
      exists (String "!" body), p. repeat split. exact Hm.
    + rewrite substring_all by lia.
      destruct (option_map _ (Fnmatch.find_close _)) as [k | ] eqn:F;
        [ | discriminate ].
      intros [= <-].
      destruct (@members_end_spec _ _ F) as (body & p & Hs & Hm & <-).
      exists body, p. split; [ exact Hs | ]. split; [ | reflexivity ].
      destruct body as [ | d body]; [ discriminate | ].
      cbn in Hs. injection Hs as -> _.
      rewrite class_text_cons, Ascii.eqb_sym, E. exact Hm.
Qed.

Lemma class_end_complete (body p : string) :
  class_text body = true ->
  Fnmatch.class_end (body ++ String "]" p) = Some (String.length body).
Proof.
  rewrite class_end_unfold. cbv zeta.
  destruct body as [ | c m]; [ discriminate | ].
  rewrite class_text_cons.
  change (String c m ++ String "]" p) with (String c (m ++ String "]" p)).
  cbn [Fnmatch.starts_with]. rewrite (Ascii.eqb_sym "!" c).
  destruct (Ascii.eqb c "!") eqn:E; intros H.
  - rewrite substring_tail.
    pose proof (@members_end_complete _ p H) as K. cbv zeta in K.
    rewrite K. reflexivity.
  - rewrite substring_all by lia.
    assert (Hm : members_text (String c m) = true) by exact H.
    pose proof (@members_end_complete _ p Hm) as K. cbv zeta in K.
    change (String c m ++ String "]" p)
      with (String c (m ++ String "]" p)) in K.
    rewrite K. reflexivity.
Qed.

Lemma re_match_star (p : list Fnmatch.tok) (s : string) :
  Fnmatch.re_match (Fnmatch.Star :: p) s = true
  <-> exists s1 s2, s = s1 ++ s2 /\ Fnmatch.re_match p s2 = true.
Proof.
  induction s as [ | c s IH].
  - change (Fnmatch.re_match (Fnmatch.Star :: p) "")
      with (Fnmatch.re_match p "" || false).
    rewrite orb_false_r. split.
    + intros H. exists "", "". split; [ reflexivity | exact H ].
    + intros (s1 & s2 & E & H). destruct s1; [ | discriminate ].
      cbn in E. subst s2. exact H.
  - change (Fnmatch.re_match (Fnmatch.Star :: p) (String c s))
      with (Fnmatch.re_match p (String c s)
            || Fnmatch.re_match (Fnmatch.Star :: p) s).
    rewrite orb_true_iff, IH. split.
    + intros [H | (s1 & s2 & -> & H)].
      * exists "", (String c s). split; [ reflexivity | exact H ].
      * exists (String c s1), s2. split; [ reflexivity | exact H ].
    + intros (s1 & s2 & E & H). destruct s1 as [ | d s1].
      * cbn in E. subst s2. left. exact H.
      * cbn in E. injection E as -> ->. right. exists s1, s2.
        split; [ reflexivity | exact H ].
Qed.

Lemma re_match_step (t : Fnmatch.tok) (p : list Fnmatch.tok) (s : string) :
  t <> Fnmatch.Star ->
  Fnmatch.re_match (t :: p) s
  = match s with
    | EmptyString => false
    | String c s' => Fnmatch.tok_match t c && Fnmatch.re_match p s'
    end.
Proof. destruct t; intros H; [ congruence | reflexivity .. ]. Qed.

Lemma translate_cons (c : ascii) (rest : string) :
  Fnmatch.translate (String c rest)
  = if Ascii.eqb c "*" then Fnmatch.Star :: Fnmatch.translate rest
    else if Ascii.eqb c "?" then Fnmatch.AnyChar :: Fnmatch.translate rest
    else if Ascii.eqb c "[" then
      match Fnmatch.class_end rest with
      | None => Fnmatch.Lit "[" :: Fnmatch.translate rest
      | Some j =>
          Fnmatch.class_of (String.substring 0 j rest)
            :: Fnmatch.translate_from (S j) rest
      end
    else Fnmatch.Lit c :: Fnmatch.translate rest.
Proof. reflexivity. Qed.

Lemma translate_from_close (body : string) (c : ascii) (p : string) :
  Fnmatch.translate_from (S (String.length body)) (body ++ String c p)
  = Fnmatch.translate p.
Proof.
  induction body as [ | d body IH]; [ reflexivity | exact IH ].
Qed.

Lemma translate_class (body p : string) :
  class_text body = true ->
  Fnmatch.translate (String "[" (body ++ String "]" p))
  = Fnmatch.class_of body :: Fnmatch.translate p.
Proof.
  intros H. rewrite translate_cons. cbn [Ascii.eqb Bool.eqb].
  rewrite (@class_end_complete _ p H), substring_prefix. f_equal.
  apply translate_from_close.
Qed.

Lemma translate_open (p : string) :
  unclosed p ->
  Fnmatch.translate (String "[" p)
  = Fnmatch.Lit "[" :: Fnmatch.translate p.
Proof.
  intros U. rewrite translate_cons. cbn [Ascii.eqb Bool.eqb].
  destruct (Fnmatch.class_end p) as [j | ] eqn:E; [ | reflexivity ].
  destruct (class_end_spec _ E) as (body & q & -> & Hc & _).
  rewrite (U body q eq_refl) in Hc. discriminate.
Qed.

Lemma length_append (a b : string) :
  String.length (a ++ b) = String.length a + String.length b.
Proof. induction a as [ | c a IH]; cbn; [ | rewrite IH ]; reflexivity. Qed.

Lemma shell_match_sound (pat s : string) :
  shell_match pat s -> Fnmatch.re_match (Fnmatch.translate pat) s = true.
Proof.
  induction 1 as [ | p s t _ IH | p c s _ IH | body p c s Hb Hc _ IH
                 | c p s H1 H2 H3 _ IH ].
  - reflexivity.
  - rewrite translate_cons. cbn [Ascii.eqb Bool.eqb].
    apply re_match_star. exists s, t. split; [ reflexivity | exact IH ].
  - rewrite translate_cons. cbn [Ascii.eqb Bool.eqb].
    rewrite re_match_step by discriminate. exact IH.
  - rewrite (@translate_class _ p Hb), re_match_step.
    + rewrite class_match, Hc. exact IH.
    + destruct body as [ | b m]; [ discriminate | ].
      rewrite class_of_cons. destruct (Ascii.eqb b "!"); discriminate.
  - destruct (Ascii.eqb c "[") eqn:E.
    + apply Ascii.eqb_eq in E. subst c.
      rewrite (translate_open (H3 eq_refl)), re_match_step by discriminate.
      cbn [Fnmatch.tok_match]. rewrite Ascii.eqb_refl. exact IH.
    + rewrite translate_cons.
      apply Ascii.eqb_neq in H1, H2. rewrite H1, H2, E.
      rewrite re_match_step by discriminate.
      cbn [Fnmatch.tok_match]. rewrite Ascii.eqb_refl. exact IH.
Qed.

Lemma shell_match_complete (n : nat) (pat s : string) :
  String.length pat <= n ->
  Fnmatch.re_match (Fnmatch.translate pat) s = true -> shell_match pat s.
Proof.
  revert pat s. induction n as [ | n IH]; intros pat s Hn.
  - destruct pat; [ | cbn in Hn; lia ].
    destruct s; [ constructor | discriminate ].
  - destruct pat as [ | c rest].
    { destruct s; [ constructor | discriminate ]. }
    cbn in Hn. rewrite translate_cons.
    destruct (Ascii.eqb c "*") eqn:E1.
    { apply Ascii.eqb_eq in E1. subst c. intros H.
      apply re_match_star in H. destruct H as (s1 & s2 & -> & H).
      apply shell_star. apply IH; [ lia | exact H ]. }
    destruct (Ascii.eqb c "?") eqn:E2.
    { apply Ascii.eqb_eq in E2. subst c.
      rewrite re_match_step by discriminate.
      destruct s as [ | d s]; [ discriminate | ]. cbn [Fnmatch.tok_match andb].
      intros H. apply shell_any. apply IH; [ lia | exact H ]. }
    destruct (Ascii.eqb c "[") eqn:E3.
    { apply Ascii.eqb_eq in E3. subst c.
      destruct (Fnmatch.class_end rest) as [j | ] eqn:E.
      - destruct (class_end_spec _ E) as (body & q & -> & Hc & <-).
        rewrite substring_prefix, translate_from_close, re_match_step.
        + destruct s as [ | d s]; [ discriminate | ].
          rewrite class_match. intros H. apply andb_true_iff in H.
          destruct H as [Hd H]. apply shell_class; [ exact Hc | exact Hd | ].
          apply IH; [ | exact H ].
          rewrite length_append in Hn. cbn in Hn. lia.
        + destruct body as [ | b m]; [ discriminate | ].
          rewrite class_of_cons. destruct (Ascii.eqb b "!"); discriminate.
      - rewrite re_match_step by discriminate.
        destruct s as [ | d s]; [ discriminate | ]. cbn [Fnmatch.tok_match].
        intros H. apply andb_true_iff in H. destruct H as [Hd H].
        apply Ascii.eqb_eq in Hd. subst d.
        apply shell_lit; try discriminate.
        + intros _ body q -> .
          destruct (class_text body) eqn:Hc; [ | reflexivity ].
          rewrite (@class_end_complete _ q Hc) in E. discriminate.
        + apply IH; [ lia | exact H ]. }
    rewrite re_match_step by discriminate.
    destruct s as [ | d s]; [ discriminate | ]. cbn [Fnmatch.tok_match].
    intros H. apply andb_true_iff in H. destruct H as [Hd H].
    apply Ascii.eqb_eq in Hd. subst d.
    apply Ascii.eqb_neq in E1, E2, E3.
    apply shell_lit; try assumption.
    + intros K. contradiction.
    + apply IH; [ lia | exact H ].
Qed.

Lemma shell_match_iff (pat s : string) :
  Fnmatch.re_match (Fnmatch.translate pat) s = true <-> shell_match pat s.
Proof.
  split; [ apply (@shell_match_complete _ pat s (le_n _))
         | apply shell_match_sound ].
Qed.

Lemma re_match_AB_star (s : string) :
  Fnmatch.re_match (get_regex "[AB]*") s
  = Fnmatch.starts_with "A" s || Fnmatch.starts_with "B" s.
Proof.
  destruct s as [ | c s]; [ reflexivity | ].
  change (Fnmatch.re_match (get_regex "[AB]*") (String c s))
    with ((Ascii.eqb c "A" || (Ascii.eqb c "B" || false))
          && Fnmatch.re_match [Fnmatch.Star] s).
  rewrite re_match_star_end, andb_true_r, orb_false_r.
  cbn [Fnmatch.starts_with]. rewrite (Ascii.eqb_sym c "A"), (Ascii.eqb_sym c "B").
  reflexivity.
Qed.

Lemma re_match_not_A_star (s : string) :
  Fnmatch.re_match (get_regex "[!A]*") s
  = negb (String.eqb s "") && negb (Fnmatch.starts_with "A" s).
Proof.
  destruct s as [ | c s]; [ reflexivity | ].
  change (Fnmatch.re_match (get_regex "[!A]*") (String c s))
    with (xorb true (Ascii.eqb c "A" || false)
          && Fnmatch.re_match [Fnmatch.Star] s).
  rewrite re_match_star_end, andb_true_r, orb_false_r.
  cbn [Fnmatch.starts_with String.eqb negb andb xorb].
  rewrite (Ascii.eqb_sym c "A"). reflexivity.
Qed.

(** C3: a string filter is a shell pattern for the whole value.  For every
    index, code column and filter string the mask has one entry per row,
    and the entry is true exactly when the whole value of the column
    matches the pattern as [shell_match] reads it: a star for any run of
    characters, a question mark for any one character, a bracket class for
    one character of the class (after [!], for one outside it), any other
    character for itself.  A pattern without wildcard characters passes
    exactly the rows whose value equals it (a value that merely contains it
    fails); the station filter "A*" passes the stations that start with A,
    "A?" those of two characters that start with A, "[AB]*" those that
    start with A or with B, and "[!A]*" those that start with a character
    other than A. *)
Theorem filter_index_wildcard (index : list IndexRow) :
  (forall key val,
      Forall2 (fun r (b : bool) => b = true <-> shell_match val (code key r))
        index
        (filter_index index (only key val Network) (only key val Station)
           (only key val Location) (only key val Channel) None None))
  /\ (forall val, plain val = true ->
        filter_index index PNone (PStr val) PNone PNone None None
        = map (fun r => String.eqb (station r) val) index)
  /\ filter_index index PNone (PStr "A*") PNone PNone None None
     = map (fun r => Fnmatch.starts_with "A" (station r)) index
  /\ filter_index index PNone (PStr "A?") PNone PNone None None
     = map (fun r => Fnmatch.starts_with "A" (station r)
                     && Nat.eqb (String.length (station r)) 2) index
  /\ filter_index index PNone (PStr "[AB]*") PNone PNone None None
     = map (fun r => Fnmatch.starts_with "A" (station r)
                     || Fnmatch.starts_with "B" (station r)) index
  /\ filter_index index PNone (PStr "[!A]*") PNone PNone None None
     = map (fun r => negb (String.eqb (station r) "")
                     && negb (Fnmatch.starts_with "A" (station r))) index.
Proof.
  split; [ | split; [ | split; [ | split; [ | split ] ] ] ].
  - intros key val. rewrite filter_index_rowwise.
    induction index as [ | r rows IH]; cbn [map]; constructor;
      [ | exact IH ].
    replace (row_passes (only key val Network) (only key val Station)
               (only key val Location) (only key val Channel) r)
      with (Fnmatch.re_match (Fnmatch.translate val) (code key r)).
    + apply shell_match_iff.
    + destruct key; unfold row_passes; cbn;
        rewrite ?andb_true_r; reflexivity.
  - intros val H. rewrite filter_index_rowwise. apply map_ext. intros r.
    unfold row_passes; cbn. rewrite !andb_true_r. apply re_match_plain, H.
  - rewrite filter_index_rowwise. apply map_ext. intros r.
    unfold row_passes; cbn [param_ok code andb].
    rewrite !andb_true_r. apply re_match_A_star.
  - rewrite filter_index_rowwise. apply map_ext. intros r.
    unfold row_passes; cbn [param_ok code andb].
    rewrite !andb_true_r. apply re_match_A_any.
  - rewrite filter_index_rowwise. apply map_ext. intros r.
    unfold row_passes; cbn [param_ok code andb].
    rewrite !andb_true_r. apply re_match_AB_star.
  - rewrite filter_index_rowwise. apply map_ext. intros r.
    unfold row_passes; cbn [param_ok code andb].
    rewrite !andb_true_r. apply re_match_not_A_star.
Qed.

(** ** Running the methods *)

Lemma logged_logged (a b : list Event) (w : World) :
  logged a (logged b w) = logged (a ++ b) w.
Proof. unfold logged; cbn. rewrite app_assoc. reflexivity. Qed.

Lemma unindexed_run (self : WaveBank) (w : World) :
  _unindexed_file_iterator self w
  = (Ok (unindexed self w), logged [WalkDirectory; StoreRead] w).
Proof. reflexivity. Qed.

Lemma unindexed_logged (self : WaveBank) (es : list Event) (w : World) :
  unindexed self (logged es w) = unindexed self w.
Proof. reflexivity. Qed.

Lemma summarize_files_run (self : WaveBank) (fis : list (string * WaveFile))
    (w : World) :
  summarize_files self fis w
  = (Ok (summaries self fis), logged (reads fis) w).
Proof.
  revert w. induction fis as [ | fi fis IH]; intros w.
  - destruct w; reflexivity.
  - cbn [summarize_files]. unfold bind at 1. unfold emit at 1, modify at 1.
    unfold bind at 1. rewrite IH. unfold ret.
    change (mkWorld (files w) (index_file w) (cache w) (now w)
              (FileRead (fst fi) :: log w))
      with (logged [FileRead (fst fi)] w).
    rewrite logged_logged. unfold reads; cbn [map rev]. reflexivity.
Qed.

Lemma update_index_run (self : WaveBank) (w : World) :
  update_index self w
  = match unindexed self w with
    | [] => (Ok tt, logged (scan_events self w) w)
    | fis =>
        (_write_update self (List.concat (summaries self fis)) ;;; clear_cache)
          (logged (scan_events self w) w)
    end.
Proof.
  unfold update_index. unfold bind at 1. rewrite unindexed_run.
  unfold bind at 1. rewrite unindexed_run, unindexed_logged.
  unfold bind at 1. rewrite summarize_files_run, !logged_logged.
  unfold scan_events. rewrite <- app_assoc. cbn [app].
  destruct (unindexed self w) as [ | fi fis] eqn:E; reflexivity.
Qed.

Lemma write_update_run (self : WaveBank) (updates : list Summary) (w : World) :
  _write_update self updates w
  = match updates with
    | [] => (Raise (KeyError "path"), w)
    | _ =>
        if existsb isnull (map (stored_row self) updates)
        then (Raise (AssertionError "null values found in index dataframe"), w)
        else
          (Ok tt,
           mkWorld (files w)
             (Some (appended self (map (stored_row self) updates)
                      (index_file w) (now w)))
             (cache w) (now w) (StoreWrite :: log w))
    end.
Proof.
  destruct updates as [ | u us]; [ reflexivity | ].
  unfold _write_update.
  destruct (existsb isnull (map (stored_row self) (u :: us)));
    [ reflexivity | ].
  destruct (index_file w) eqn:E; cbn; unfold gets, bind; cbn; rewrite E;
    reflexivity.
Qed.

(** ** Coherence of the cache

    Every cached frame is what a read of the present index file gives for
    the parameters it is kept under. *)

Lemma read_range_run (lo hi : float) (kw : kwargs) (w : World) :
  read_range lo hi kw w
  = (Ok (mkDF (kw_columns kw) (filter (overlaps lo hi) (index_rows w))),
     logged [StoreRead] w).
Proof.
  destruct w as [fs [i | ] c t l]; reflexivity.
Qed.

Lemma strings_eqb_eq (a b : list string) :
  strings_eqb a b = true -> a = b.
Proof.
  revert b. induction a as [ | x a IH]; intros [ | y b]; cbn;
    try discriminate; [ reflexivity | ].
  intros H. apply andb_true_iff in H. destruct H as [Hx Hab].
  apply String.eqb_eq in Hx. rewrite Hx, (IH _ Hab). reflexivity.
Qed.

Lemma kwargs_eqb_eq (a b : kwargs) : kwargs_eqb a b = true -> a = b.
Proof.
  destruct a, b; cbn; try discriminate; [ | reflexivity ].
  intros H. rewrite (strings_eqb_eq _ _ H). reflexivity.
Qed.

Lemma padded_lo_eqb (a b : option float) :
  opt_float_eqb a b = true -> padded_lo a buffer = padded_lo b buffer.
Proof.
  destruct a, b; cbn; try discriminate; [ | reflexivity ].
  apply eqb_sub_buffer.
Qed.

Lemma padded_hi_eqb (a b : option float) :
  opt_float_eqb a b = true -> padded_hi a buffer = padded_hi b buffer.
Proof.
  destruct a, b; cbn; try discriminate; [ | reflexivity ].
  apply eqb_add_buffer.
Qed.

Lemma same_key_frame (st en : option float) (kw : kwargs) (e : CacheEntry)
    (rows : list IndexRow) :
  same_key st en buffer kw e = true -> fresh rows e ->
  c_index e = stored_frame st en buffer kw rows.
Proof.
  unfold same_key, fresh. intros H F.
  apply andb_true_iff in H. destruct H as [H Hkw].
  apply andb_true_iff in H. destruct H as [H Hb].
  apply andb_true_iff in H. destruct H as [Hst Hen].
  apply buffer_not_zero in Hb. apply kwargs_eqb_eq in Hkw.
  rewrite F, Hb, <- Hkw. unfold stored_frame.
  rewrite (padded_lo_eqb _ _ Hst), (padded_hi_eqb _ _ Hen). reflexivity.
Qed.

(** What a call of the cache gives and leaves behind. *)
Lemma index_cache_run (self : WaveBank) (st en : option float) (kw : kwargs)
    (w : World) :
  coherent w ->
  exists w',
    _index_cache self st en buffer kw w
    = (Ok (stored_frame st en buffer kw (index_rows w)), w')
    /\ files w' = files w /\ index_file w' = index_file w
    /\ now w' = now w /\ coherent w'.
Proof.
  intros C. unfold _index_cache. unfold bind at 1, gets at 1.
  destruct (find (same_key st en buffer kw) (cache w)) as [e | ] eqn:F.
  - apply find_some in F. destruct F as [Hin Hkey].
    exists w. unfold ret. repeat split; try assumption.
    f_equal. f_equal. apply same_key_frame; [ exact Hkey | ].
    unfold coherent in C. rewrite Forall_forall in C. apply C, Hin.
  - unfold bind at 1. rewrite read_range_run.
    eexists. split; [ reflexivity | ]. cbn. repeat split.
    unfold coherent; cbn.
    assert (G : Forall (fresh (index_rows w))
                  (cache w ++ [mkEntry st en buffer kw
                     (stored_frame st en buffer kw (index_rows w))])).
    { apply Forall_app. split; [ exact C | ].
      constructor; [ reflexivity | constructor ]. }
    change (index_rows _) with (index_rows w).
    match goal with |- Forall _ (if ?c then _ else _) => destruct c end;
      [ | exact G ].
    destruct (cache w ++ _)%list; [ constructor | ].
    inversion G; assumption.
Qed.

(** ** Running [read_index] *)

Lemma index_exists_run (w : World) :
  index_exists w = (Ok (has_index w), logged [StoreExists] w).
Proof. destruct w as [fs [i | ] c t l]; reflexivity. Qed.

Lemma read_index_unfold (self : WaveBank) (net sta loc chan : param)
    (st en : option float) (kw : kwargs) (w : World) :
  read_index self net sta loc chan st en kw w
  = if bad_times st en
    then (Raise (ValueError "starttime cannot be greater than endtime"), w)
    else if has_index w
    then read_cached self net sta loc chan st en kw
           (logged [StoreExists; StoreExists] w)
    else
      match update_index self (logged [StoreExists] w) with
      | (Ok _, w1) =>
          if has_index w1
          then read_cached self net sta loc chan st en kw
                 (logged [StoreExists] w1)
          else (Ok (mkDF index_columns []), logged [StoreExists] w1)
      | (Raise e, w1) => (Raise e, w1)
      end.
Proof.
  unfold read_index, read_cached.
  assert (E : forall k : M DataFrame,
             (match st, en with
              | Some s, Some e =>
                  if PrimFloat.ltb e s
                  then raise (ValueError
                                "starttime cannot be greater than endtime")
                  else ret tt
              | _, _ => ret tt
              end ;;; k) w
             = if bad_times st en
               then (Raise (ValueError
                              "starttime cannot be greater than endtime"), w)
               else k w).
  { intros k. unfold bad_times.
    destruct st as [s | ], en as [e | ]; try reflexivity.
    destruct (PrimFloat.ltb e s); reflexivity. }
  rewrite E. clear E. destruct (bad_times st en); [ reflexivity | ].
  unfold bind at 1. rewrite index_exists_run.
  destruct (has_index w) eqn:Hw; cbn [negb].
  - unfold bind at 1, ret at 1. unfold bind at 1. rewrite index_exists_run.
    change (has_index (logged [StoreExists] w)) with (has_index w).
    rewrite Hw, logged_logged. reflexivity.
  - unfold bind at 1.
    destruct (update_index self (logged [StoreExists] w)) as [[u | e] w1];
      [ | reflexivity ].
    unfold bind at 1. rewrite index_exists_run.
    destruct (has_index w1); reflexivity.
Qed.

Lemma coherent_logged (es : list Event) (w : World) :
  coherent (logged es w) <-> coherent w.
Proof. reflexivity. Qed.

Lemma read_cached_run (self : WaveBank) (net sta loc chan : param)
    (st en : option float) (kw : kwargs) (w : World) :
  coherent w ->
  exists w',
    read_cached self net sta loc chan st en kw w
    = (Ok (mkDF (kw_columns kw)
             (filter (fun r =>
                        overlaps (padded_lo st buffer) (padded_hi en buffer) r
                        && row_passes net sta loc chan r)
                (index_rows w))),
       w')
    /\ files w' = files w /\ index_file w' = index_file w
    /\ now w' = now w /\ coherent w'.
Proof.
  intros C. destruct (index_cache_run self st en kw C) as (w' & E & R).
  exists w'. split; [ | exact R ].
  unfold read_cached, bind. rewrite E. unfold ret, df_select, stored_frame.
  cbn [df_rows df_columns]. rewrite filter_index_rowwise, select_map.
  rewrite filter_filter. reflexivity.
Qed.

(** [read_index] on a bank that has an index file. *)
Lemma read_index_indexed (self : WaveBank) (net sta loc chan : param)
    (st en : option float) (kw : kwargs) (w : World) (i : IndexFile) :
  index_file w = Some i -> coherent w -> bad_times st en = false ->
  exists w',
    read_index self net sta loc chan st en kw w
    = (Ok (mkDF (kw_columns kw)
             (filter (fun r =>
                        overlaps (padded_lo st buffer) (padded_hi en buffer) r
                        && row_passes net sta loc chan r)
                (index_node i))),
       w')
    /\ files w' = files w /\ index_file w' = Some i
    /\ now w' = now w /\ coherent w'.
Proof.
  intros Hi C Hb. rewrite read_index_unfold, Hb.
  unfold has_index. rewrite Hi.
  destruct (read_cached_run self net sta loc chan st en kw
              (w := logged [StoreExists; StoreExists] w))
    as (w' & E & Hf & Hx & Hn & Hc).
  { apply coherent_logged, C. }
  exists w'. rewrite E. cbn in Hf, Hx, Hn.
  unfold index_rows; cbn. rewrite Hi. rewrite Hx, Hi in *.
  repeat split; assumption.
Qed.

(** ** Outcomes of [update_index] *)

Lemma update_index_cases (self : WaveBank) (w : World) :
  exists w',
    files w' = files w /\ now w' = now w /\ (coherent w -> coherent w')
    /\ (update_index self w = (Ok tt, w')
        \/ exists e, update_index self w = (Raise e, w')
                     /\ write_failure e /\ index_file w' = index_file w).
Proof.
  rewrite update_index_run.
  destruct (unindexed self w) as [ | fi fis].
  - exists (logged (scan_events self w) w).
    repeat split; [ intros C; exact C | left; reflexivity ].
  - unfold bind. rewrite write_update_run.
    destruct (List.concat (summaries self (fi :: fis))) as [ | u us].
    + exists (logged (scan_events self w) w).
      repeat split; [ intros C; exact C | ].
      right. eexists. repeat split.
    + destruct (existsb isnull (map (stored_row self) (u :: us))).
      * exists (logged (scan_events self w) w).
        repeat split; [ intros C; exact C | ].
        right. eexists. repeat split.
      * eexists. split; [ | split; [ | split ] ]; cycle 3.
        { left. reflexivity. }
        { reflexivity. }
        { reflexivity. }
        { intros _. constructor. }
Qed.

Lemma index_cache_ok (self : WaveBank) (st en : option float) (buf : float)
    (kw : kwargs) (w : World) :
  exists index w', _index_cache self st en buf kw w = (Ok index, w').
Proof.
  unfold _index_cache. unfold bind at 1, gets at 1.
  destruct (find (same_key st en buf kw) (cache w)) as [e | ].
  - eexists. eexists. reflexivity.
  - unfold bind at 1. rewrite read_range_run. eexists. eexists. reflexivity.
Qed.

Lemma read_cached_ok (self : WaveBank) (net sta loc chan : param)
    (st en : option float) (kw : kwargs) (w : World) :
  exists df w', read_cached self net sta loc chan st en kw w = (Ok df, w').
Proof.
  destruct (index_cache_ok self st en buffer kw w) as (index & w' & E).
  unfold read_cached, bind. rewrite E. eexists. eexists. reflexivity.
Qed.

Lemma leb_not_bad (st en : option float) :
  match st, en with
  | Some s, Some e => PrimFloat.leb s e = true
  | _, _ => True
  end ->
  bad_times st en = false.
Proof.
  destruct st as [s | ], en as [e | ]; cbn; try reflexivity.
  apply leb_ltb_false.
Qed.

(** C4: a query with [starttime > endtime] raises the error of a malformed
    query and leaves the world as it was, the record of accesses included,
    so that the index file was not touched; a query with
    [starttime <= endtime], or without one of the two bounds, never raises
    that error.  (The source raises Python's [ValueError] for what the
    specification calls a ValidationError.) *)
Theorem read_index_validation (self : WaveBank) (net sta loc chan : param)
    (kw : kwargs) (w : World) :
  (forall s e, PrimFloat.ltb e s = true ->
     read_index self net sta loc chan (Some s) (Some e) kw w
     = (Raise (ValueError "starttime cannot be greater than endtime"), w))
  /\ (forall st en,
        match st, en with
        | Some s, Some e => PrimFloat.leb s e = true
        | _, _ => True
        end ->
        forall msg,
          fst (read_index self net sta loc chan st en kw w)
          <> Raise (ValueError msg)).
Proof.
  split.
  - intros s e H. rewrite read_index_unfold. cbn [bad_times]. rewrite H.
    reflexivity.
  - intros st en H msg. rewrite read_index_unfold, (leb_not_bad _ _ H).
    destruct (has_index w).
    + destruct (read_cached_ok self net sta loc chan st en kw
                  (logged [StoreExists; StoreExists] w)) as (df & w' & E).
      rewrite E. discriminate.
    + destruct (update_index_cases self (logged [StoreExists] w))
        as (w1 & _ & _ & _ & [E | (x & E & F & _)]); rewrite E.
      * destruct (has_index w1); [ | discriminate ].
        destruct (read_cached_ok self net sta loc chan st en kw
                    (logged [StoreExists] w1)) as (df & w' & E').
        rewrite E'. discriminate.
      * destruct x; cbn in F; try contradiction; discriminate.
Qed.

(** C8: on a bank with an index file whose cache is coherent, a query with
    two numeric bounds returns exactly the rows of the index that pass the
    four code filters and overlap the window widened by the buffer of
    10.111 seconds on both sides; nothing narrows the result to the window
    asked for, so a row that overlaps the widened window is returned even
    when it lies outside the requested one. *)
Theorem read_index_padded_window (self : WaveBank)
    (net sta loc chan : param) (s e : float) (kw : kwargs) (w : World)
    (i : IndexFile) :
  index_file w = Some i -> coherent w -> PrimFloat.ltb e s = false ->
  fst (read_index self net sta loc chan (Some s) (Some e) kw w)
  = Ok (mkDF (kw_columns kw)
          (filter (fun r =>
                     negb (PrimFloat.ltb (endtime r) (s - buffer)
                           || PrimFloat.ltb (e + buffer) (starttime r))
                     && row_passes net sta loc chan r)
             (index_node i)))
  /\ (forall r, In r (index_node i) ->
        row_passes net sta loc chan r = true ->
        overlaps (s - buffer) (e + buffer) r = true ->
        exists df,
          fst (read_index self net sta loc chan (Some s) (Some e) kw w)
          = Ok df /\ In r (df_rows df)).
Proof.
  intros Hi C Hb.
  destruct (read_index_indexed self net sta loc chan (Some s) (Some e) kw
              Hi C Hb) as (w' & E & _).
  rewrite E. cbn [fst padded_lo padded_hi]. split; [ reflexivity | ].
  intros r Hin Hp Ho. eexists. split; [ reflexivity | ].
  cbn [df_rows]. apply filter_In. split; [ exact Hin | ].
  rewrite Ho, Hp. reflexivity.
Qed.

(** ** The mask of a bulk window, row by row *)

Lemma fold_orb_existsb {A : Type} (g : A -> bool) (l : list A) (acc : bool) :
  fold_left orb (map g l) acc = acc || existsb g l.
Proof.
  revert acc. induction l as [ | x l IH]; intros acc; cbn.
  - rewrite orb_false_r. reflexivity.
  - rewrite IH, orb_assoc. reflexivity.
Qed.

Lemma fold_logical_or {A B : Type} (g : B -> A -> bool) (bs : list B)
    (l : list A) (acc : A -> bool) :
  fold_left logical_or (map (fun b => map (g b) l) bs) (map acc l)
  = map (fun r => acc r || existsb (fun b => g b r) bs) l.
Proof.
  revert acc. induction bs as [ | b bs IH]; intros acc; cbn.
  - apply map_ext. intros r. rewrite orb_false_r. reflexivity.
  - rewrite logical_or_map, IH. apply map_ext. intros r.
    rewrite orb_assoc. reflexivity.
Qed.

Lemma any_axis0_map {A B : Type} (g : B -> A -> bool) (bs : list B)
    (l : list A) :
  any_axis0 (List.length l) (map (fun b => map (g b) l) bs)
  = map (fun r => existsb (fun b => g b r) bs) l.
Proof.
  unfold any_axis0. rewrite repeat_map. rewrite fold_logical_or.
  reflexivity.
Qed.

Lemma existsb_map {A B : Type} (f : B -> bool) (g : A -> B) (l : list A) :
  existsb f (map g l) = existsb (fun x => f (g x)) l.
Proof.
  induction l as [ | x l IH]; cbn; [ | rewrite IH ]; reflexivity.
Qed.

Lemma select_negb {A : Type} (f : A -> bool) (l : list A) :
  select l (map negb (map f l)) = filter (fun x => negb (f x)) l.
Proof. rewrite map_map. apply select_map. Qed.

Lemma func_mask_rowwise (time : float * float) (ind : list IndexRow)
    (df : list BulkRequest) :
  let group := filter (in_window time) df in
  _func_mask time ind df
  = map (fun r =>
           wild_ok (filter uses_wildcard group) r
           && exact_ok (filter (fun b => negb (uses_wildcard b)) group) r)
      ind.
Proof.
  intros group. unfold _func_mask.
  change (filter _ df) with group.
  assert (Hm : any_axis0 (List.length group)
                 (map (fun x => _column_contains (map (b_code x) group)
                                  match_chars) NSLC)
               = map uses_wildcard group).
  { unfold _column_contains.
    rewrite (map_ext
               (fun x => map (fun v => existsb (fun m => Py.contains m v)
                                         match_chars)
                           (map (b_code x) group))
               (fun x => map (fun b => existsb
                                         (fun m => Py.contains m (b_code x b))
                                         match_chars) group))
      by (intros x; apply map_map).
    rewrite (any_axis0_map
               (fun x b => existsb (fun m => Py.contains m (b_code x b))
                             match_chars)).
    reflexivity. }
  rewrite Hm. rewrite select_map, select_negb. rewrite ones_map.
  set (wild := filter uses_wildcard group).
  set (exact := filter (fun b => negb (uses_wildcard b)) group).
  assert (Hw : match wild with
               | [] => map (fun _ : IndexRow => true) ind
               | _ :: _ =>
                   logical_and (map (fun _ : IndexRow => true) ind)
                     (any_axis0 (List.length ind)
                        (map (fun b =>
                                filter_index ind (PStr (b_network b))
                                  (PStr (b_station b)) (PStr (b_location b))
                                  (PStr (b_channel b)) None None) wild))
               end
               = map (wild_ok wild) ind).
  { destruct wild as [ | b0 wild0] eqn:E; [ reflexivity | ].
    rewrite <- E.
    rewrite (map_ext
               (fun b => filter_index ind (PStr (b_network b))
                           (PStr (b_station b)) (PStr (b_location b))
                           (PStr (b_channel b)) None None)
               (fun b => map (request_passes b) ind))
      by (intros b; apply filter_index_rowwise).
    rewrite any_axis0_map, logical_and_map. apply map_ext. intros r.
    rewrite E. reflexivity. }
  rewrite Hw.
  destruct exact as [ | b0 exact0] eqn:E.
  - apply map_ext. intros r. rewrite andb_true_r. reflexivity.
  - rewrite <- E. unfold _get_nslc. rewrite map_map, logical_and_map.
    apply map_ext. intros r. f_equal. unfold isin. rewrite existsb_map.
    rewrite E. reflexivity.
Qed.

Lemma func_mask_single (ind : list IndexRow) (b : BulkRequest) :
  PrimFloat.leb (utc1 b) (utc2 b) = true ->
  _func_mask (utc1 b, utc2 b) ind [b]
  = if uses_wildcard b
    then map (request_passes b) ind
    else map (fun r => String.eqb (nslc_id row_cell r) (nslc_id b_cell b)) ind.
Proof.
  intros H. apply leb_eqb_refl in H. destruct H as [H1 H2].
  rewrite func_mask_rowwise. cbn [filter]. unfold in_window, t1, t2.
  cbn [fst snd]. rewrite H1, H2. cbn [andb filter].
  destruct (uses_wildcard b); cbn [negb wild_ok exact_ok existsb];
    apply map_ext; intros r.
  - rewrite orb_false_r, andb_true_r. reflexivity.
  - rewrite orb_false_r. reflexivity.
Qed.

(** ** Frames that hold [None] *)

Lemma object_zip_map {A : Type}
    (f : option bool -> option bool -> option bool)
    (g h : A -> option bool) (l : list A) :
  object_zip f (map g l) (map h l) = map (fun x => f (g x) (h x)) l.
Proof.
  induction l as [ | x l IH]; cbn; [ | rewrite IH ]; reflexivity.
Qed.

Lemma fold_object_or {A B : Type} (g : B -> A -> option bool) (bs : list B)
    (l : list A) (acc : A -> option bool) :
  fold_left (object_zip py_or) (map (fun b => map (g b) l) bs) (map acc l)
  = map (fun r => fold_left py_or (map (fun b => g b r) bs) (acc r)) l.
Proof.
  revert acc. induction bs as [ | b bs IH]; intros acc; cbn;
    [ reflexivity | ].
  rewrite object_zip_map, IH. reflexivity.
Qed.

Lemma object_any_map {A B : Type} (g : B -> A -> option bool) (bs : list B)
    (l : list A) :
  object_any (List.length l) (map (fun b => map (g b) l) bs)
  = map (fun r => fold_left py_or (map (fun b => g b r) bs) (Some false)) l.
Proof.
  unfold object_any. rewrite repeat_map. apply fold_object_or.
Qed.

Lemma fold_py_or_some {B : Type} (h : B -> bool) (l : list B) (acc : bool) :
  fold_left py_or (map (fun x => Some (h x)) l) (Some acc)
  = Some (acc || existsb h l).
Proof.
  revert acc. induction l as [ | x l IH]; intros acc; cbn.
  - rewrite orb_false_r. reflexivity.
  - destruct acc; cbn [py_or]; rewrite IH; [ reflexivity | ].
    cbn [orb]. reflexivity.
Qed.

Lemma getitem_mask_some {A : Type} (f : A -> bool) (l : list A) :
  getitem_mask (map (fun x => Some (f x)) l) = Ok (map f l).
Proof.
  unfold getitem_mask. rewrite existsb_map, map_map.
  replace (existsb (fun x => is_null (Some (f x))) l) with false;
    [ reflexivity | ].
  induction l as [ | x l IH]; cbn; [ reflexivity | exact IH ].
Qed.

Lemma select_map_map {A B : Type} (h : A -> B) (f : A -> bool) (l : list A) :
  select (map h l) (map f l) = map h (filter f l).
Proof.
  induction l as [ | x l IH]; cbn; [ reflexivity | ].
  rewrite IH. destruct (f x); reflexivity.
Qed.

Lemma filter_map_swap {A B : Type} (h : A -> B) (f : B -> bool)
    (l : list A) :
  filter f (map h l) = map h (filter (fun x => f (h x)) l).
Proof.
  induction l as [ | x l IH]; cbn; [ reflexivity | ].
  rewrite IH. destruct (f (h x)); reflexivity.
Qed.

Lemma match_ar_rowwise (group : list RequestRow) :
  object_any (List.length group)
    (map (fun x =>
            _column_contains_cells (map (fun b => cell x (r_codes b)) group)
              match_chars) NSLC)
  = map (fun b =>
           fold_left py_or
             (map (fun x =>
                     option_map
                       (fun v => existsb (fun m => Py.contains m v)
                                   match_chars)
                       (cell x (r_codes b))) NSLC)
             (Some false))
      group.
Proof.
  unfold _column_contains_cells.
  rewrite (map_ext
             (fun x => map (option_map
                              (fun v => existsb (fun m => Py.contains m v)
                                          match_chars))
                         (map (fun b => cell x (r_codes b)) group))
             (fun x => map (fun b => option_map
                                       (fun v => existsb
                                                   (fun m => Py.contains m v)
                                                   match_chars)
                                       (cell x (r_codes b))) group))
    by (intros x; apply map_map).
  apply (object_any_map
           (fun x b => option_map
                         (fun v => existsb (fun m => Py.contains m v)
                                     match_chars)
                         (cell x (r_codes b)))).
Qed.

Lemma exact_row_uses (b : RequestRow) :
  exact_row b = true ->
  fold_left py_or
    (map (fun x =>
            option_map
              (fun v => existsb (fun m => Py.contains m v) match_chars)
              (cell x (r_codes b))) NSLC)
    (Some false)
  = Some false
  /\ existsb (fun x => is_null (cell x (r_codes b))) NSLC = false.
Proof.
  unfold exact_row, NSLC. cbn [forallb map existsb fold_left cell].
  destruct (c_network (r_codes b)) as [n | ]; [ | discriminate ].
  destruct (c_station (r_codes b)) as [s | ];
    [ | rewrite andb_false_r; discriminate ].
  destruct (c_location (r_codes b)) as [l | ];
    [ | rewrite !andb_false_r; discriminate ].
  destruct (c_channel (r_codes b)) as [c | ];
    [ | rewrite !andb_false_r; discriminate ].
  cbn [option_map is_null orb].
  intros H. rewrite andb_true_r in H.
  apply andb_true_iff in H. destruct H as [H1 H].
  apply andb_true_iff in H. destruct H as [H2 H].
  apply andb_true_iff in H. destruct H as [H3 H4].
  apply negb_true_iff in H1, H2, H3, H4.
  rewrite H1, H2, H3, H4. split; reflexivity.
Qed.

Lemma select_none {A : Type} (l : list A) :
  select l (map (fun _ => false) l) = [].
Proof. induction l as [ | x l IH]; cbn; [ reflexivity | exact IH ]. Qed.

Lemma existsb_none {A : Type} (f : A -> bool) (l : list A) :
  (forall x, In x l -> f x = false) -> existsb f l = false.
Proof.
  induction l as [ | x l IH]; cbn; intros H; [ reflexivity | ].
  rewrite (H x (or_introl eq_refl)), IH; [ reflexivity | ].
  intros y Hy. apply H. right. exact Hy.
Qed.

Lemma func_cells_exact (time : float * float) (ind : list CodeRow)
    (df : list RequestRow) :
  let group := filter (in_group time) df in
  group <> [] -> forallb exact_row group = true ->
  _func_cells time ind df
  = Ok (map (fun r =>
               existsb (fun b => String.eqb (nslc_id cell r)
                                   (nslc_id cell (r_codes b))) group)
          ind).
Proof.
  intros group Hne Hex. unfold _func_cells.
  change (filter _ df) with group.
  assert (Hall : forall b, In b group -> exact_row b = true).
  { intros b Hb. exact (proj1 (forallb_forall _ _) Hex b Hb). }
  rewrite match_ar_rowwise.
  rewrite (map_ext_in _ (fun _ => Some false))
    by (intros b Hb; apply (exact_row_uses b (Hall b Hb))).
  rewrite (getitem_mask_some (fun _ => false)).
  rewrite (existsb_none _ group)
    by (intros b Hb; apply (exact_row_uses b (Hall b Hb))).
  rewrite select_none, map_map.
  change (map (fun x : RequestRow => negb false) group)
    with (map (fun _ : RequestRow => true) group).
  rewrite (select_all group).
  destruct group as [ | b0 rest] eqn:E; [ contradiction | ].
  rewrite <- E. unfold _get_nslc. rewrite !map_map, repeat_map.
  rewrite (object_zip_map py_and). cbn [py_and].
  rewrite (getitem_mask_some _ ind).
  apply f_equal. apply map_ext. intros r.
  unfold isin. rewrite existsb_map. reflexivity.
Qed.

Lemma empty_ish_replaced (v : option string) :
  empty_ish v -> replace_empty v = "".
Proof. intros [-> | [-> | ->]]; reflexivity. Qed.

Lemma filter_index_cells_full (ind : list IndexRow) (b : BulkRequest) :
  filter_index_cells (map codes_of ind) (Some (b_network b))
    (Some (b_station b)) (Some (b_location b)) (Some (b_channel b))
  = map (fun r => Some (request_passes b r)) ind.
Proof.
  unfold filter_index_cells. cbn [fold_left snd fst].
  rewrite length_map, repeat_map, !map_map.
  rewrite !(object_zip_map py_and). apply map_ext. intros r.
  unfold request_passes, row_passes, param_ok, codes_of.
  cbn [cell c_network c_station c_location c_channel option_map code].
  destruct (Fnmatch.re_match (get_regex (b_network b)) (network r)),
    (Fnmatch.re_match (get_regex (b_station b)) (station r)),
    (Fnmatch.re_match (get_regex (b_location b)) (location r)),
    (Fnmatch.re_match (get_regex (b_channel b)) (channel r)); reflexivity.
Qed.

Lemma func_cells_agree (time : float * float) (ind : list IndexRow)
    (df : list BulkRequest) :
  _func_cells time (map codes_of ind) (map request_row df)
  = Ok (_func_mask time ind df).
Proof.
  rewrite func_mask_rowwise. cbv zeta. unfold _func_cells.
  rewrite (filter_map_swap request_row).
  change (filter (fun x => PrimFloat.eqb (r_t1 (request_row x)) (fst time)
                           && PrimFloat.eqb (r_t2 (request_row x)) (snd time))
            df)
    with (filter (in_window time) df).
  set (group := filter (in_window time) df).
  rewrite match_ar_rowwise, map_map.
  rewrite (map_ext _ (fun b => Some (uses_wildcard b))).
  2:{ intros b. unfold request_row. cbn [r_codes]. unfold NSLC.
      cbn [map cell c_network c_station c_location c_channel option_map].
      unfold uses_wildcard, NSLC. cbn [existsb b_code fold_left].
      destruct (existsb (fun m => Py.contains m (b_network b)) match_chars),
        (existsb (fun m => Py.contains m (b_station b)) match_chars),
        (existsb (fun m => Py.contains m (b_location b)) match_chars),
        (existsb (fun m => Py.contains m (b_channel b)) match_chars);
        reflexivity. }
  rewrite (getitem_mask_some uses_wildcard).
  rewrite existsb_map.
  rewrite (existsb_none _ group) by (intros b _; reflexivity).
  rewrite select_map_map, map_map, select_map_map.
  set (wild := filter uses_wildcard group).
  set (exact := filter (fun b => negb (uses_wildcard b)) group).
  rewrite length_map, repeat_map.
  assert (Hw : match map request_row wild with
               | [] => map (fun _ : IndexRow => Some true) ind
               | _ :: _ =>
                   object_zip py_and (map (fun _ : IndexRow => Some true) ind)
                     (object_any (List.length ind)
                        (map (fun b =>
                                filter_index_cells (map codes_of ind)
                                  (c_network (r_codes b))
                                  (c_station (r_codes b))
                                  (c_location (r_codes b))
                                  (c_channel (r_codes b)))
                           (map request_row wild)))
               end
               = map (fun r => Some (wild_ok wild r)) ind).
  { destruct wild as [ | b0 wild0] eqn:E; [ reflexivity | ].
    rewrite <- E. rewrite map_map.
    rewrite (map_ext _ (fun b => map (fun r => Some (request_passes b r)) ind))
      by (intros b; apply filter_index_cells_full).
    rewrite (object_any_map (fun b r => Some (request_passes b r))).
    rewrite (object_zip_map py_and). cbn [py_and].
    rewrite E at 1. cbn [map]. apply map_ext. intros r.
    rewrite (fold_py_or_some (fun b => request_passes b r)).
    rewrite E. reflexivity. }
  rewrite Hw.
  destruct exact as [ | b0 exact0] eqn:E.
  - cbn [map]. rewrite (getitem_mask_some _ ind). apply f_equal.
    apply map_ext. intros r. rewrite andb_true_r. reflexivity.
  - rewrite <- E. rewrite E at 1. cbn [map].
    unfold _get_nslc. rewrite !map_map.
    rewrite (object_zip_map py_and).
    rewrite (map_ext _ (fun r => Some (wild_ok wild r && exact_ok exact r))).
    + apply getitem_mask_some.
    + intros r.
      assert (K : exact_ok exact r
                  = existsb (fun b => String.eqb (nslc_id row_cell r)
                                        (nslc_id b_cell b)) exact)
        by (rewrite E; reflexivity).
      rewrite K. unfold isin. rewrite existsb_map.
      destruct (wild_ok wild r); reflexivity.
Qed.

(** C9: the mask of [get_waveforms_bulk] for one time window, on frames
    whose code cells hold a string or [None].  When the requests of the
    window all have four strings without wildcard characters, a row of the
    index is kept exactly when its seed id is the seed id of one of them
    after [None] and [--] were replaced by the empty string on both sides;
    so a row and a request are matched when each code is the same or stands
    for the empty code ([None], [--] or the empty string) in both.  A [None]
    in a request never gets as far: the window that holds such a request
    raises.  On frames without [None] the mask is the one of [_func_mask],
    which resolves a request with a wildcard character by [filter_index]
    on the codes as they are; the single-request path does the same, where
    the pattern [--] does not pass an empty location nor the empty pattern
    a location [--]. *)
Theorem bulk_exact_codes_normalised (time : float * float)
    (ind : list CodeRow) (df : list RequestRow) :
  let group := filter (in_group time) df in
  (group <> [] -> forallb exact_row group = true ->
     _func_cells time ind df
     = Ok (map (fun r =>
                  existsb (fun b => String.eqb (nslc_id cell r)
                                      (nslc_id cell (r_codes b))) group)
             ind)
     /\ forall r b, In r ind -> In b group ->
          (forall k, cell k r = cell k (r_codes b)
                     \/ (empty_ish (cell k r)
                         /\ empty_ish (cell k (r_codes b)))) ->
          exists mask, _func_cells time ind df = Ok mask
                       /\ In r (select ind mask))
  /\ (existsb has_null group = true ->
      exists e, _func_cells time ind df = Raise e)
  /\ (forall ind0 df0,
        _func_cells time (map codes_of ind0) (map request_row df0)
        = Ok (_func_mask time ind0 df0))
  /\ (forall ind0 b, in_window time b = true -> uses_wildcard b = true ->
        _func_mask time ind0 [b]
        = filter_index ind0 (PStr (b_network b)) (PStr (b_station b))
            (PStr (b_location b)) (PStr (b_channel b)) None None)
  /\ (forall r, location r = "" ->
        filter_index [r] PNone PNone (PStr "--") PNone None None = [false])
  /\ (forall r, location r = "--" ->
        filter_index [r] PNone PNone (PStr "") PNone None None = [false]).
Proof.
  intros group.
  split; [ | split; [ | split; [ | split; [ | split ]]]].
  - intros Hne Hex. pose proof (func_cells_exact time ind df Hne Hex) as E.
    split; [ exact E | ].
    intros r b Hr Hb Hk. eexists. split; [ exact E | ].
    rewrite select_map. apply filter_In. split; [ exact Hr | ].
    apply existsb_exists. exists b. split; [ exact Hb | ].
    apply String.eqb_eq. unfold nslc_id.
    assert (K : forall k, replace_empty (cell k r)
                          = replace_empty (cell k (r_codes b))).
    { intros k. destruct (Hk k) as [-> | [H1 H2]]; [ reflexivity | ].
      rewrite (empty_ish_replaced H1), (empty_ish_replaced H2).
      reflexivity. }
    rewrite (K Network), (K Station), (K Location), (K Channel).
    reflexivity.
  - intros Hn. unfold _func_cells. change (filter _ df) with group.
    destruct (getitem_mask _) as [m | e]; [ | exists e; reflexivity ].
    unfold has_null in Hn. rewrite Hn. eexists. reflexivity.
  - intros ind0 df0. apply func_cells_agree.
  - intros ind0 b Hb U. rewrite func_mask_rowwise. cbn [filter].
    rewrite Hb. cbn [filter]. rewrite U. cbn [negb wild_ok exact_ok existsb].
    unfold request_passes. rewrite filter_index_rowwise.
    apply map_ext. intros r. rewrite orb_false_r, andb_true_r. reflexivity.
  - intros r Hr. rewrite filter_index_rowwise. cbn [map]. unfold row_passes.
    cbn [param_ok code]. rewrite Hr. reflexivity.
  - intros r Hr. rewrite filter_index_rowwise. cbn [map]. unfold row_passes.
    cbn [param_ok code]. rewrite Hr. reflexivity.
Qed.

(** ** Seed ids and their codes *)

Lemma prefix_empty (s : string) : String.prefix "" s = true.
Proof. destruct s; reflexivity. Qed.

Lemma contains_single (c : ascii) (s : string) :
  Py.contains (String c "") s = has_char c s.
Proof.
  induction s as [ | d s IH]; [ reflexivity | ].
  cbn. rewrite IH. destruct (ascii_dec c d) as [E | E].
  - subst. rewrite prefix_empty, Ascii.eqb_refl. reflexivity.
  - apply Ascii.eqb_neq in E. rewrite E. reflexivity.
Qed.

Lemma plain_has_char (s : string) :
  has_char "*" s = false -> has_char "?" s = false ->
  has_char "[" s = false -> plain s = true.
Proof.
  induction s as [ | c s IH]; cbn [has_char plain]; [ reflexivity | ].
  intros H1 H2 H3.
  apply orb_false_iff in H1, H2, H3.
  destruct H1 as [H1 H1'], H2 as [H2 H2'], H3 as [H3 H3'].
  rewrite (Ascii.eqb_sym c "*"), (Ascii.eqb_sym c "?"), (Ascii.eqb_sym c "[").
  rewrite H1, H2, H3, (IH H1' H2' H3'). reflexivity.
Qed.

Lemma exact_codes_plain (b : BulkRequest) (k : nslc_key) :
  uses_wildcard b = false -> plain (b_code k b) = true.
Proof.
  unfold uses_wildcard, NSLC, match_chars. cbn [existsb].
  rewrite !contains_single, !orb_false_r. intros H.
  repeat match type of H with
    | (_ || _) = false => apply orb_false_iff in H; destruct H as [? H]
    end.
  repeat match goal with
    | H : (_ || _) = false |- _ =>
        apply orb_false_iff in H; destruct H as [? H]
    end.
  destruct k; cbn [b_code]; apply plain_has_char; assumption.
Qed.

Lemma count_char_app (c : ascii) (a b : string) :
  count_char c (a ++ b) = count_char c a + count_char c b.
Proof.
  induction a as [ | d a IH]; cbn; [ reflexivity | ].
  rewrite IH. lia.
Qed.

Lemma has_char_count (c : ascii) (s : string) :
  has_char c s = false <-> count_char c s = 0.
Proof.
  induction s as [ | d s IH]; cbn; [ split; reflexivity | ].
  destruct (Ascii.eqb c d); cbn; [ split; [ discriminate | lia ] | exact IH ].
Qed.

Lemma dot_split (a1 a2 r1 r2 : string) :
  has_char "." a1 = false -> has_char "." a2 = false ->
  a1 ++ String "." r1 = a2 ++ String "." r2 -> a1 = a2 /\ r1 = r2.
Proof.
  revert a2. induction a1 as [ | c a1 IH]; intros [ | d a2]; cbn.
  - intros _ _ E. inversion E. split; reflexivity.
  - intros _ H E. inversion E. subst d. cbn in H. discriminate.
  - intros H _ E. inversion E. subst c. cbn in H. discriminate.
  - intros H1 H2 E. inversion E. subst d.
    apply orb_false_iff in H1, H2.
    destruct (IH a2 (proj2 H1) (proj2 H2) H3) as [-> ->].
    split; reflexivity.
Qed.

Lemma seed_eq_codes (n1 s1 l1 c1 n2 s2 l2 c2 : string) :
  has_char "." n2 = false -> has_char "." s2 = false ->
  has_char "." l2 = false -> has_char "." c2 = false ->
  String.eqb (n1 ++ "." ++ s1 ++ "." ++ l1 ++ "." ++ c1)
    (n2 ++ "." ++ s2 ++ "." ++ l2 ++ "." ++ c2)
  = String.eqb n1 n2 && String.eqb s1 s2 && String.eqb l1 l2
    && String.eqb c1 c2.
Proof.
  intros Hn Hs Hl Hc.
  destruct (String.eqb_spec (n1 ++ "." ++ s1 ++ "." ++ l1 ++ "." ++ c1)
              (n2 ++ "." ++ s2 ++ "." ++ l2 ++ "." ++ c2)) as [E | E].
  - symmetry. pose proof (f_equal (count_char ".") E) as K.
    rewrite !count_char_app in K. cbn [count_char Ascii.eqb] in K.
    apply has_char_count in Hn, Hs, Hl, Hc.
    assert (K1 : count_char "." n1 = 0) by (cbn in K; lia).
    assert (K2 : count_char "." s1 = 0) by (cbn in K; lia).
    assert (K3 : count_char "." l1 = 0) by (cbn in K; lia).
    apply has_char_count in Hn, Hs, Hl, K1, K2, K3.
    cbn [append] in E.
    destruct (dot_split _ _ _ _ K1 Hn E) as [-> E1].
    destruct (dot_split _ _ _ _ K2 Hs E1) as [-> E2].
    destruct (dot_split _ _ _ _ K3 Hl E2) as [-> ->].
    rewrite !String.eqb_refl. reflexivity.
  - symmetry. apply not_true_is_false. intros H. apply E.
    apply andb_true_iff in H. destruct H as [H H4].
    apply andb_true_iff in H. destruct H as [H H3].
    apply andb_true_iff in H. destruct H as [H1 H2].
    apply String.eqb_eq in H1, H2, H3, H4. subst. reflexivity.
Qed.

Lemma norm_id (s : string) : s <> "--" -> norm s = s.
Proof.
  intros H. unfold norm. apply String.eqb_neq in H. rewrite H. reflexivity.
Qed.

(** For a request without wildcards, the two tests agree on rows and
    requests that hold no [--] code when the request's codes hold no dot. *)
Lemma exact_test_agrees (b : BulkRequest) (r : IndexRow) :
  uses_wildcard b = false ->
  (forall k, Py.contains "." (b_code k b) = false) ->
  (forall k, b_code k b <> "--") -> (forall k, code k r <> "--") ->
  String.eqb (nslc_id row_cell r) (nslc_id b_cell b) = request_passes b r.
Proof.
  intros U D Nb Nr. unfold nslc_id, row_cell, b_cell.
  cbn [replace_empty code b_code].
  pose proof (Nb Network) as Nb1. pose proof (Nb Station) as Nb2.
  pose proof (Nb Location) as Nb3. pose proof (Nb Channel) as Nb4.
  pose proof (Nr Network) as Nr1. pose proof (Nr Station) as Nr2.
  pose proof (Nr Location) as Nr3. pose proof (Nr Channel) as Nr4.
  cbn [code b_code] in *.
  apply String.eqb_neq in Nb1, Nb2, Nb3, Nb4, Nr1, Nr2, Nr3, Nr4.
  rewrite Nb1, Nb2, Nb3, Nb4, Nr1, Nr2, Nr3, Nr4.
  pose proof (D Network) as D1. pose proof (D Station) as D2.
  pose proof (D Location) as D3. pose proof (D Channel) as D4.
  rewrite contains_single in D1, D2, D3, D4. cbn [b_code] in *.
  rewrite (@seed_eq_codes _ _ _ _ _ _ _ _ D1 D2 D3 D4).
  unfold request_passes, row_passes. cbn [param_ok code].
  rewrite (@re_match_plain _ _ (@exact_codes_plain b Network U)).
  rewrite (@re_match_plain _ _ (@exact_codes_plain b Station U)).
  rewrite (@re_match_plain _ _ (@exact_codes_plain b Location U)).
  rewrite (@re_match_plain _ _ (@exact_codes_plain b Channel U)).
  reflexivity.
Qed.

Lemma bulk_resolve_single (self : WaveBank) (b : BulkRequest) (w : World)
    (i : IndexFile) :
  index_file w = Some i -> coherent w ->
  PrimFloat.leb (utc1 b) (utc2 b) = true ->
  fst (bulk_resolve self [b] None w)
  = Ok [((utc1 b, utc2 b),
         mkDF index_columns
           (filter (fun r =>
                      overlaps (utc1 b - buffer) (utc2 b + buffer) r
                      && if uses_wildcard b then request_passes b r
                         else String.eqb (nslc_id row_cell r)
                                (nslc_id b_cell b))
              (index_node i)))].
Proof.
  intros Hi C H. unfold bulk_resolve, bulk_index.
  cbn [map series_min series_max Py.min Py.max fold_left].
  unfold t1, t2, bind.
  destruct (read_index_indexed self PNone PNone PNone PNone
              (Some (utc1 b)) (Some (utc2 b)) None Hi C
              (leb_ltb_false H)) as (w' & E & _).
  rewrite E. unfold ret. cbn [fst unique_times fold_left insert_time map].
  unfold t1, t2. do 3 f_equal. unfold df_select. cbn [df_columns df_rows].
  f_equal. rewrite (func_mask_single _ b H).
  cbn [padded_lo padded_hi kw_columns].
  destruct (uses_wildcard b); rewrite select_map, filter_filter;
    apply filter_ext; intros r;
    unfold row_passes; cbn [param_ok]; rewrite !andb_true_r; reflexivity.
Qed.

(** C1 (amended): on a bank with an index file and a coherent cache, a
    request with start <= end resolves to the same index rows through
    [get_waveforms_bulk] with that one request as through [read_index] with
    the same codes and bounds, provided that the request bears a wildcard
    character, or that its codes hold no dot and neither its codes nor
    those of the index rows are [--]. *)
Theorem bulk_agrees_with_single_request (self : WaveBank) (b : BulkRequest)
    (w : World) (i : IndexFile) :
  index_file w = Some i -> coherent w ->
  PrimFloat.leb (utc1 b) (utc2 b) = true ->
  (uses_wildcard b = true
   \/ ((forall k, Py.contains "." (b_code k b) = false)
       /\ (forall k, b_code k b <> "--")
       /\ (forall r, In r (index_node i) -> forall k, code k r <> "--"))) ->
  exists df,
    fst (read_index self (PStr (b_network b)) (PStr (b_station b))
           (PStr (b_location b)) (PStr (b_channel b))
           (Some (utc1 b)) (Some (utc2 b)) None w) = Ok df
    /\ fst (bulk_resolve self [b] None w) = Ok [((utc1 b, utc2 b), df)].
Proof.
  intros Hi C H Hyp.
  destruct (read_index_indexed self (PStr (b_network b)) (PStr (b_station b))
              (PStr (b_location b)) (PStr (b_channel b))
              (Some (utc1 b)) (Some (utc2 b)) None Hi C
              (leb_ltb_false H)) as (w' & E & _).
  eexists. split; [ rewrite E; reflexivity | ].
  rewrite (bulk_resolve_single self b Hi C H).
  cbn [padded_lo padded_hi kw_columns]. do 4 f_equal.
  apply filter_ext_in. intros r Hin. f_equal.
  destruct (uses_wildcard b) eqn:U; [ reflexivity | ].
  destruct Hyp as [Hyp | (D & Nb & Nr)]; [ discriminate | ].
  apply exact_test_agrees; auto.
Qed.

Lemma map_m_map {A B C : Type} (f : B -> M C) (h : A -> B) (l : list A)
    (w : World) :
  map_m f (map h l) w = map_m (fun x => f (h x)) l w.
Proof.
  revert w. induction l as [ | x l IH]; intros w; [ reflexivity | ].
  cbn [map map_m]. unfold bind at 1 3.
  destruct (f (h x) w) as [[y | e] w1]; [ | reflexivity ].
  unfold bind. rewrite IH. reflexivity.
Qed.

(** [get_waveforms_bulk] loads exactly the frames of [bulk_resolve]. *)
Lemma get_waveforms_bulk_resolve (self : WaveBank) (b : BulkRequest)
    (bulk : list BulkRequest) (index : option DataFrame) (w : World) :
  get_waveforms_bulk self (b :: bulk) index w
  = (groups <- bulk_resolve self (b :: bulk) index ;;
     streams <- map_m (fun g => _index2stream self (snd g)
                                  (Some (Stamp (fst (fst g))))
                                  (Some (Stamp (snd (fst g))))
                                  false) groups ;;
     ret (List.concat streams)) w.
Proof.
  unfold get_waveforms_bulk, bulk_resolve. unfold bind at 1 3 4.
  destruct (bulk_index self (b :: bulk) index w) as [[ind | e] w1];
    [ | reflexivity ].
  unfold ret at 2. unfold bind. rewrite map_m_map. reflexivity.
Qed.

(** ** What the write path stores for a code *)

Lemma replace_char_absent (c : ascii) (s : string) :
  has_char c s = false -> Py.replace (String c "") "" s = s.
Proof.
  unfold Py.replace. induction s as [ | d s IH]; [ reflexivity | ].
  cbn [has_char Py.replace_from String.prefix]. intros H.
  apply orb_false_iff in H. destruct H as [Hd Hs].
  destruct (ascii_dec c d) as [E | E].
  - subst. rewrite Ascii.eqb_refl in Hd. discriminate.
  - rewrite (IH Hs). reflexivity.
Qed.

Lemma replace_char_removes (c : ascii) (s : string) :
  has_char c (Py.replace (String c "") "" s) = false.
Proof.
  unfold Py.replace. induction s as [ | d s IH]; [ reflexivity | ].
  cbn [Py.replace_from String.prefix].
  destruct (ascii_dec c d) as [E | E].
  - rewrite prefix_empty. cbn. exact IH.
  - cbn [has_char]. apply Ascii.eqb_neq in E. rewrite E, IH. reflexivity.
Qed.

Lemma replace_char_keeps_absent (c q : ascii) (s : string) :
  has_char c s = false ->
  has_char c (Py.replace (String q "") "" s) = false.
Proof.
  unfold Py.replace. induction s as [ | d s IH]; [ reflexivity | ].
  cbn [Py.replace_from String.prefix has_char]. intros H.
  apply orb_false_iff in H. destruct H as [Hd Hs].
  destruct (ascii_dec q d) as [E | E].
  - rewrite prefix_empty. cbn. exact (IH Hs).
  - cbn [has_char]. rewrite Hd, (IH Hs). reflexivity.
Qed.

(** A text code without the letter b and without a quote is stored as it
    is. *)
Lemma stored_code_clean (s : string) :
  has_char "b" s = false -> has_char "'" s = false ->
  stored_code (CStr s) = s.
Proof.
  intros Hb Hq. unfold stored_code, astype_str.
  rewrite (replace_char_absent _ _ Hb). apply replace_char_absent, Hq.
Qed.

(** No stored code holds the letter b: a code that holds one is stored as a
    different string. *)
Lemma stored_code_loses_b (c : Cell) :
  has_char "b" (stored_code c) = false.
Proof.
  unfold stored_code. apply replace_char_keeps_absent, replace_char_removes.
Qed.

Lemma stored_code_changed (s : string) :
  has_char "b" s = true -> stored_code (CStr s) <> s.
Proof.
  intros H E. pose proof (stored_code_loses_b (CStr s)) as L.
  rewrite E in L. congruence.
Qed.

(** C2: what the code does with a station code that holds the letter b
    and no artefact of a byte string: [_write_update] on an empty bank
    stores the station [bob] as [o], while a byte string [b'TMU'] and the
    code [B1] are stored as [TMU] and [B1]. *)
Theorem write_update_strips_letter_b (self : WaveBank)
    (fs : list (string * WaveFile)) (t : float) :
  stored_code (CStr "bob") = "o"
  /\ stored_code (CBytes "TMU") = "TMU"
  /\ stored_code (CStr "B1") = "B1"
  /\ option_map index_node
       (index_file
          (snd (_write_update self
                  [mkSummary (CStr "UU") (CStr "bob") (CStr "01")
                     (CStr "HHZ") 0 1 "f.mseed"]
                  (mkWorld fs None [] t []))))
     = Some [mkRow "UU" "o" "01" "HHZ" 0 1
               (Py.replace (bank_path self) "" "f.mseed")].
Proof. repeat split. Qed.

(** ** Zero bounds in the assembly step *)

(** C10: [_polish_stream], and with it [_index2stream], takes a start or
    end time that is the number 0.0 (of either sign) as if none was given:
    the stream is trimmed from the earliest start, or to the latest end,
    found in its traces.  Any other number is the bound trimmed to, and so
    is a bound given as a time object, whatever its timestamp: the time
    object of the epoch is not taken for an absent bound. *)
Theorem polish_stream_zero_is_absent (self : WaveBank) (x : Trace)
    (rest : Stream) (bound : option pytime) (attach_response : bool)
    (index : DataFrame) (w : World) (z : float) :
  PrimFloat.eqb z 0 = true ->
  _polish_stream (x :: rest) (Some (Stamp z)) bound attach_response
  = _polish_stream (x :: rest) None bound attach_response
  /\ _polish_stream (x :: rest) bound (Some (Stamp z)) attach_response
     = _polish_stream (x :: rest) bound None attach_response
  /\ _polish_stream (x :: rest) None None false
     = st_sort
         (let trimmed :=
            st_trim (Py.min (tr_starttime x) (map tr_starttime rest))
              (Py.max (tr_endtime x) (map tr_endtime rest)) (x :: rest) in
          match st_merge trimmed with
          | Some merged => merged
          | None => trimmed
          end)
  /\ (forall v, PrimFloat.eqb v 0 = false ->
        _polish_stream (x :: rest) (Some (Stamp v)) (Some (Stamp z)) false
        = st_sort
            (let trimmed :=
               st_trim (UTCDateTime v)
                 (Py.max (tr_endtime x) (map tr_endtime rest)) (x :: rest) in
             match st_merge trimmed with
             | Some merged => merged
             | None => trimmed
             end))
  /\ (forall t,
        _polish_stream (x :: rest) (Some (TimeObj t)) (Some (Stamp z)) false
        = st_sort
            (let trimmed :=
               st_trim t (Py.max (tr_endtime x) (map tr_endtime rest))
                 (x :: rest) in
             match st_merge trimmed with
             | Some merged => merged
             | None => trimmed
             end))
  /\ (forall t,
        _polish_stream (x :: rest) (Some (Stamp z)) (Some (TimeObj t)) false
        = st_sort
            (let trimmed :=
               st_trim (Py.min (tr_starttime x) (map tr_starttime rest)) t
                 (x :: rest) in
             match st_merge trimmed with
             | Some merged => merged
             | None => trimmed
             end))
  /\ _index2stream self index (Some (Stamp z)) bound attach_response w
     = _index2stream self index None bound attach_response w
  /\ _index2stream self index bound (Some (Stamp z)) attach_response w
     = _index2stream self index bound None attach_response w.
Proof.
  intros Hz.
  assert (P1 : forall st b a,
             _polish_stream st (Some (Stamp z)) b a = _polish_stream st None b a).
  { intros [ | y st] b a; [ reflexivity | ].
    unfold _polish_stream, time_or_else, time_truthy, Py.truthy.
    rewrite Hz. reflexivity. }
  assert (P2 : forall st b a,
             _polish_stream st b (Some (Stamp z)) a = _polish_stream st b None a).
  { intros [ | y st] b a; [ reflexivity | ].
    unfold _polish_stream, time_or_else, time_truthy, Py.truthy.
    rewrite Hz. reflexivity. }
  split; [ apply P1 | ]. split; [ apply P2 | ]. split; [ reflexivity | ].
  split.
  { intros v Hv. rewrite P2.
    unfold _polish_stream, time_or_else, time_truthy, Py.truthy.
    rewrite Hv. reflexivity. }
  split; [ intros t; rewrite P2; reflexivity | ].
  split; [ intros t; rewrite P1; reflexivity | ].
  split.
  - unfold _index2stream, bind.
    destruct (read_streams _ w) as [[stt | e] w1]; [ | reflexivity ].
    unfold ret. rewrite P1. reflexivity.
  - unfold _index2stream, bind.
    destruct (read_streams _ w) as [[stt | e] w1]; [ | reflexivity ].
    unfold ret. rewrite P2. reflexivity.
Qed.

(** ** The write path *)

Lemma lookup_store_same (p : string) (f : WaveFile)
    (fs : list (string * WaveFile)) :
  lookup_file p (store_file p f fs) = Some f.
Proof.
  induction fs as [ | [q g] fs IH]; cbn.
  - rewrite String.eqb_refl. reflexivity.
  - destruct (String.eqb p q) eqn:E; cbn; rewrite E; [ reflexivity | exact IH ].
Qed.

Lemma lookup_store_other (p q : string) (f : WaveFile)
    (fs : list (string * WaveFile)) :
  p <> q -> lookup_file q (store_file p f fs) = lookup_file q fs.
Proof.
  intros N. induction fs as [ | [q' g] fs IH]; cbn.
  - apply String.eqb_neq in N. rewrite String.eqb_sym, N. reflexivity.
  - destruct (String.eqb p q') eqn:E; cbn.
    + apply String.eqb_eq in E. subst q'.
      apply String.eqb_neq in N. rewrite String.eqb_sym, N. reflexivity.
    + rewrite IH. reflexivity.
Qed.

Lemma put_one_run (p : string) (trs : list Trace) (w : World) :
  put_one (p, trs) w
  = match lookup_file p (files w) with
    | Some f =>
        match contents f with
        | Some st =>
            match st_merge (trs ++ st)%list with
            | Some m => (Ok tt, written p m [FileWrite p; FileRead p] w)
            | None => (Raise MergeError, logged [FileRead p] w)
            end
        | None => (Raise (ReadError p), logged [FileRead p] w)
        end
    | None =>
        match st_merge trs with
        | Some m => (Ok tt, written p m [FileWrite p] w)
        | None => (Raise MergeError, w)
        end
    end.
Proof.
  unfold put_one. cbn [fst snd]. unfold bind at 1, gets at 1.
  destruct (lookup_file p (files w)) as [f | ] eqn:L.
  - unfold bind at 1. unfold bind at 1. unfold obspy_read.
    unfold bind at 1, emit at 1, modify at 1. unfold bind at 1, gets at 1.
    cbn [files]. rewrite L. destruct f as [t [st | ]]; cbn [contents].
    + unfold ret at 1 2. destruct (st_merge (trs ++ st)%list); reflexivity.
    + reflexivity.
  - unfold bind at 1, ret at 1.
    destruct (st_merge trs); [ | destruct w ]; reflexivity.
Qed.

Lemma put_loop (items : list (string * list Trace)) :
  NoDup (map fst items) ->
  forall w r w',
    for_each items put_one w = (r, w') ->
    index_file w' = index_file w /\ cache w' = cache w /\ now w' = now w
    /\ (exists es, log w' = (es ++ log w)%list)
    /\ (forall q, ~ In q (map fst items) ->
          lookup_file q (files w') = lookup_file q (files w))
    /\ (forall p trs old,
          In (p, trs) items -> lookup_file p (files w) = Some old ->
          lookup_file p (files w') = Some old
          \/ merged_into old trs (now w) (lookup_file p (files w')))
    /\ (r = Ok tt ->
        forall p trs old,
          In (p, trs) items -> lookup_file p (files w) = Some old ->
          merged_into old trs (now w) (lookup_file p (files w'))
          /\ read_then_written p (log w')).
Proof.
  induction items as [ | [p0 trs0] items IH]; intros ND w r w' E.
  - cbn in E. inversion E; subst.
    split; [ reflexivity | ]. split; [ reflexivity | ].
    split; [ reflexivity | ]. split; [ exists []; reflexivity | ].
    split; [ reflexivity | ]. split; [ intros p trs old [] | ].
    intros _ p trs old [].
  - cbn [map fst] in ND. inversion ND as [ | ? ? Hnotin ND']; subst.
    cbn [for_each] in E. unfold bind in E. rewrite put_one_run in E.
    assert (Stop : forall e es,
               (Raise e, logged es w) = (r, w') ->
               index_file w' = index_file w /\ cache w' = cache w
               /\ now w' = now w
               /\ (exists es', log w' = (es' ++ log w)%list)
               /\ (forall q, ~ In q (map fst ((p0, trs0) :: items)) ->
                     lookup_file q (files w') = lookup_file q (files w))
               /\ (forall p trs old,
                     In (p, trs) ((p0, trs0) :: items) ->
                     lookup_file p (files w) = Some old ->
                     lookup_file p (files w') = Some old
                     \/ merged_into old trs (now w)
                          (lookup_file p (files w')))
               /\ (r = Ok tt ->
                   forall p trs old,
                     In (p, trs) ((p0, trs0) :: items) ->
                     lookup_file p (files w) = Some old ->
                     merged_into old trs (now w) (lookup_file p (files w'))
                     /\ read_then_written p (log w'))).
    { intros e es X. inversion X; subst. cbn.
      repeat split; try reflexivity.
      - exists es. reflexivity.
      - intros p trs old _ L. left. exact L.
      - discriminate.
      - discriminate. }
    assert (Go : forall m es,
               (forall old, lookup_file p0 (files w) = Some old ->
                  merged_into old trs0 (now w)
                    (Some (mkFile (now w) (Some m)))
                  /\ es = [FileWrite p0; FileRead p0]) ->
               for_each items put_one (written p0 m es w) = (r, w') ->
               index_file w' = index_file w /\ cache w' = cache w
               /\ now w' = now w
               /\ (exists es', log w' = (es' ++ log w)%list)
               /\ (forall q, ~ In q (map fst ((p0, trs0) :: items)) ->
                     lookup_file q (files w') = lookup_file q (files w))
               /\ (forall p trs old,
                     In (p, trs) ((p0, trs0) :: items) ->
                     lookup_file p (files w) = Some old ->
                     lookup_file p (files w') = Some old
                     \/ merged_into old trs (now w)
                          (lookup_file p (files w')))
               /\ (r = Ok tt ->
                   forall p trs old,
                     In (p, trs) ((p0, trs0) :: items) ->
                     lookup_file p (files w) = Some old ->
                     merged_into old trs (now w) (lookup_file p (files w'))
                     /\ read_then_written p (log w'))).
    { intros m es Hm X.
      destruct (IH ND' _ _ _ X) as (Hi & Hc & Hn & (es' & Hl) & Hq & Hp & Hr).
      cbn [written index_file cache now log files] in Hi, Hc, Hn, Hl, Hq, Hp, Hr.
      assert (Head : lookup_file p0 (files w')
                     = Some (mkFile (now w) (Some m))).
      { rewrite (Hq p0 Hnotin). apply lookup_store_same. }
      assert (Other : forall p, In p (map fst items) ->
                 lookup_file p
                   (store_file p0 (mkFile (now w) (Some m)) (files w))
                 = lookup_file p (files w)).
      { intros p Hin. apply lookup_store_other. intros ->. exact (Hnotin Hin). }
      split; [ exact Hi | ]. split; [ exact Hc | ]. split; [ exact Hn | ].
      split; [ exists (es' ++ es)%list; rewrite Hl, app_assoc; reflexivity | ].
      split.
      { intros q Hq'. cbn [map fst In] in Hq'.
        rewrite Hq by (intros Y; apply Hq'; right; exact Y).
        apply lookup_store_other. intros ->. apply Hq'. left. reflexivity. }
      split.
      { intros p trs old [X' | Hin] L.
        - inversion X'; subst. right. rewrite Head.
          exact (proj1 (Hm _ L)).
        - apply (Hp p trs old Hin). rewrite Other; [ exact L | ].
          apply (in_map fst) in Hin. exact Hin. }
      { intros Hok p trs old [X' | Hin] L.
        - inversion X'; subst. split.
          + rewrite Head. exact (proj1 (Hm _ L)).
          + destruct (Hm _ L) as [_ ->]. exists es', (log w).
            rewrite Hl. reflexivity.
        - apply (Hr Hok p trs old Hin). rewrite Other; [ exact L | ].
          apply (in_map fst) in Hin. exact Hin. } }
    destruct (lookup_file p0 (files w)) as [f | ] eqn:L.
    + destruct (contents f) as [st | ] eqn:Cf.
      * destruct (st_merge (trs0 ++ st)%list) as [m | ] eqn:Mg.
        -- apply (Go m [FileWrite p0; FileRead p0]); [ | exact E ].
           intros old X. inversion X; subst. split; [ | reflexivity ].
           exists st, m. repeat split; assumption.
        -- apply (Stop MergeError [FileRead p0]). exact E.
      * apply (Stop (ReadError p0) [FileRead p0]). exact E.
    + destruct (st_merge trs0) as [m | ] eqn:Mg.
      * apply (Go m [FileWrite p0]); [ | exact E ]. intros old X. discriminate.
      * apply (Stop MergeError []). destruct w; exact E.
Qed.

Lemma dict_get_append (q p : string) (tr : Trace)
    (d : list (string * list Trace)) :
  dict_get q (dict_append p tr d)
  = if String.eqb q p
    then Some (match dict_get p d with
               | Some trs => (trs ++ [tr])%list
               | None => [tr]
               end)
    else dict_get q d.
Proof.
  induction d as [ | [k trs] d IH]; cbn.
  - destruct (String.eqb q p); reflexivity.
  - destruct (String.eqb p k) eqn:E; cbn.
    + apply String.eqb_eq in E. subst k.
      destruct (String.eqb q p); reflexivity.
    + rewrite IH. destruct (String.eqb q p) eqn:F; [ | reflexivity ].
      apply String.eqb_eq in F. subst q. rewrite E. reflexivity.
Qed.

Lemma dict_append_keys (q p : string) (tr : Trace)
    (d : list (string * list Trace)) :
  In q (map fst (dict_append p tr d)) -> q = p \/ In q (map fst d).
Proof.
  induction d as [ | [k trs] d IH]; cbn.
  - intros [E | []]. left. symmetry. exact E.
  - destruct (String.eqb p k) eqn:E; cbn; [ intros X; right; exact X | ].
    intros [X | X]; [ right; left; exact X | ].
    destruct (IH X) as [Y | Y]; [ left; exact Y | right; right; exact Y ].
Qed.

Lemma dict_append_nodup (p : string) (tr : Trace)
    (d : list (string * list Trace)) :
  NoDup (map fst d) -> NoDup (map fst (dict_append p tr d)).
Proof.
  induction d as [ | [k trs] d IH]; cbn; intros ND.
  - constructor; [ intros [] | constructor ].
  - inversion ND as [ | ? ? Hk ND']; subst.
    destruct (String.eqb p k) eqn:E; cbn; [ exact ND | ].
    constructor; [ | exact (IH ND') ].
    intros X. apply dict_append_keys in X. destruct X as [-> | X].
    + rewrite String.eqb_refl in E. discriminate.
    + exact (Hk X).
Qed.

Lemma dict_get_in (p : string) (trs : list Trace)
    (d : list (string * list Trace)) :
  NoDup (map fst d) -> In (p, trs) d -> dict_get p d = Some trs.
Proof.
  induction d as [ | [k ts] d IH]; cbn; [ intros _ [] | ].
  intros ND [X | X].
  - inversion X; subst. rewrite String.eqb_refl. reflexivity.
  - inversion ND as [ | ? ? Hk ND']; subst.
    destruct (String.eqb p k) eqn:E.
    + apply String.eqb_eq in E. subst k. contradiction Hk.
      exact (in_map fst _ _ X).
    + exact (IH ND' X).
Qed.

Lemma dict_get_some (p : string) (trs : list Trace)
    (d : list (string * list Trace)) :
  dict_get p d = Some trs -> In (p, trs) d.
Proof.
  induction d as [ | [k ts] d IH]; cbn; [ discriminate | ].
  destruct (String.eqb p k) eqn:E.
  - apply String.eqb_eq in E. subst k. intros X. inversion X. left.
    reflexivity.
  - intros X. right. exact (IH X).
Qed.

(** The dictionary of [put_waveforms] holds, under every path, the traces
    that go there, and no path twice. *)
Lemma group_by_path_spec (self : WaveBank) (stream : Stream)
    (name : option string) :
  NoDup (map fst (group_by_path self stream name))
  /\ forall p,
       dict_get p (group_by_path self stream name)
       = match routed_to self name p stream with
         | [] => None
         | trs => Some trs
         end.
Proof.
  unfold group_by_path, routed_to.
  change (fun st_dic tr =>
            dict_append
              (path_join (bank_path self)
                 (summarize_trace tr name (path_structure self)
                    (name_structure self))) tr st_dic)
    with (fun st_dic tr => dict_append (destination self name tr) tr st_dic).
  set (step := fun st_dic tr =>
                 dict_append (destination self name tr) tr st_dic).
  assert (G : forall l d pre,
             NoDup (map fst d) ->
             (forall p, dict_get p d
                        = match filter (fun tr => String.eqb
                                          (destination self name tr) p) pre with
                          | [] => None
                          | trs => Some trs
                          end) ->
             NoDup (map fst (fold_left step l d))
             /\ forall p, dict_get p (fold_left step l d)
                          = match filter (fun tr => String.eqb
                                            (destination self name tr) p)
                                    (pre ++ l) with
                            | [] => None
                            | trs => Some trs
                            end).
  { induction l as [ | tr l IH]; intros d pre ND Hd.
    - rewrite app_nil_r. split; assumption.
    - cbn [fold_left].
      replace (pre ++ tr :: l)%list with ((pre ++ [tr]) ++ l)%list
        by (rewrite <- app_assoc; reflexivity).
      apply IH.
      + apply dict_append_nodup, ND.
      + intros p. unfold step. rewrite dict_get_append, filter_app.
        cbn [filter]. rewrite (String.eqb_sym p).
        destruct (String.eqb (destination self name tr) p) eqn:E.
        * apply String.eqb_eq in E. rewrite E, Hd.
          destruct (filter _ pre); reflexivity.
        * rewrite app_nil_r. apply Hd. }
  apply (G stream [] []); [ constructor | reflexivity ].
Qed.

Lemma group_by_path_in (self : WaveBank) (stream : Stream)
    (name : option string) (p : string) (trs : list Trace) :
  In (p, trs) (group_by_path self stream name) ->
  trs = routed_to self name p stream.
Proof.
  destruct (group_by_path_spec self stream name) as [ND G]. intros Hin.
  apply (@dict_get_in _ _ _ ND) in Hin. rewrite G in Hin.
  destruct (routed_to self name p stream); congruence.
Qed.

Lemma group_by_path_routed (self : WaveBank) (stream : Stream)
    (name : option string) (tr : Trace) :
  In tr stream ->
  In (destination self name tr,
      routed_to self name (destination self name tr) stream)
    (group_by_path self stream name).
Proof.
  intros Hin. destruct (group_by_path_spec self stream name) as [ND G].
  apply dict_get_some. rewrite G.
  assert (X : In tr (routed_to self name (destination self name tr) stream)).
  { apply filter_In. split; [ exact Hin | apply String.eqb_refl ]. }
  destruct (routed_to self name (destination self name tr) stream);
    [ destruct X | reflexivity ].
Qed.

Lemma update_index_log (self : WaveBank) (w : World) :
  exists es, log (snd (update_index self w)) = (es ++ log w)%list.
Proof.
  rewrite update_index_run.
  destruct (unindexed self w) as [ | fi fis].
  - eexists. reflexivity.
  - unfold bind. rewrite write_update_run.
    destruct (List.concat (summaries self (fi :: fis))) as [ | u us].
    + eexists. reflexivity.
    + destruct (existsb isnull (map (stored_row self) (u :: us))).
      * eexists. reflexivity.
      * exists (StoreWrite :: scan_events self w). reflexivity.
Qed.

(** C6: when [put_waveforms] sends traces to a path at which a file
    exists, that file afterwards holds either what it held before (an
    exception stopped the call before the path was saved) or the merge of
    the new traces with the traces read from it; a call that returns has
    merged, and read the file right before writing it.  Files to which no
    trace is sent are kept as they are. *)
Theorem put_waveforms_merges_existing (self : WaveBank) (stream : Stream)
    (name : option string) (w : World) (tr : Trace) (old : WaveFile) :
  In tr stream ->
  lookup_file (destination self name tr) (files w) = Some old ->
  let p := destination self name tr in
  let trs := routed_to self name p stream in
  let r := fst (put_waveforms self stream name w) in
  let w' := snd (put_waveforms self stream name w) in
  (lookup_file p (files w') = Some old
   \/ merged_into old trs (now w) (lookup_file p (files w')))
  /\ (r = Ok tt ->
      merged_into old trs (now w) (lookup_file p (files w'))
      /\ read_then_written p (log w'))
  /\ (forall q,
        (forall tr', In tr' stream -> destination self name tr' <> q) ->
        lookup_file q (files w') = lookup_file q (files w)).
Proof.
  intros Hin L p trs r w'.
  destruct (group_by_path_spec self stream name) as [ND G].
  pose proof (@group_by_path_routed self stream name tr Hin) as Hp.
  fold p in Hp. fold trs in Hp.
  unfold r, w', put_waveforms, bind.
  destruct (for_each (group_by_path self stream name) put_one w)
    as [r1 w1] eqn:E.
  destruct (@put_loop _ ND _ _ _ E) as (Hi & Hc & Hn & (es & Hl) & Hq & Hd & Hr).
  assert (Hnot : forall q,
             (forall tr', In tr' stream -> destination self name tr' <> q) ->
             ~ In q (map fst (group_by_path self stream name))).
  { intros q Hq' X. apply in_map_iff in X. destruct X as ([q' ts] & <- & X).
    cbn [fst] in *. pose proof (@group_by_path_in _ _ _ _ _ X) as Ets.
    pose proof (@dict_get_in _ _ _ ND X) as Eg. rewrite G in Eg.
    destruct (routed_to self name q' stream) as [ | t ts'] eqn:R;
      [ discriminate | ].
    assert (Ht : In t (routed_to self name q' stream))
      by (rewrite R; left; reflexivity).
    apply filter_In in Ht. destruct Ht as [Ht1 Ht2].
    apply String.eqb_eq in Ht2. exact (Hq' t Ht1 Ht2). }
  destruct r1 as [[] | e].
  - assert (Fin : exists w2,
               (match group_by_path self stream name with
                | [] => ret tt
                | _ :: _ => update_index self
                end) w1 = (fst ((match group_by_path self stream name with
                                 | [] => ret tt
                                 | _ :: _ => update_index self
                                 end) w1), w2)
               /\ files w2 = files w1
               /\ exists es', log w2 = (es' ++ log w1)%list).
    { destruct (group_by_path self stream name).
      - exists w1. repeat split. exists []. reflexivity.
      - destruct (update_index_cases self w1)
          as (w2 & Hf & _ & _ & [X | (x & X & _)]);
          destruct (update_index_log self w1) as (es' & Hl');
          rewrite X in *; exists w2; repeat split; try assumption;
          exists es'; exact Hl'. }
    destruct Fin as (w2 & X & Hf & (es' & Hl2)). rewrite X. cbn [fst snd].
    rewrite Hf. split; [ exact (Hd _ _ _ Hp L) | ]. split.
    + intros _. destruct (Hr eq_refl _ _ _ Hp L) as [Hm (later & earlier & Hlog)].
      split; [ exact Hm | ].
      exists (es' ++ later)%list, earlier.
      rewrite Hl2, Hlog, app_assoc. reflexivity.
    + intros q Hq'. apply Hq, Hnot, Hq'.
  - cbn [fst snd]. split; [ exact (Hd _ _ _ Hp L) | ].
    split; [ discriminate | ]. intros q Hq'. apply Hq, Hnot, Hq'.
Qed.

(** ** Gaps and uptime *)

Lemma get_gaps_df_run (self : WaveBank) (net sta loc chan : param)
    (st en : option float) (min_gap : float) (w : World) (i : IndexFile) :
  index_file w = Some i -> coherent w -> bad_times st en = false ->
  exists w',
    get_gaps_df self net sta loc chan st en min_gap w
    = (Ok (gaps_of (matching net sta loc chan st en (index_node i)) min_gap),
       w')
    /\ index_file w' = Some i /\ coherent w'.
Proof.
  intros Hi C Hb.
  destruct (read_index_indexed self net sta loc chan st en
              (Some columns_no_path) Hi C Hb) as (w' & E & _ & Hi' & _ & C').
  exists w'. split; [ | split; assumption ].
  unfold get_gaps_df, bind. rewrite E. cbn [df_rows].
  fold (matching net sta loc chan st en (index_node i)).
  fold (gaps_of (matching net sta loc chan st en (index_node i)) min_gap).
  destruct (gaps_of _ min_gap); reflexivity.
Qed.

Lemma get_availability_df_run (self : WaveBank) (net sta loc chan : param)
    (st en : option float) (w : World) (i : IndexFile) :
  index_file w = Some i -> coherent w -> bad_times st en = false ->
  exists w',
    get_availability_df self net sta loc chan st en w
    = (Ok (availability_of (matching net sta loc chan st en (index_node i))),
       w')
    /\ index_file w' = Some i /\ coherent w'.
Proof.
  intros Hi C Hb.
  destruct (read_index_indexed self net sta loc chan st en
              (Some columns_no_path) Hi C Hb) as (w' & E & _ & Hi' & _ & C').
  exists w'. split; [ | split; assumption ].
  unfold get_availability_df, bind. rewrite E. reflexivity.
Qed.

Lemma get_uptime_df_run (self : WaveBank) (net sta loc chan : param)
    (st en : option float) (w : World) (i : IndexFile) :
  index_file w = Some i -> coherent w -> bad_times st en = false ->
  exists w',
    get_uptime_df self net sta loc chan st en w
    = (Ok (uptime_of (matching net sta loc chan st en (index_node i))), w')
    /\ index_file w' = Some i /\ coherent w'.
Proof.
  intros Hi C Hb.
  destruct (get_availability_df_run self net sta loc chan st en Hi C Hb)
    as (w1 & E1 & Hi1 & C1).
  destruct (get_gaps_df_run self net sta loc chan st en 1%float Hi1 C1 Hb)
    as (w2 & E2 & Hi2 & C2).
  exists w2. split; [ | split; assumption ].
  unfold get_uptime_df, bind. rewrite E1, E2. reflexivity.
Qed.

Lemma permutation_of_three {A : Type} (a b c : A) (l : list A) :
  Permutation l [a; b; c] ->
  l = [a; b; c] \/ l = [a; c; b] \/ l = [b; a; c] \/ l = [b; c; a]
  \/ l = [c; a; b] \/ l = [c; b; a].
Proof.
  intros P.
  destruct (Permutation_vs_cons_inv P) as (l1 & l2 & ->).
  apply (Permutation_app_inv l1 l2 [] [b; c]) in P. cbn in P.
  apply Permutation_sym, Permutation_length_2_inv in P.
  destruct l1 as [ | x [ | y [ | z l1]]]; cbn in P;
    destruct P as [P | P]; inversion P; subst; cbn;
    auto 7 using eq_refl.
Qed.

(** C7: with the three segments [0,100], [100,200] and [300,400] of the
    channel X.Y..Z in the index, in any order and at any paths,
    [get_gaps_df] with a minimal gap of 1 returns the one gap from 200 to
    300 of duration 100, and [get_uptime_df] reports the duration 400, the
    gap duration 100 and the availability 0.75. *)
Theorem three_segments_gap_and_uptime (self : WaveBank) (w : World)
    (i : IndexFile) (p1 p2 p3 : string) :
  index_file w = Some i -> coherent w ->
  Permutation (index_node i)
    [mkRow "X" "Y" "" "Z" 0 100 p1; mkRow "X" "Y" "" "Z" 100 200 p2;
     mkRow "X" "Y" "" "Z" 300 400 p3] ->
  fst (get_gaps_df self PNone PNone PNone PNone None None 1%float w)
  = Ok [mkGap ("X", "Y", "", "Z") 200 300 100]
  /\ fst (get_uptime_df self PNone PNone PNone PNone None None w)
     = Ok [mkUptime ("X", "Y", "", "Z") 0 400 400 100 300 0.75].
Proof.
  intros Hi C P.
  destruct (get_gaps_df_run self PNone PNone PNone PNone None None 1%float
              Hi C eq_refl) as (w1 & E1 & _).
  destruct (get_uptime_df_run self PNone PNone PNone PNone None None
              Hi C eq_refl) as (w2 & E2 & _).
  rewrite E1, E2. cbn [fst].
  apply permutation_of_three in P.
  destruct P as [-> | [-> | [-> | [-> | [-> | ->]]]]];
    split; vm_compute; reflexivity.
Qed.

(** ** The cache stays coherent *)

Lemma coherent_empty_cache (w : World) : cache w = [] -> coherent w.
Proof. unfold coherent. intros ->. constructor. Qed.

Lemma coherent_same (w w' : World) :
  index_file w' = index_file w -> cache w' = cache w ->
  coherent w -> coherent w'.
Proof.
  unfold coherent, index_rows. intros -> ->. exact (fun C => C).
Qed.

Lemma update_index_coherent (self : WaveBank) (w : World) :
  coherent w -> coherent (snd (update_index self w)).
Proof.
  intros C.
  destruct (update_index_cases self w)
    as (w' & _ & _ & Hc & [E | (e & E & _)]); rewrite E; exact (Hc C).
Qed.

Lemma read_index_coherent (self : WaveBank) (net sta loc chan : param)
    (st en : option float) (kw : kwargs) (w : World) :
  coherent w ->
  coherent (snd (read_index self net sta loc chan st en kw w)).
Proof.
  intros C. rewrite read_index_unfold.
  destruct (bad_times st en); [ exact C | ].
  destruct (has_index w).
  - destruct (read_cached_run self net sta loc chan st en kw
                (w := logged [StoreExists; StoreExists] w))
      as (w' & E & _ & _ & _ & C'); [ exact C | ].
    rewrite E. exact C'.
  - destruct (update_index_cases self (logged [StoreExists] w))
      as (w1 & _ & _ & Hc & [E | (e & E & _)]); rewrite E;
      [ | exact (Hc C) ].
    destruct (has_index w1); [ | exact (Hc C) ].
    destruct (read_cached_run self net sta loc chan st en kw
                (w := logged [StoreExists] w1))
      as (w' & E' & _ & _ & _ & C'); [ exact (Hc C) | ].
    rewrite E'. exact C'.
Qed.

Lemma put_waveforms_coherent (self : WaveBank) (stream : Stream)
    (name : option string) (w : World) :
  coherent w -> coherent (snd (put_waveforms self stream name w)).
Proof.
  intros C. destruct (group_by_path_spec self stream name) as [ND _].
  unfold put_waveforms, bind.
  destruct (for_each (group_by_path self stream name) put_one w)
    as [r1 w1] eqn:E.
  destruct (@put_loop _ ND _ _ _ E) as (Hi & Hc & _).
  pose proof (coherent_same _ Hi Hc C) as C1.
  destruct r1 as [[] | e]; [ | exact C1 ].
  destruct (group_by_path self stream name); [ exact C1 | ].
  apply update_index_coherent, C1.
Qed.

(** ** More on comparisons *)

Lemma ltb_neg_infinity (x : float) :
  PrimFloat.ltb x (- infinity)%float = false.
Proof.
  rewrite ltb_spec. unfold SFltb.
  change (Prim2SF (- infinity)%float) with (S754_infinity true).
  destruct (Prim2SF x) as [s | s | | s m e]; cbn; try reflexivity;
    destruct s; reflexivity.
Qed.

Lemma ltb_infinity (x : float) : PrimFloat.ltb infinity x = false.
Proof.
  rewrite ltb_spec. unfold SFltb.
  change (Prim2SF infinity) with (S754_infinity false).
  destruct (Prim2SF x) as [s | s | | s m e]; cbn; try reflexivity;
    destruct s; reflexivity.
Qed.

Lemma ltb_nan_r (x : float) : PrimFloat.ltb x nan = false.
Proof.
  rewrite ltb_spec. unfold SFltb.
  change (Prim2SF nan) with S754_nan.
  destruct (Prim2SF x) as [s | s | | s m e]; reflexivity.
Qed.

(** ** The filter with time bounds *)

Lemma filter_index_length (index : list IndexRow) (net sta loc chan : param)
    (start end_ : option float) :
  List.length (filter_index index net sta loc chan start end_)
  = List.length index.
Proof.
  assert (E : filter_index index net sta loc chan start end_
              = match start, end_ with
                | None, None =>
                    filter_index index net sta loc chan None None
                | _, _ =>
                    logical_and (filter_index index net sta loc chan None None)
                      (map (fun r =>
                              negb (PrimFloat.ltb (endtime r)
                                      match start with
                                      | Some s => UTCDateTime s
                                      | None => (- infinity)%float
                                      end
                                    || PrimFloat.ltb
                                         match end_ with
                                         | Some e => UTCDateTime e
                                         | None => infinity
                                         end (starttime r))) index)
                end).
  { destruct start, end_; reflexivity. }
  rewrite E, filter_index_rowwise.
  destruct start, end_; rewrite ?logical_and_map; apply length_map.
Qed.

(** X1: the mask of [filter_index] has one entry per row, true exactly
    where the row passes every code filter given (a string as a pattern for
    the whole value, a sequence by membership, nothing for an omitted one)
    and, for the bounds given, ends no earlier than the timestamp of
    [UTCDateTime start] and starts no later than the timestamp of
    [UTCDateTime end]; an omitted bound asks nothing. *)
Theorem filter_index_all_constraints (index : list IndexRow)
    (net sta loc chan : param) (start end_ : option float) :
  filter_index index net sta loc chan start end_
  = map (fun r =>
           param_ok Network net r && param_ok Station sta r
           && param_ok Location loc r && param_ok Channel chan r
           && ends_after start r && starts_before end_ r)
      index
  /\ List.length (filter_index index net sta loc chan start end_)
     = List.length index.
Proof.
  split; [ | apply filter_index_length ].
  assert (E : filter_index index net sta loc chan start end_
              = match start, end_ with
                | None, None =>
                    filter_index index net sta loc chan None None
                | _, _ =>
                    logical_and (filter_index index net sta loc chan None None)
                      (map (fun r =>
                              negb (PrimFloat.ltb (endtime r)
                                      match start with
                                      | Some s => UTCDateTime s
                                      | None => (- infinity)%float
                                      end
                                    || PrimFloat.ltb
                                         match end_ with
                                         | Some e => UTCDateTime e
                                         | None => infinity
                                         end (starttime r))) index)
                end).
  { destruct start, end_; reflexivity. }
  rewrite E, filter_index_rowwise.
  destruct start as [s | ], end_ as [e | ]; rewrite ?logical_and_map;
    apply map_ext; intros r; unfold row_passes, ends_after, starts_before;
    rewrite ?ltb_neg_infinity, ?ltb_infinity;
    destruct (param_ok Network net r), (param_ok Station sta r),
      (param_ok Location loc r), (param_ok Channel chan r);
    cbn [andb orb negb]; try reflexivity;
    repeat match goal with
      | |- context [PrimFloat.ltb ?a ?b] => destruct (PrimFloat.ltb a b)
      end; reflexivity.
Qed.

(** ** Patterns that end or start with a star *)

Lemma filter_index_only (index : list IndexRow) (key : nslc_key)
    (val : string) :
  filter_index index (only key val Network) (only key val Station)
    (only key val Location) (only key val Channel) None None
  = map (fun r => Fnmatch.re_match (get_regex val) (code key r)) index.
Proof.
  rewrite filter_index_rowwise. apply map_ext. intros r.
  destruct key; unfold row_passes; cbn; rewrite ?andb_true_r; reflexivity.
Qed.

Lemma translate_plain_star (p : string) :
  plain p = true ->
  Fnmatch.translate (p ++ "*") = (literal p ++ [Fnmatch.Star])%list.
Proof.
  unfold Fnmatch.translate.
  induction p as [ | c p IH]; cbn; [ reflexivity | ].
  intros H. apply andb_true_iff in H. destruct H as [H Hp].
  apply andb_true_iff in H. destruct H as [H H3].
  apply andb_true_iff in H. destruct H as [H1 H2].
  apply negb_true_iff in H1, H2, H3. rewrite H1, H2, H3, (IH Hp).
  reflexivity.
Qed.

Lemma re_match_literal_star (p s : string) :
  Fnmatch.re_match (literal p ++ [Fnmatch.Star]) s = String.prefix p s.
Proof.
  revert s. induction p as [ | c p IH]; intros s.
  - cbn [literal app]. rewrite re_match_star_end, prefix_empty. reflexivity.
  - destruct s as [ | d s]; [ reflexivity | ].
    cbn [literal app]. 
    change (Fnmatch.re_match (Fnmatch.Lit c :: (literal p ++ [Fnmatch.Star]))
              (String d s))
      with (Ascii.eqb d c
            && Fnmatch.re_match (literal p ++ [Fnmatch.Star]) s).
    rewrite IH. cbn [String.prefix].
    destruct (ascii_dec c d) as [E | E].
    + subst. rewrite Ascii.eqb_refl. reflexivity.
    + apply not_eq_sym in E. apply Ascii.eqb_neq in E. rewrite E.
      reflexivity.
Qed.

Lemma re_match_star_literal (p s : string) :
  Fnmatch.re_match (Fnmatch.Star :: literal p) s = ends_with p s.
Proof.
  induction s as [ | d s IH].
  - cbn. rewrite re_match_literal, !orb_false_r. apply String.eqb_sym.
  - change (Fnmatch.re_match (Fnmatch.Star :: literal p) (String d s))
      with (Fnmatch.re_match (literal p) (String d s)
            || Fnmatch.re_match (Fnmatch.Star :: literal p) s).
    rewrite IH, re_match_literal. cbn [ends_with].
    rewrite (String.eqb_sym p). reflexivity.
Qed.

(** X2: a code filter that is a single star passes every row, as an
    omitted filter does; for a string [p] without wildcard characters the
    filter [p*] passes exactly the rows whose code starts with [p], and the
    filter [*p] exactly those whose code ends with [p]. *)
Theorem filter_index_star_patterns (index : list IndexRow) (key : nslc_key) :
  filter_index index (only key "*" Network) (only key "*" Station)
    (only key "*" Location) (only key "*" Channel) None None
  = filter_index index PNone PNone PNone PNone None None
  /\ (forall p, plain p = true ->
        filter_index index (only key (p ++ "*") Network)
          (only key (p ++ "*") Station) (only key (p ++ "*") Location)
          (only key (p ++ "*") Channel) None None
        = map (fun r => String.prefix p (code key r)) index)
  /\ (forall p, plain p = true ->
        filter_index index (only key ("*" ++ p) Network)
          (only key ("*" ++ p) Station) (only key ("*" ++ p) Location)
          (only key ("*" ++ p) Channel) None None
        = map (fun r => ends_with p (code key r)) index).
Proof.
  split; [ | split ].
  - rewrite filter_index_only, filter_index_none. apply map_ext. intros r.
    apply re_match_star_end.
  - intros p H. rewrite filter_index_only. apply map_ext. intros r.
    unfold get_regex. rewrite (translate_plain_star _ H).
    apply re_match_literal_star.
  - intros p H. rewrite filter_index_only. apply map_ext. intros r.
    unfold get_regex, Fnmatch.translate. cbn [append Fnmatch.translate_from].
    cbn [Ascii.eqb Bool.eqb].
    change (Fnmatch.translate_from 0 p) with (Fnmatch.translate p).
    rewrite (translate_plain _ H). apply re_match_star_literal.
Qed.

(** ** Code filters and the read behind them *)

Lemma df_select_all (df : DataFrame) :
  df_select df (map (fun _ => true) (df_rows df)) = df.
Proof. destruct df as [cols rows]. unfold df_select; cbn. rewrite select_all. reflexivity. Qed.

Lemma read_cached_filters (self : WaveBank) (net sta loc chan : param)
    (st en : option float) (kw : kwargs) (w : World) :
  read_cached self net sta loc chan st en kw w
  = match read_cached self PNone PNone PNone PNone st en kw w with
    | (Ok df, w') =>
        (Ok (df_select df
               (filter_index (df_rows df) net sta loc chan None None)), w')
    | (Raise e, w') => (Raise e, w')
    end.
Proof.
  unfold read_cached, bind.
  destruct (_index_cache self st en buffer kw w) as [[index | e] w'];
    [ | reflexivity ].
  unfold ret. rewrite filter_index_none, df_select_all. reflexivity.
Qed.

(** X3: the code filters of [read_index] act on what the query without
    them reads: both calls raise alike and leave the same world, and the
    filtered result is the unfiltered frame cut down by [filter_index]. *)
Theorem read_index_filters_after_read (self : WaveBank)
    (net sta loc chan : param) (st en : option float) (kw : kwargs)
    (w : World) :
  read_index self net sta loc chan st en kw w
  = match read_index self PNone PNone PNone PNone st en kw w with
    | (Ok df, w') =>
        (Ok (df_select df
               (filter_index (df_rows df) net sta loc chan None None)), w')
    | (Raise e, w') => (Raise e, w')
    end.
Proof.
  rewrite !read_index_unfold.
  destruct (bad_times st en); [ reflexivity | ].
  destruct (has_index w); [ apply read_cached_filters | ].
  destruct (update_index self (logged [StoreExists] w)) as [[u | e] w1];
    [ | reflexivity ].
  destruct (has_index w1); [ apply read_cached_filters | ].
  rewrite filter_index_rowwise. reflexivity.
Qed.

(** ** Bounds in the wrong order *)

Lemma read_index_inverted (self : WaveBank) (net sta loc chan : param)
    (s e : float) (kw : kwargs) (w : World) :
  PrimFloat.ltb e s = true ->
  read_index self net sta loc chan (Some s) (Some e) kw w
  = (Raise (ValueError "starttime cannot be greater than endtime"), w).
Proof.
  intros H. rewrite read_index_unfold. cbn [bad_times]. rewrite H.
  reflexivity.
Qed.

(** X4: every retrieval built on [read_index] refuses a start time
    greater than the end time with the same error and leaves the world as
    it was: [get_waveforms], [get_availability_df], [get_gaps_df],
    [get_uptime_df], and [get_waveforms_bulk] when the latest end of its
    requests lies before their earliest start. *)
Theorem retrieval_rejects_inverted_bounds (self : WaveBank)
    (net sta loc chan : param) (s e min_gap : float)
    (attach_response : bool) (b : BulkRequest) (bulk : list BulkRequest)
    (w : World) :
  PrimFloat.ltb e s = true ->
  PrimFloat.ltb (series_max (map t2 (b :: bulk)))
    (series_min (map t1 (b :: bulk))) = true ->
  let failed {A : Type} : result A * World :=
    (Raise (ValueError "starttime cannot be greater than endtime"), w) in
  get_waveforms self net sta loc chan (Some s) (Some e) attach_response w
  = failed
  /\ get_availability_df self net sta loc chan (Some s) (Some e) w = failed
  /\ get_gaps_df self net sta loc chan (Some s) (Some e) min_gap w = failed
  /\ get_uptime_df self net sta loc chan (Some s) (Some e) w = failed
  /\ get_waveforms_bulk self (b :: bulk) None w = failed.
Proof.
  intros H Hb failed. unfold failed.
  assert (Av : get_availability_df self net sta loc chan (Some s) (Some e) w
               = (Raise (ValueError
                           "starttime cannot be greater than endtime"), w)).
  { unfold get_availability_df, bind. rewrite read_index_inverted by exact H.
    reflexivity. }
  split; [ | split; [ exact Av | split; [ | split ] ] ].
  - unfold get_waveforms, bind. rewrite read_index_inverted by exact H.
    reflexivity.
  - unfold get_gaps_df, bind. rewrite read_index_inverted by exact H.
    reflexivity.
  - unfold get_uptime_df. unfold bind at 1. rewrite Av. reflexivity.
  - unfold get_waveforms_bulk, bulk_index. unfold bind at 1.
    rewrite read_index_inverted by exact Hb. reflexivity.
Qed.

(** ** Queries on an empty directory *)

Lemma read_index_on_empty (self : WaveBank) (net sta loc chan : param)
    (st en : option float) (kw : kwargs) (w : World) :
  files w = [] -> index_file w = None -> bad_times st en = false ->
  exists w',
    read_index self net sta loc chan st en kw w
    = (Ok (mkDF index_columns []), w')
    /\ files w' = [] /\ index_file w' = None /\ cache w' = cache w.
Proof.
  intros Hf Hi Hb. rewrite read_index_unfold, Hb.
  unfold has_index at 1. rewrite Hi. rewrite update_index_run.
  rewrite unindexed_logged. unfold unindexed at 1. rewrite Hf. cbn [filter].
  unfold has_index, logged at 1 2; cbn. rewrite Hi.
  eexists. repeat split; cbn; assumption.
Qed.

Lemma index2stream_no_rows (self : WaveBank) (cols : list string)
    (st en : option pytime) (attach_response : bool) (w : World) :
  _index2stream self (mkDF cols []) st en attach_response w = (Ok [], w).
Proof. reflexivity. Qed.

Lemma map_m_no_rows (self : WaveBank) (cols : list string)
    (bulk : list BulkRequest) (times : list (float * float)) (w : World) :
  map_m (fun time => _func self time (mkDF cols []) bulk) times w
  = (Ok (map (fun _ => []) times), w).
Proof.
  induction times as [ | time times IH]; [ reflexivity | ].
  cbn [map_m map]. unfold bind at 1. unfold _func at 1, df_select.
  cbn [df_rows df_columns select]. rewrite index2stream_no_rows.
  unfold bind at 1. rewrite IH. reflexivity.
Qed.

Lemma concat_nils {A B : Type} (l : list B) :
  List.concat (map (fun _ => @nil A) l) = [].
Proof. induction l as [ | x l IH]; cbn; [ | rewrite IH ]; reflexivity. Qed.

(** X5: on a directory with no files and no index file, every retrieval
    with bounds in order returns an empty result and makes no index file:
    [get_waveforms] and [get_waveforms_bulk] an empty stream,
    [get_availability_df], [get_gaps_df] and [get_uptime_df] an empty
    table, and after each of them there is still no index file. *)
Theorem retrieval_on_empty_bank (self : WaveBank) (net sta loc chan : param)
    (st en : option float) (min_gap : float) (attach_response : bool)
    (b : BulkRequest) (bulk : list BulkRequest) (w : World) :
  files w = [] -> index_file w = None ->
  match st, en with
  | Some s, Some e => PrimFloat.leb s e = true
  | _, _ => True
  end ->
  PrimFloat.leb (series_min (map t1 (b :: bulk)))
    (series_max (map t2 (b :: bulk))) = true ->
  (fst (get_waveforms self net sta loc chan st en attach_response w) = Ok []
   /\ index_file
        (snd (get_waveforms self net sta loc chan st en attach_response w))
      = None)
  /\ (fst (get_availability_df self net sta loc chan st en w) = Ok []
      /\ index_file (snd (get_availability_df self net sta loc chan st en w))
         = None)
  /\ (fst (get_gaps_df self net sta loc chan st en min_gap w) = Ok []
      /\ index_file
           (snd (get_gaps_df self net sta loc chan st en min_gap w))
         = None)
  /\ (fst (get_uptime_df self net sta loc chan st en w) = Ok []
      /\ index_file (snd (get_uptime_df self net sta loc chan st en w))
         = None)
  /\ (fst (get_waveforms_bulk self (b :: bulk) None w) = Ok []
      /\ index_file (snd (get_waveforms_bulk self (b :: bulk) None w))
         = None).
Proof.
  intros Hf Hi Hv Hbulk. apply leb_not_bad in Hv.
  assert (Av : exists w',
             get_availability_df self net sta loc chan st en w = (Ok [], w')
             /\ files w' = [] /\ index_file w' = None).
  { destruct (read_index_on_empty self net sta loc chan st en
                (Some columns_no_path) w Hf Hi Hv) as (w' & E & Hf' & Hi' & _).
    exists w'. unfold get_availability_df, bind. rewrite E.
    repeat split; assumption. }
  assert (Gp : forall g w0, files w0 = [] -> index_file w0 = None ->
             exists w',
               get_gaps_df self net sta loc chan st en g w0 = (Ok [], w')
               /\ index_file w' = None).
  { intros g w0 Hf0 Hi0.
    destruct (read_index_on_empty self net sta loc chan st en
                (Some columns_no_path) w0 Hf0 Hi0 Hv)
      as (w' & E & _ & Hi' & _).
    exists w'. unfold get_gaps_df, bind. rewrite E.
    split; [ reflexivity | exact Hi' ]. }
  destruct (read_index_on_empty self net sta loc chan st en None w Hf Hi Hv)
    as (w1 & E1 & Hf1 & Hi1 & _).
  split; [ | split; [ | split; [ | split ] ] ].
  - unfold get_waveforms, bind. rewrite E1.
    split; [ reflexivity | exact Hi1 ].
  - destruct Av as (w' & E & _ & Hi'). rewrite E.
    split; [ reflexivity | exact Hi' ].
  - destruct (Gp min_gap w Hf Hi) as (w' & E & Hi'). rewrite E.
    split; [ reflexivity | exact Hi' ].
  - destruct Av as (w' & E & Hf' & Hi').
    destruct (Gp 1%float w' Hf' Hi') as (w2 & E2 & Hi2).
    assert (U : get_uptime_df self net sta loc chan st en w = (Ok [], w2)).
    { unfold get_uptime_df. unfold bind at 1. rewrite E.
      unfold bind at 1. rewrite E2. reflexivity. }
    rewrite U. split; [ reflexivity | exact Hi2 ].
  - destruct (read_index_on_empty self PNone PNone PNone PNone
                (Some (series_min (map t1 (b :: bulk))))
                (Some (series_max (map t2 (b :: bulk)))) None w Hf Hi
                (leb_ltb_false Hbulk)) as (w2 & E2 & _ & Hi2 & _).
    assert (U : get_waveforms_bulk self (b :: bulk) None w = (Ok [], w2)).
    { unfold get_waveforms_bulk, bulk_index. unfold bind at 1. rewrite E2.
      unfold bind at 1. rewrite map_m_no_rows. unfold ret.
      rewrite concat_nils. reflexivity. }
    rewrite U. split; [ reflexivity | exact Hi2 ].
Qed.

(** ** Updates of the index *)

Lemma update_index_outcomes (self : WaveBank) (w : World) :
  update_index self w
  = match unindexed self w with
    | [] => (Ok tt, logged (scan_events self w) w)
    | _ :: _ =>
        match pending self w with
        | [] => (Raise (KeyError "path"), logged (scan_events self w) w)
        | _ :: _ =>
            if existsb isnull (map (stored_row self) (pending self w))
            then (Raise (AssertionError
                           "null values found in index dataframe"),
                  logged (scan_events self w) w)
            else
              (Ok tt,
               mkWorld (files w)
                 (Some (appended self (map (stored_row self) (pending self w))
                          (index_file w) (now w)))
                 [] (now w) (StoreWrite :: scan_events self w ++ log w))
        end
    end.
Proof.
  rewrite update_index_run. unfold pending.
  destruct (unindexed self w) as [ | fi fis]; [ reflexivity | ].
  unfold bind. rewrite write_update_run.
  destruct (List.concat (summaries self (fi :: fis))) as [ | u us];
    [ reflexivity | ].
  destruct (existsb isnull (map (stored_row self) (u :: us))); reflexivity.
Qed.

(** C5: a directory with no index file in which no file holds waveforms.
    When the scanner finds no file there, a valid query returns the empty
    table with the index columns and makes no index file.  When it finds a
    file, which then is no waveform file, [update_index] counts the file,
    hands [_write_update] an empty list of rows, and the query raises
    [KeyError] where the empty table was to be returned; the directory is
    left as it was. *)
Theorem read_index_without_waveforms (self : WaveBank)
    (net sta loc chan : param) (st en : option float) (kw : kwargs)
    (w : World) :
  index_file w = None -> pending self w = [] -> bad_times st en = false ->
  (unindexed self w = [] ->
   exists w',
     read_index self net sta loc chan st en kw w
     = (Ok (mkDF index_columns []), w')
     /\ files w' = files w /\ index_file w' = None)
  /\ (unindexed self w <> [] ->
      exists w',
        read_index self net sta loc chan st en kw w
        = (Raise (KeyError "path"), w')
        /\ files w' = files w /\ index_file w' = None).
Proof.
  intros Hi Hp Hb. rewrite read_index_unfold, Hb.
  unfold has_index at 1. rewrite Hi.
  rewrite update_index_outcomes, unindexed_logged.
  assert (P : pending self (logged [StoreExists] w) = pending self w)
    by reflexivity.
  rewrite P, Hp. split.
  - intros U. rewrite U. unfold has_index, logged; cbn. rewrite Hi.
    eexists. split; [ reflexivity | ]. split; reflexivity.
  - intros U. destruct (unindexed self w); [ contradiction U; reflexivity | ].
    unfold has_index. rewrite Hi.
    eexists. split; [ reflexivity | ]. split; [ reflexivity | exact Hi ].
Qed.

Lemma index_cache_keeps (self : WaveBank) (st en : option float)
    (buf : float) (kw : kwargs) (w : World) :
  files (snd (_index_cache self st en buf kw w)) = files w
  /\ index_file (snd (_index_cache self st en buf kw w)) = index_file w
  /\ now (snd (_index_cache self st en buf kw w)) = now w.
Proof.
  unfold _index_cache, bind, gets.
  destruct (find (same_key st en buf kw) (cache w)) as [e | ].
  - repeat split.
  - rewrite read_range_run. repeat split.
Qed.

Lemma read_cached_keeps (self : WaveBank) (net sta loc chan : param)
    (st en : option float) (kw : kwargs) (w : World) :
  files (snd (read_cached self net sta loc chan st en kw w)) = files w
  /\ index_file (snd (read_cached self net sta loc chan st en kw w))
     = index_file w.
Proof.
  destruct (index_cache_keeps self st en buffer kw w) as (Hf & Hi & _).
  unfold read_cached, bind.
  destruct (_index_cache self st en buffer kw w) as [[index | e] w'];
    split; assumption.
Qed.

Lemma appended_rows (self : WaveBank) (df : list IndexRow) (w : World)
    (i : IndexFile) (t : float) :
  index_file w = Some i ->
  index_node (appended self df (index_file w) t) = (index_node i ++ df)%list
  /\ forall m, meta_node i = Some m ->
       meta_node (appended self df (index_file w) t) = Some m.
Proof.
  intros ->. cbn. split; [ reflexivity | ]. intros m ->. reflexivity.
Qed.

Lemma update_index_grows (self : WaveBank) (w : World) (i : IndexFile) :
  index_file w = Some i ->
  exists i' added,
    index_file (snd (update_index self w)) = Some i'
    /\ index_node i' = (index_node i ++ added)%list
    /\ forall m, meta_node i = Some m -> meta_node i' = Some m.
Proof.
  intros Hi. rewrite update_index_outcomes.
  assert (Same : exists i' added,
             index_file (logged (scan_events self w) w) = Some i'
             /\ index_node i' = (index_node i ++ added)%list
             /\ forall m, meta_node i = Some m -> meta_node i' = Some m).
  { exists i, []. cbn. rewrite app_nil_r. repeat split; auto. }
  destruct (unindexed self w); [ exact Same | ].
  destruct (pending self w) as [ | u us] eqn:P; [ exact Same | ].
  destruct (existsb isnull _); [ exact Same | ].
  destruct (appended_rows self (map (stored_row self) (u :: us)) w (now w) Hi)
    as [Hr Hm].
  eexists. eexists. cbn [snd index_file]. split; [ reflexivity | ].
  split; [ exact Hr | exact Hm ].
Qed.

(** X6: the index is append-only.  On a bank with an index file,
    [update_index], [put_waveforms] and [read_index] leave every row that
    was in the index in its place, can only add rows after them, and keep
    the metadata table. *)
Theorem index_rows_are_never_removed (self : WaveBank) (w : World)
    (i : IndexFile) (stream : Stream) (name : option string)
    (net sta loc chan : param) (st en : option float) (kw : kwargs) :
  index_file w = Some i ->
  (exists i' added,
     index_file (snd (update_index self w)) = Some i'
     /\ index_node i' = (index_node i ++ added)%list
     /\ forall m, meta_node i = Some m -> meta_node i' = Some m)
  /\ (exists i' added,
        index_file (snd (put_waveforms self stream name w)) = Some i'
        /\ index_node i' = (index_node i ++ added)%list
        /\ forall m, meta_node i = Some m -> meta_node i' = Some m)
  /\ index_file (snd (read_index self net sta loc chan st en kw w)) = Some i.
Proof.
  intros Hi. split; [ exact (update_index_grows self w Hi) | ]. split.
  - destruct (group_by_path_spec self stream name) as [ND _].
    unfold put_waveforms, bind.
    destruct (for_each (group_by_path self stream name) put_one w)
      as [r1 w1] eqn:E.
    destruct (@put_loop _ ND _ _ _ E) as (Hi1 & _).
    rewrite Hi in Hi1.
    assert (Same : exists i' added,
               index_file w1 = Some i'
               /\ index_node i' = (index_node i ++ added)%list
               /\ forall m, meta_node i = Some m -> meta_node i' = Some m).
    { exists i, []. rewrite app_nil_r. repeat split; auto. }
    destruct r1 as [[] | e]; [ | exact Same ].
    destruct (group_by_path self stream name); [ exact Same | ].
    exact (update_index_grows self w1 Hi1).
  - rewrite read_index_unfold. destruct (bad_times st en); [ exact Hi | ].
    unfold has_index. rewrite Hi.
    destruct (read_cached_keeps self net sta loc chan st en kw
                (logged [StoreExists; StoreExists] w)) as [_ H].
    rewrite H. exact Hi.
Qed.

Lemma filter_none {A : Type} (f : A -> bool) (l : list A) :
  (forall x, In x l -> f x = false) -> filter f l = [].
Proof.
  induction l as [ | x l IH]; intros H; [ reflexivity | ].
  cbn. rewrite (H x (or_introl eq_refl)). apply IH.
  intros y Hy. apply H. right. exact Hy.
Qed.

(** X7: [update_index] is idempotent.  When no file is newer than the
    clock and a call of [update_index] has returned, a second call right
    after it returns too and finds nothing to index: the index file, the
    cache and the files are as the first call left them. *)
Theorem update_index_twice (self : WaveBank) (w : World) :
  no_file_from_the_future w ->
  fst (update_index self w) = Ok tt ->
  let w1 := snd (update_index self w) in
  fst (update_index self w1) = Ok tt
  /\ index_file (snd (update_index self w1)) = index_file w1
  /\ cache (snd (update_index self w1)) = cache w1
  /\ files (snd (update_index self w1)) = files w1.
Proof.
  intros Hnew Hok w1. unfold w1. clear w1.
  rewrite (update_index_outcomes self w) in *.
  destruct (unindexed self w) as [ | fi fis] eqn:U.
  - cbn [snd]. rewrite update_index_outcomes, unindexed_logged, U.
    repeat split.
  - destruct (pending self w) as [ | u us]; [ discriminate | ].
    destruct (existsb isnull _); [ discriminate | ].
    cbn [snd]. rewrite update_index_outcomes.
    match goal with
    | |- context [unindexed self ?w1] =>
        assert (E : unindexed self w1 = [])
    end.
    { unfold unindexed. cbn [files index_file time_node appended].
      apply filter_none. intros pf Hin.
      assert (T : match
                    match index_file w with
                    | Some i =>
                        time_node
                          (mkIndex (index_node i ++ map (stored_row self) (u :: us))
                             match meta_node i with
                             | Some m => Some m
                             | None => Some (path_structure self,
                                             name_structure self)
                             end (Some (now w)))
                    | None =>
                        time_node
                          (mkIndex (map (stored_row self) (u :: us))
                             (Some (path_structure self, name_structure self))
                             (Some (now w)))
                    end
                  with
                  | Some t => PrimFloat.ltb t (mtime (snd pf))
                  | None => true
                  end = false).
      { destruct (index_file w); cbn; apply Hnew, Hin. }
      unfold appended. destruct (index_file w); cbn in T |- *;
        rewrite T; apply andb_false_r. }
    rewrite E. repeat split.
Qed.

(** X8: two ways in which [update_index] fails, each leaving the index
    file, the cache and the files as they were.  When files were found and
    none of them gave a summary row, [_write_update] is called with an
    empty list and raises the KeyError ([len(updates)] counts the files,
    not the rows).  When a summary row carries NaN as start or end time,
    the assertion of [_write_update] fails (for a bank path without
    characters special in a regular expression, so that removing it from
    the paths cannot fail before). *)
Theorem update_index_failure_changes_nothing (self : WaveBank) (w : World) :
  (unindexed self w <> [] -> pending self w = [] ->
   fst (update_index self w) = Raise (KeyError "path")
   /\ index_file (snd (update_index self w)) = index_file w
   /\ cache (snd (update_index self w)) = cache w
   /\ files (snd (update_index self w)) = files w)
  /\ (regex_free (bank_path self) = true ->
      existsb isnull (map (stored_row self) (pending self w)) = true ->
      fst (update_index self w)
      = Raise (AssertionError "null values found in index dataframe")
      /\ index_file (snd (update_index self w)) = index_file w
      /\ cache (snd (update_index self w)) = cache w
      /\ files (snd (update_index self w)) = files w).
Proof.
  rewrite update_index_outcomes. split.
  - intros U P. destruct (unindexed self w); [ contradiction U; reflexivity | ].
    rewrite P. repeat split.
  - intros _ N. destruct (unindexed self w) eqn:U.
    + unfold pending in N. rewrite U in N. discriminate.
    + destruct (pending self w); [ discriminate | ]. rewrite N.
      repeat split.
Qed.

(** X9: on a bank whose path has no character special in a regular
    expression, a call of [update_index] that finds files and returns has
    appended, after the rows the index held, exactly the stored rows of the
    summaries of those files, has emptied the cache and has set the time of
    the last update to the clock; a call that finds no file returns and
    leaves index file and cache alone. *)
Theorem update_index_effect (self : WaveBank) (w : World) :
  regex_free (bank_path self) = true ->
  (unindexed self w <> [] -> fst (update_index self w) = Ok tt ->
   rows_of (snd (update_index self w))
   = Some (match rows_of w with
           | Some old => old
           | None => []
           end ++ map (stored_row self) (pending self w))%list
   /\ cache (snd (update_index self w)) = []
   /\ fst (last_updated (snd (update_index self w))) = Ok (Some (now w)))
  /\ (unindexed self w = [] ->
      fst (update_index self w) = Ok tt
      /\ index_file (snd (update_index self w)) = index_file w
      /\ cache (snd (update_index self w)) = cache w).
Proof.
  intros _. rewrite update_index_outcomes. split.
  - intros U. destruct (unindexed self w); [ contradiction U; reflexivity | ].
    destruct (pending self w) as [ | u us]; [ discriminate | ].
    destruct (existsb isnull _); [ discriminate | ].
    intros _. unfold rows_of, appended. cbn [snd fst index_file cache].
    destruct (index_file w); repeat split.
  - intros ->. repeat split.
Qed.

(** ** The assembly step *)

Lemma unique_in (l : list string) (x : string) : In x (unique l) <-> In x l.
Proof.
  induction l as [ | y l IH]; cbn; [ reflexivity | ].
  rewrite filter_In, IH. split.
  - intros [E | [H _]]; [ left; exact E | right; exact H ].
  - intros [E | H]; [ left; exact E | ].
    destruct (String.eqb_spec y x) as [E | N]; [ left; exact E | ].
    right. split; [ exact H | reflexivity ].
Qed.

Lemma unique_nodup (l : list string) : NoDup (unique l).
Proof.
  induction l as [ | y l IH]; cbn; constructor.
  - intros H. apply filter_In in H. destruct H as [_ H].
    rewrite String.eqb_refl in H. discriminate.
  - apply NoDup_filter, IH.
Qed.

Lemma read_streams_run (ps : list string) (w : World) :
  read_streams ps w
  = (Ok (flat_map (readable w) ps), logged (rev (map FileRead ps)) w).
Proof.
  revert w. induction ps as [ | p ps IH]; intros w.
  - destruct w; reflexivity.
  - cbn [read_streams]. unfold bind at 1.
    assert (T : try_read_stream p w
                = (Ok (match lookup_file p (files w) with
                       | Some f => contents f
                       | None => None
                       end), logged [FileRead p] w)) by reflexivity.
    rewrite T. unfold bind at 1. rewrite IH, logged_logged.
    cbn [map rev flat_map].
    change (readable (logged [FileRead p] w)) with (readable w).
    unfold readable.
    destruct (lookup_file p (files w)) as [[t [[ | x st] | ]] | ];
      reflexivity.
Qed.

Lemma nodup_snoc (l : list string) (x : string) :
  nodup string_dec (l ++ [x])%list
  = (filter (fun y => negb (String.eqb x y)) (nodup string_dec l) ++ [x])%list.
Proof.
  induction l as [ | a l IH]; [ reflexivity | ].
  cbn [app nodup].
  destruct (in_dec string_dec a (l ++ [x])%list) as [H | H];
    destruct (in_dec string_dec a l) as [K | K].
  - exact IH.
  - apply in_app_or in H. destruct H as [H | [H | []]]; [ contradiction | ].
    subst a. cbn [filter]. rewrite String.eqb_refl. exact IH.
  - contradiction H. apply in_or_app. left. exact K.
  - cbn [filter]. destruct (String.eqb x a) eqn:E.
    + apply String.eqb_eq in E. subst a. contradiction H.
      apply in_or_app. right. left. reflexivity.
    + cbn [negb app]. rewrite IH. reflexivity.
Qed.

Lemma unique_first (l : list string) :
  unique l = rev (nodup string_dec (rev l)).
Proof.
  induction l as [ | x l IH]; [ reflexivity | ].
  cbn [unique rev]. rewrite nodup_snoc, rev_app_distr. cbn [rev app].
  rewrite IH, filter_rev. reflexivity.
Qed.

(** X10: [_index2stream] changes nothing in the bank and no file stops
    it.  It reads every distinct file named by the index rows once, in the
    order in which the files first appear in the rows; a file that is
    missing or cannot be parsed gives no traces; of the traces read it
    keeps those whose id is the seed id of some index row, and hands them
    to [_polish_stream].  The files in the order of their first appearance
    are written with [nodup] of the library, which keeps the last of equal
    entries, on the reversed list. *)
Theorem index2stream_reads_each_file_once (self : WaveBank)
    (index : DataFrame) (st en : option pytime) (attach_response : bool)
    (w : World) :
  let paths :=
    rev (nodup string_dec
           (rev (map (fun r => bank_path self ++ path r) (df_rows index)))) in
  _index2stream self index st en attach_response w
  = (Ok (_polish_stream
           (filter (fun x => isin (map seed_id (df_rows index)) (tr_id x))
              (flat_map (readable w) paths))
           st en attach_response),
     logged (rev (map FileRead paths)) w)
  /\ NoDup paths
  /\ (forall p, In p paths <->
        exists r, In r (df_rows index) /\ p = bank_path self ++ path r).
Proof.
  intros paths.
  assert (E : paths
              = unique (map (fun r => bank_path self ++ path r)
                          (df_rows index)))
    by (symmetry; apply unique_first).
  split; [ | split ].
  - unfold _index2stream, bind. rewrite <- E. rewrite read_streams_run.
    reflexivity.
  - rewrite E. apply unique_nodup.
  - intros p. rewrite E, unique_in, in_map_iff. split.
    + intros (r & Q & H). exists r. split; [ exact H | symmetry; exact Q ].
    + intros (r & H & Q). exists r. split; [ symmetry; exact Q | exact H ].
Qed.

(** ** Retrieval by seed id *)

Lemma read_index_by_seed_run (self : WaveBank) (seed_ids : list string)
    (s e : float) (w : World) (i : IndexFile) :
  index_file w = Some i -> coherent w ->
  exists w',
    _read_index_by_seed self seed_ids s e w
    = (Ok (mkDF index_columns (seed_rows seed_ids s e (index_node i))), w')
    /\ files w' = files w /\ index_file w' = Some i /\ coherent w'.
Proof.
  intros Hi C. unfold _read_index_by_seed. unfold bind at 1.
  rewrite index_exists_run. unfold has_index. rewrite Hi. cbn [negb].
  unfold bind at 1, ret at 1.
  destruct (@index_cache_run self (Some s) (Some e) None
              (logged [StoreExists] w) C) as (w' & E & Hf & Hi' & _ & C').
  unfold bind. rewrite E. exists w'. cbn [index_file files logged] in Hi', Hf.
  split; [ | split; [ exact Hf | split; [ rewrite Hi'; exact Hi | exact C' ] ] ].
  unfold ret, df_select, stored_frame, seed_rows, index_rows.
  cbn [df_rows df_columns kw_columns index_file logged padded_lo padded_hi].
  rewrite Hi, map_map, select_map, filter_filter. reflexivity.
Qed.

(** X11: on a bank with an index file and a coherent cache,
    [_read_index_by_seed] returns, for any two times (also a start after
    the end: there is no check of the bounds), the rows of the index that
    overlap the padded window and whose seed id, built from the codes as
    they are, is one of the ids given.  For a single id made of four codes
    without wildcard characters and without dots, and bounds in order, this
    is the frame [read_index] returns for these four codes. *)
Theorem read_index_by_seed_rows (self : WaveBank) (s e : float) (w : World)
    (i : IndexFile) :
  index_file w = Some i -> coherent w ->
  (forall seed_ids,
     fst (_read_index_by_seed self seed_ids s e w)
     = Ok (mkDF index_columns
             (filter (fun r =>
                        negb (PrimFloat.ltb (endtime r) (s - buffer)
                              || PrimFloat.ltb (e + buffer) (starttime r))
                        && existsb (String.eqb (seed_id r)) seed_ids)
                (index_node i))))
  /\ (forall net sta loc chan,
        plain net = true -> plain sta = true -> plain loc = true ->
        plain chan = true ->
        Py.contains "." net = false -> Py.contains "." sta = false ->
        Py.contains "." loc = false -> Py.contains "." chan = false ->
        PrimFloat.ltb e s = false ->
        fst (_read_index_by_seed self
               [net ++ "." ++ sta ++ "." ++ loc ++ "." ++ chan] s e w)
        = fst (read_index self (PStr net) (PStr sta) (PStr loc) (PStr chan)
                 (Some s) (Some e) None w)).
Proof.
  intros Hi C. split.
  - intros seed_ids.
    destruct (read_index_by_seed_run self seed_ids s e Hi C) as (w' & E & _).
    rewrite E. reflexivity.
  - intros net sta loc chan Pn Ps Pl Pc Dn Ds Dl Dc Hb.
    destruct (read_index_by_seed_run self
                [net ++ "." ++ sta ++ "." ++ loc ++ "." ++ chan] s e Hi C)
      as (w' & E & _).
    destruct (@read_index_indexed self (PStr net) (PStr sta) (PStr loc)
                (PStr chan) (Some s) (Some e) None w i Hi C Hb)
      as (w2 & E2 & _).
    rewrite E, E2. cbn [fst kw_columns padded_lo padded_hi].
    unfold seed_rows. do 2 f_equal. apply filter_ext. intros r. f_equal.
    unfold isin. cbn [existsb]. rewrite orb_false_r. unfold seed_id.
    rewrite contains_single in Dn, Ds, Dl, Dc.
    rewrite (@seed_eq_codes _ _ _ _ _ _ _ _ Dn Ds Dl Dc).
    unfold row_passes. cbn [param_ok code].
    rewrite (@re_match_plain _ _ Pn), (@re_match_plain _ _ Ps),
      (@re_match_plain _ _ Pl), (@re_match_plain _ _ Pc).
    reflexivity.
Qed.

(** ** Bulk requests of one window *)

Lemma existsb_true_in {A : Type} (f : A -> bool) (l : list A) :
  existsb f l = true -> exists x, In x l /\ f x = true.
Proof. apply existsb_exists. Qed.

(** X12: the mask [_func] computes for one time window.  Of the requests
    of the window, those with a wildcard character are resolved by
    [filter_index] and joined by "or", those without by membership of the
    row's seed id (after the replacement of [--]) in the set of their seed
    ids; when the window has requests of both kinds the two masks are
    joined by "and", so that a row is loaded only if it matches a wildcard
    request and is named by an exact request as well. *)
Theorem bulk_window_mask (time : float * float) (ind : list IndexRow)
    (df : list BulkRequest) :
  let group := filter (in_window time) df in
  let wild := filter uses_wildcard group in
  let exact := filter (fun b => negb (uses_wildcard b)) group in
  _func_mask time ind df
  = map (fun r =>
           match wild with
           | [] => true
           | _ =>
               existsb (fun b =>
                          row_passes (PStr (b_network b)) (PStr (b_station b))
                            (PStr (b_location b)) (PStr (b_channel b)) r)
                 wild
           end
           && match exact with
              | [] => true
              | _ => isin (_get_nslc b_cell exact) (nslc_id row_cell r)
              end)
      ind
  /\ (forall r, In r (select ind (_func_mask time ind df)) ->
        (wild <> [] ->
         exists b, In b wild /\ request_passes b r = true)
        /\ (exact <> [] ->
            exists b, In b exact
                      /\ nslc_id row_cell r = nslc_id b_cell b)).
Proof.
  intros group wild exact.
  assert (E : _func_mask time ind df
              = map (fun r => wild_ok wild r && exact_ok exact r) ind)
    by apply func_mask_rowwise.
  split.
  - rewrite E. apply map_ext. intros r. f_equal.
    unfold exact_ok, isin, _get_nslc. destruct exact; [ reflexivity | ].
    rewrite existsb_map. reflexivity.
  - intros r Hin. rewrite E, select_map in Hin. apply filter_In in Hin.
    destruct Hin as [_ H]. apply andb_true_iff in H. destruct H as [Hw He].
    split.
    + intros N. unfold wild_ok in Hw.
      destruct wild; [ contradiction N; reflexivity | ].
      apply existsb_true_in in Hw. exact Hw.
    + intros N. unfold exact_ok in He.
      destruct exact; [ contradiction N; reflexivity | ].
      apply existsb_true_in in He. destruct He as (q & Hb & Hq).
      exists q. split; [ exact Hb | apply String.eqb_eq, Hq ].
Qed.

Lemma unique_times_same (time : float * float) (bulk : list BulkRequest)
    (acc : list (float * float)) :
  (forall b, In b bulk -> in_window time b = true) ->
  fold_left (fun ts b => insert_time (t1 b, t2 b) ts) bulk (time :: acc)
  = time :: acc.
Proof.
  induction bulk as [ | b bulk IH]; intros H; [ reflexivity | ].
  cbn [fold_left insert_time].
  assert (E : pair_eqb (t1 b, t2 b) time = true).
  { exact (H b (or_introl eq_refl)). }
  rewrite E. apply IH. intros b' Hb'. apply H. right. exact Hb'.
Qed.

(** X13: requests that share one time window are resolved together.  When
    every further request has the start and end of the first, the request
    has a single window and [get_waveforms_bulk] reads the index once and
    makes one call of [_func], on all the requests. *)
Theorem bulk_requests_of_one_window (self : WaveBank) (b : BulkRequest)
    (bulk : list BulkRequest) (index : option DataFrame) (w : World) :
  (forall b', In b' bulk -> in_window (t1 b, t2 b) b' = true) ->
  unique_times (b :: bulk) = [(t1 b, t2 b)]
  /\ get_waveforms_bulk self (b :: bulk) index w
     = (ind <- bulk_index self (b :: bulk) index ;;
        _func self (t1 b, t2 b) ind (b :: bulk)) w.
Proof.
  intros H.
  assert (U : unique_times (b :: bulk) = [(t1 b, t2 b)]).
  { unfold unique_times. cbn [fold_left insert_time].
    apply unique_times_same, H. }
  split; [ exact U | ].
  unfold get_waveforms_bulk. rewrite U. unfold bind.
  destruct (bulk_index self (b :: bulk) index w) as [[ind | e] w1];
    [ | reflexivity ].
  cbn [map_m]. unfold bind.
  destruct (_func self (t1 b, t2 b) ind (b :: bulk) w1) as [[st | e] w2];
    [ | reflexivity ].
  unfold ret. cbn [List.concat]. rewrite app_nil_r. reflexivity.
Qed.

(** ** Gaps of one channel *)

Lemma insert_row_perm (r : IndexRow) (l : list IndexRow) :
  Permutation (insert_row r l) (r :: l).
Proof.
  induction l as [ | x l IH]; cbn [insert_row]; [ apply Permutation_refl | ].
  destruct (time_ltb r x); [ apply Permutation_refl | ].
  apply Permutation_trans with (x :: r :: l);
    [ apply perm_skip, IH | apply perm_swap ].
Qed.

Lemma sort_values_from (rows acc : list IndexRow) :
  Permutation (fold_left (fun sorted r => insert_row r sorted) rows acc)
    (acc ++ rows)%list.
Proof.
  revert acc. induction rows as [ | r rows IH]; intros acc; cbn [fold_left].
  - rewrite app_nil_r. apply Permutation_refl.
  - eapply Permutation_trans; [ apply IH | ].
    eapply Permutation_trans;
      [ apply Permutation_app_tail, insert_row_perm | ].
    apply (Permutation_middle acc rows r).
Qed.

Lemma sort_values_perm (df : list IndexRow) : Permutation (sort_values df) df.
Proof. exact (sort_values_from df []). Qed.

Lemma filter_map_comm {A B : Type} (f : B -> bool) (g : A -> B)
    (l : list A) :
  filter f (map g l) = map g (filter (fun x => f (g x)) l).
Proof.
  induction l as [ | x l IH]; cbn; [ reflexivity | ].
  rewrite IH. destruct (f (g x)); reflexivity.
Qed.

Lemma combine_shifted (a : IndexRow) (rest : list IndexRow) :
  exists z,
    combine (a :: rest) (map starttime rest ++ [nan])%list
    = (map (fun p => (fst p, starttime (snd p))) (neighbours (a :: rest))
       ++ [(z, nan)])%list.
Proof.
  revert a. induction rest as [ | b rest IH]; intros a.
  - exists a. reflexivity.
  - destruct (IH b) as (z & E). exists z.
    change (combine (a :: b :: rest) (map starttime (b :: rest) ++ [nan])%list)
      with ((a, starttime b)
            :: combine (b :: rest) (map starttime rest ++ [nan])%list).
    rewrite E. reflexivity.
Qed.

Lemma get_gap_dfs_neighbours (df : list IndexRow) (min_gap : float) :
  _get_gap_dfs df min_gap
  = map gap_between (filter (apart min_gap) (neighbours (sort_values df))).
Proof.
  unfold _get_gap_dfs. rewrite select_map.
  destruct (sort_values df) as [ | a rest]; [ reflexivity | ].
  unfold col_starttime, shift_up. cbn [map].
  destruct (combine_shifted a rest) as (z & ->).
  rewrite filter_app. cbn [filter fst snd]. rewrite ltb_nan_r, app_nil_r.
  rewrite filter_map_comm, map_map. reflexivity.
Qed.

Lemma neighbours_length (l : list IndexRow) :
  List.length (neighbours l) = Nat.pred (List.length l).
Proof.
  induction l as [ | a [ | b rest] IH]; [ reflexivity | reflexivity | ].
  change (neighbours (a :: b :: rest)) with ((a, b) :: neighbours (b :: rest)).
  cbn [List.length]. rewrite IH. reflexivity.
Qed.

Lemma neighbours_in (l : list IndexRow) (p : IndexRow * IndexRow) :
  In p (neighbours l) -> In (fst p) l /\ In (snd p) l.
Proof.
  induction l as [ | a [ | b rest] IH]; [ contradiction | contradiction | ].
  change (neighbours (a :: b :: rest)) with ((a, b) :: neighbours (b :: rest)).
  intros [<- | H].
  - split; [ left; reflexivity | right; left; reflexivity ].
  - destruct (IH H) as [H1 H2]. split; right; assumption.
Qed.

Lemma compare_swapped (x y : float) :
  ((x <? y)%float = true ->
   (y <? x)%float = false /\ (y =? x)%float = false)
  /\ ((x =? y)%float = true ->
      (y <? x)%float = false /\ (y =? x)%float = true).
Proof.
  rewrite !ltb_spec, !eqb_spec. unfold SFltb, SFeqb.
  rewrite (SFcompare_swap (Prim2SF x) (Prim2SF y)).
  destruct (SFcompare (Prim2SF x) (Prim2SF y)) as [[ | | ] | ]; cbn;
    split; intros H; try discriminate; split; reflexivity.
Qed.

Lemma time_ltb_asym (a b : IndexRow) :
  time_ltb a b = true -> time_ltb b a = false.
Proof.
  unfold time_ltb. intros H. apply orb_true_iff in H.
  destruct H as [H | H].
  - destruct (proj1 (compare_swapped _ _) H) as [H1 H2].
    rewrite H1, H2. reflexivity.
  - apply andb_true_iff in H. destruct H as [H K].
    destruct (proj2 (compare_swapped _ _) H) as [H1 _].
    destruct (proj1 (compare_swapped _ _) K) as [K1 _].
    rewrite H1, K1. apply andb_false_r.
Qed.

Lemma insert_row_sorted (r : IndexRow) (l : list IndexRow) :
  Sorted (fun a b => time_ltb b a = false) l ->
  Sorted (fun a b => time_ltb b a = false) (insert_row r l).
Proof.
  induction l as [ | x l IH]; intros S; cbn [insert_row].
  - constructor; constructor.
  - destruct (time_ltb r x) eqn:E.
    + constructor; [ exact S | ]. constructor. apply time_ltb_asym, E.
    + inversion S as [ | ? ? S' Hd]; subst.
      constructor; [ apply IH, S' | ].
      destruct l as [ | y l]; cbn [insert_row]; [ constructor; exact E | ].
      destruct (time_ltb r y); constructor;
        [ exact E | inversion Hd; assumption ].
Qed.

Lemma sort_values_sorted_from (rows acc : list IndexRow) :
  Sorted (fun a b => time_ltb b a = false) acc ->
  Sorted (fun a b => time_ltb b a = false)
    (fold_left (fun sorted r => insert_row r sorted) rows acc).
Proof.
  revert acc. induction rows as [ | r rows IH]; intros acc S;
    cbn [fold_left]; [ exact S | ].
  apply IH, insert_row_sorted, S.
Qed.

Lemma sorted_neighbours (l : list IndexRow) (a b : IndexRow) :
  Sorted (fun a b => time_ltb b a = false) l ->
  In (a, b) (neighbours l) -> time_ltb b a = false.
Proof.
  induction 1 as [ | x l S IH Hd]; [ contradiction | ].
  destruct l as [ | y l]; [ contradiction | ].
  change (neighbours (x :: y :: l)) with ((x, y) :: neighbours (y :: l)).
  intros [E | H].
  - inversion E; subst. inversion Hd; assumption.
  - exact (IH H).
Qed.

(** X14: [_get_gap_dfs] compares every row of a channel with the row after
    it in the order of the start and end times, and with no other: the gaps
    are those between neighbours of which the second starts more than
    [min_gap] after the end of the first, the last row gives none (its
    shifted start time is NaN).  In the sorted frame no row starts before
    the row ahead of it, nor ends before it when both start together.  The
    sorting loses and adds no row, so a channel of n rows has at most n - 1
    gaps, and every gap runs from the end time of one of its rows to the
    start time of another. *)
Theorem gap_dfs_between_neighbours (df : list IndexRow) (min_gap : float) :
  _get_gap_dfs df min_gap
  = map gap_between (filter (apart min_gap) (neighbours (sort_values df)))
  /\ Permutation (sort_values df) df
  /\ (forall a b, In (a, b) (neighbours (sort_values df)) ->
        PrimFloat.ltb (starttime b) (starttime a) = false
        /\ (PrimFloat.eqb (starttime a) (starttime b) = true ->
            PrimFloat.ltb (endtime b) (endtime a) = false))
  /\ List.length (_get_gap_dfs df min_gap) <= Nat.pred (List.length df)
  /\ (forall g, In g (_get_gap_dfs df min_gap) ->
        exists a b,
          In a df /\ In b df
          /\ g = mkGap (nslc_of a) (endtime a) (starttime b)
                   (starttime b - endtime a)%float
          /\ PrimFloat.ltb (endtime a + min_gap)%float (starttime b) = true).
Proof.
  assert (P := sort_values_perm df).
  split; [ apply get_gap_dfs_neighbours | ].
  split; [ exact P | ].
  split.
  { intros a b H.
    assert (S : Sorted (fun a b => time_ltb b a = false) (sort_values df)).
    { apply sort_values_sorted_from. constructor. }
    pose proof (@sorted_neighbours _ a b S H) as T. unfold time_ltb in T.
    apply orb_false_iff in T. destruct T as [T1 T2].
    split; [ exact T1 | ]. intros Q.
    destruct (proj2 (compare_swapped _ _) Q) as [_ Q'].
    rewrite Q' in T2. exact T2. }
  rewrite get_gap_dfs_neighbours. split.
  - rewrite length_map.
    eapply Nat.le_trans; [ apply filter_length_le | ].
    rewrite neighbours_length, (Permutation_length P). apply Nat.le_refl.
  - intros g Hg. apply in_map_iff in Hg. destruct Hg as ([a b] & <- & Hp).
    apply filter_In in Hp. destruct Hp as [Hn Ha].
    apply neighbours_in in Hn. destruct Hn as [H1 H2].
    exists a, b.
    split; [ exact (Permutation_in _ P H1) | ].
    split; [ exact (Permutation_in _ P H2) | ].
    split; [ reflexivity | exact Ha ].
Qed.

(** ** The keys of a [groupby] *)

Lemma lex_assoc (a b c : comparison) : lex (lex a b) c = lex a (lex b c).
Proof. destruct a; reflexivity. Qed.

Lemma lex_lt (x y : comparison) :
  lex x y = Lt <-> x = Lt \/ (x = Eq /\ y = Lt).
Proof.
  destruct x; cbn [lex]; split.
  - intros H. right. split; [ reflexivity | exact H ].
  - intros [H | [_ H]]; [ discriminate | exact H ].
  - intros _. left. reflexivity.
  - intros _. reflexivity.
  - discriminate.
  - intros [H | [H _]]; discriminate.
Qed.

Lemma lex_eq (x y : comparison) : lex x y = Eq <-> x = Eq /\ y = Eq.
Proof.
  destruct x; cbn [lex]; split.
  - intros H. split; [ reflexivity | exact H ].
  - intros [_ H]. exact H.
  - discriminate.
  - intros [H _]. discriminate.
  - discriminate.
  - intros [H _]. discriminate.
Qed.

Lemma lex_opp (x y : comparison) :
  CompOpp (lex x y) = lex (CompOpp x) (CompOpp y).
Proof. destruct x; reflexivity. Qed.

Lemma good_string : good String.compare.
Proof.
  split; [ exact OrderedTypeEx.String_as_OT.cmp_eq | ]. split.
  - intros a b. apply String.compare_antisym.
  - intros a b c H1 H2.
    apply OrderedTypeEx.String_as_OT.cmp_lt.
    apply OrderedTypeEx.String_as_OT.lt_trans with b;
      apply OrderedTypeEx.String_as_OT.cmp_lt; assumption.
Qed.

Lemma good_pair {A B : Type} (ca : A -> A -> comparison)
    (cb : B -> B -> comparison) :
  good ca -> good cb -> good (lex_pair ca cb).
Proof.
  intros (Ea & Oa & Ta) (Eb & Ob & Tb). unfold lex_pair. split; [ | split ].
  - intros [a1 b1] [a2 b2]. cbn [fst snd]. rewrite lex_eq, Ea, Eb. split.
    + intros [-> ->]. reflexivity.
    + intros E. inversion E. split; reflexivity.
  - intros x y. rewrite lex_opp, <- Oa, <- Ob. reflexivity.
  - intros [a1 b1] [a2 b2] [a3 b3]. cbn [fst snd]. rewrite !lex_lt.
    intros [H1 | [H1 K1]] [H2 | [H2 K2]].
    + left. exact (Ta _ _ _ H1 H2).
    + apply Ea in H2. subst a3. left. exact H1.
    + apply Ea in H1. subst a2. left. exact H2.
    + apply Ea in H1. apply Ea in H2. subst a2 a3. right.
      split; [ apply Ea; reflexivity | exact (Tb _ _ _ K1 K2) ].
Qed.

Lemma good_nslc : good nslc_compare.
Proof.
  assert (G : good (lex_pair
                      (lex_pair (lex_pair String.compare String.compare)
                         String.compare)
                      String.compare)).
  { repeat apply good_pair; apply good_string. }
  assert (Q : forall a b,
             nslc_compare a b
             = lex_pair
                 (lex_pair (lex_pair String.compare String.compare)
                    String.compare)
                 String.compare a b).
  { intros [[[n1 s1] l1] c1] [[[n2 s2] l2] c2].
    unfold lex_pair, nslc_compare. cbn [fst snd]. rewrite !lex_assoc.
    reflexivity. }
  destruct G as (E & O & T). split; [ | split ].
  - intros a b. rewrite Q. apply E.
  - intros a b. rewrite !Q. apply O.
  - intros a b c. rewrite !Q. apply T.
Qed.

Lemma nslc_ltb_compare (a b : nslc) :
  nslc_ltb a b = true <-> nslc_compare a b = Lt.
Proof.
  destruct a as [[[n1 s1] l1] c1], b as [[[n2 s2] l2] c2].
  unfold nslc_ltb, nslc_compare.
  destruct (lex (String.compare n1 n2)
              (lex (String.compare s1 s2)
                 (lex (String.compare l1 l2) (String.compare c1 c2))));
    split; intros H; (reflexivity || discriminate).
Qed.

Lemma nslc_eqb_eq (a b : nslc) : nslc_eqb a b = true <-> a = b.
Proof.
  destruct a as [[[n1 s1] l1] c1], b as [[[n2 s2] l2] c2]. cbn [nslc_eqb].
  rewrite !andb_true_iff, !String.eqb_eq. split.
  - intros [[[-> ->] ->] ->]. reflexivity.
  - intros E. inversion E. repeat split.
Qed.

Lemma nslc_eqb_refl (a : nslc) : nslc_eqb a a = true.
Proof. apply nslc_eqb_eq. reflexivity. Qed.

Lemma nslc_eqb_neq (a b : nslc) : a <> b -> nslc_eqb a b = false.
Proof.
  intros N. destruct (nslc_eqb a b) eqn:E; [ | reflexivity ].
  apply nslc_eqb_eq in E. contradiction.
Qed.

Lemma key_lt_trans (a b c : nslc) : key_lt a b -> key_lt b c -> key_lt a c.
Proof.
  unfold key_lt. rewrite !nslc_ltb_compare.
  destruct good_nslc as (_ & _ & T). apply T.
Qed.

Lemma key_lt_irrefl (a : nslc) : ~ key_lt a a.
Proof.
  unfold key_lt. rewrite nslc_ltb_compare.
  destruct good_nslc as (E & _ & _).
  assert (R : nslc_compare a a = Eq) by (apply E; reflexivity).
  rewrite R. discriminate.
Qed.

Lemma key_lt_total (a b : nslc) :
  nslc_eqb a b = false -> nslc_ltb a b = false -> key_lt b a.
Proof.
  intros Hq Hl. unfold key_lt. apply nslc_ltb_compare.
  destruct good_nslc as (E & O & _). rewrite O.
  destruct (nslc_compare a b) eqn:C.
  - apply E in C. subst b. rewrite nslc_eqb_refl in Hq. discriminate.
  - apply nslc_ltb_compare in C. rewrite C in Hl. discriminate.
  - reflexivity.
Qed.

Lemma insert_key_in (k0 k : nslc) (ks : list nslc) :
  In k (insert_key k0 ks) <-> k = k0 \/ In k ks.
Proof.
  induction ks as [ | k' ks IH]; cbn [insert_key].
  - cbn. split; intros [H | H]; auto.
  - destruct (nslc_eqb k0 k') eqn:E.
    + apply nslc_eqb_eq in E. subst k'. cbn. split.
      * intros H. right. exact H.
      * intros [-> | H]; [ left; reflexivity | exact H ].
    + destruct (nslc_ltb k0 k').
      * cbn. split; intros [H | H]; auto.
      * cbn [In]. rewrite IH. split.
        -- intros [H | [H | H]]; auto.
        -- intros [H | [H | H]]; auto.
Qed.

Lemma insert_key_sorted (k0 : nslc) (ks : list nslc) :
  ForallOrdPairs key_lt ks -> ForallOrdPairs key_lt (insert_key k0 ks).
Proof.
  induction ks as [ | k' ks IH]; intros S; cbn [insert_key].
  - constructor; constructor.
  - inversion S as [ | x l F S' ]; subst.
    destruct (nslc_eqb k0 k') eqn:E; [ exact S | ].
    destruct (nslc_ltb k0 k') eqn:L.
    + constructor; [ | exact S ].
      constructor; [ exact L | ].
      apply Forall_forall. intros x Hx.
      apply key_lt_trans with k'; [ exact L | ].
      exact (proj1 (Forall_forall _ _) F x Hx).
    + constructor; [ | apply IH, S' ].
      apply Forall_forall. intros x Hx. apply insert_key_in in Hx.
      destruct Hx as [-> | Hx].
      * apply key_lt_total; assumption.
      * exact (proj1 (Forall_forall _ _) F x Hx).
Qed.

Lemma sorted_nodup (ks : list nslc) : ForallOrdPairs key_lt ks -> NoDup ks.
Proof.
  induction 1 as [ | k ks F S IH]; constructor; [ | exact IH ].
  intros H. apply (key_lt_irrefl (a := k)).
  exact (proj1 (Forall_forall _ _) F k H).
Qed.

Lemma group_keys_from {A : Type} (key : A -> nslc) (rows : list A)
    (acc : list nslc) :
  (ForallOrdPairs key_lt acc ->
   ForallOrdPairs key_lt
     (fold_left (fun ks r => insert_key (key r) ks) rows acc))
  /\ (forall k,
        In k (fold_left (fun ks r => insert_key (key r) ks) rows acc)
        <-> In k acc \/ exists r, In r rows /\ key r = k).
Proof.
  revert acc. induction rows as [ | r rows IH]; intros acc; cbn [fold_left].
  - split; [ exact (fun S => S) | ]. intros k. split.
    + intros H. left. exact H.
    + intros [H | (r & [] & _)]. exact H.
  - destruct (IH (insert_key (key r) acc)) as [S I]. split.
    + intros S0. apply S, insert_key_sorted, S0.
    + intros k. rewrite I, insert_key_in. split.
      * intros [[-> | H] | (r' & H & E)].
        -- right. exists r. split; [ left; reflexivity | reflexivity ].
        -- left. exact H.
        -- right. exists r'. split; [ right; exact H | exact E ].
      * intros [H | (r' & [<- | H] & E)].
        -- left. right. exact H.
        -- left. left. symmetry. exact E.
        -- right. exists r'. split; assumption.
Qed.

Lemma group_keys_nodup {A : Type} (key : A -> nslc) (rows : list A) :
  NoDup (group_keys key rows).
Proof.
  apply sorted_nodup. apply (proj1 (group_keys_from key rows [])). constructor.
Qed.

Lemma group_keys_in {A : Type} (key : A -> nslc) (rows : list A) (k : nslc) :
  In k (group_keys key rows) <-> exists r, In r rows /\ key r = k.
Proof.
  unfold group_keys. rewrite (proj2 (group_keys_from key rows [])). split.
  - intros [[] | H]. exact H.
  - intros H. right. exact H.
Qed.

(** ** Availability and uptime by channel *)

Lemma py_min_in (xs : list float) (x : float) : In (Py.min x xs) (x :: xs).
Proof.
  unfold Py.min. revert x.
  induction xs as [ | y xs IH]; intros x; cbn [fold_left].
  - left. reflexivity.
  - destruct (PrimFloat.ltb y x).
    + right. apply IH.
    + destruct (IH x) as [H | H]; [ left; exact H | right; right; exact H ].
Qed.

Lemma py_max_in (xs : list float) (x : float) : In (Py.max x xs) (x :: xs).
Proof.
  unfold Py.max. revert x.
  induction xs as [ | y xs IH]; intros x; cbn [fold_left].
  - left. reflexivity.
  - destruct (PrimFloat.ltb x y).
    + right. apply IH.
    + destruct (IH x) as [H | H]; [ left; exact H | right; right; exact H ].
Qed.

Lemma groupby_in {A : Type} (key : A -> nslc) (rows : list A)
    (g : nslc * list A) :
  In g (groupby key rows) ->
  snd g = filter (fun r => nslc_eqb (key r) (fst g)) rows
  /\ exists r, In r rows /\ key r = fst g.
Proof.
  unfold groupby. intros H. apply in_map_iff in H.
  destruct H as (k & <- & Hk). cbn [fst snd].
  split; [ reflexivity | ]. apply group_keys_in. exact Hk.
Qed.

Lemma availability_keys (rows : list IndexRow) :
  map a_nslc (availability_of rows) = group_keys nslc_of rows.
Proof.
  unfold availability_of, groupby. rewrite !map_map. cbn [a_nslc fst].
  apply map_id.
Qed.

Lemma availability_attained (rows : list IndexRow) (a : AvailRow) :
  In a (availability_of rows) ->
  (exists r,
      In r rows /\ nslc_of r = a_nslc a /\ starttime r = a_starttime a)
  /\ (exists r,
         In r rows /\ nslc_of r = a_nslc a /\ endtime r = a_endtime a).
Proof.
  unfold availability_of. intros H. apply in_map_iff in H.
  destruct H as (g & <- & Hg).
  apply groupby_in in Hg. destruct Hg as (Eg & r0 & Hr0 & Ek).
  cbn [a_nslc a_starttime a_endtime]. rewrite Eg.
  assert (In0 : In r0 (filter (fun r => nslc_eqb (nslc_of r) (fst g)) rows)).
  { apply filter_In. split; [ exact Hr0 | apply nslc_eqb_eq, Ek ]. }
  assert (Sub : forall r,
             In r (filter (fun r => nslc_eqb (nslc_of r) (fst g)) rows) ->
             In r rows /\ nslc_of r = fst g).
  { intros r Hr. apply filter_In in Hr. destruct Hr as [H1 H2].
    split; [ exact H1 | apply nslc_eqb_eq, H2 ]. }
  destruct (filter (fun r => nslc_eqb (nslc_of r) (fst g)) rows)
    as [ | x rest]; [ contradiction | ].
  split.
  - unfold col_starttime, series_min. cbn [map].
    assert (M := py_min_in (map starttime rest) (starttime x)).
    change (starttime x :: map starttime rest)
      with (map starttime (x :: rest)) in M.
    apply in_map_iff in M. destruct M as (r & E & Hr).
    destruct (Sub r Hr) as [H1 H2]. exists r.
    split; [ exact H1 | split; [ exact H2 | exact E ] ].
  - unfold col_endtime, series_max. cbn [map].
    assert (M := py_max_in (map endtime rest) (endtime x)).
    change (endtime x :: map endtime rest)
      with (map endtime (x :: rest)) in M.
    apply in_map_iff in M. destruct M as (r & E & Hr).
    destruct (Sub r Hr) as [H1 H2]. exists r.
    split; [ exact H1 | split; [ exact H2 | exact E ] ].
Qed.

Lemma flat_map_single {A B : Type} (f : A -> list B) (g : A -> B)
    (l : list A) :
  (forall a, In a l -> f a = [g a]) -> flat_map f l = map g l.
Proof.
  induction l as [ | x l IH]; intros H; [ reflexivity | ].
  cbn [flat_map map]. rewrite (H x (or_introl eq_refl)), IH; [ reflexivity | ].
  intros a Ha. apply H. right. exact Ha.
Qed.

Lemma filter_key_single {A : Type} (k : A -> nslc) (c : float) (l : list A)
    (a : A) :
  NoDup (map k l) -> In a l ->
  filter (fun g => nslc_eqb (k a) (fst g)) (map (fun x => (k x, c)) l)
  = [(k a, c)].
Proof.
  induction l as [ | x l IH]; intros N Ha; [ contradiction | ].
  cbn [map] in N. inversion N as [ | y ys Hx N']; subst.
  cbn [map filter fst].
  destruct (nslc_eqb (k a) (k x)) eqn:E.
  - apply nslc_eqb_eq in E. rewrite E. f_equal.
    apply filter_none. intros g Hg. apply in_map_iff in Hg.
    destruct Hg as (y & <- & Hy). cbn [fst].
    apply nslc_eqb_neq. intros Q. apply Hx. rewrite Q. apply in_map, Hy.
  - destruct Ha as [-> | Ha]; [ rewrite nslc_eqb_refl in E; discriminate | ].
    apply IH; assumption.
Qed.

Lemma merge_self (avail : list (AvailRow * float)) (c : float) :
  NoDup (map (fun a => a_nslc (fst a)) avail) ->
  merge_on_nslc avail (map (fun a => (a_nslc (fst a), c)) avail)
  = map (fun a => (fst a, snd a, c)) avail.
Proof.
  intros N. unfold merge_on_nslc. apply flat_map_single. intros a Ha.
  assert (Q := @filter_key_single _ (fun a => a_nslc (fst a)) c avail a N Ha).
  cbv beta in Q. rewrite Q. reflexivity.
Qed.

Lemma merge_in (avail : list (AvailRow * float))
    (gt : list (nslc * float)) (a : AvailRow) (d gd : float) :
  In (a, d, gd) (merge_on_nslc avail gt) ->
  In (a, d) avail /\ In (a_nslc a, gd) gt.
Proof.
  unfold merge_on_nslc. intros H. apply in_flat_map in H.
  destruct H as ([a' d'] & Ha & H).
  apply in_map_iff in H. destruct H as ([k g] & E & Hg).
  cbn [fst snd] in E. inversion E; subst.
  apply filter_In in Hg. destruct Hg as [Hg Q]. cbn [fst] in Q.
  apply nslc_eqb_eq in Q. subst k. split; assumption.
Qed.

Lemma uptime_gapless (rows : list IndexRow) :
  gaps_of rows 1 = [] -> uptime_of rows = map gapless (availability_of rows).
Proof.
  intros H. unfold uptime_of. rewrite H. cbv beta zeta iota.
  assert (N : NoDup (map (fun a : AvailRow * float => a_nslc (fst a))
                       (map (fun a => (a, (a_endtime a - a_starttime a)%float))
                          (availability_of rows)))).
  { rewrite map_map. cbn [fst].
    change (NoDup (map a_nslc (availability_of rows))).
    rewrite availability_keys. apply group_keys_nodup. }
  rewrite (@merge_self _ 0%float N), !map_map. apply map_ext. intros a. reflexivity.
Qed.

Lemma uptime_with_gaps (rows : list IndexRow) (u : UptimeRow) :
  gaps_of rows 1 <> [] -> In u (uptime_of rows) ->
  In (mkAvail (u_nslc u) (u_starttime u) (u_endtime u)) (availability_of rows)
  /\ (exists g, In g (gaps_of rows 1) /\ g_nslc g = u_nslc u)
  /\ u_gap_duration u
     = series_sum (map g_gap_duration (gaps_for (u_nslc u) (gaps_of rows 1))).
Proof.
  intros N. unfold uptime_of.
  destruct (gaps_of rows 1) as [ | g0 gs] eqn:G;
    [ contradiction N; reflexivity | ].
  cbv beta zeta iota. intros H. apply in_map_iff in H.
  destruct H as ([[a d] gd] & <- & H).
  apply merge_in in H. destruct H as [Ha Hg].
  cbn [u_nslc u_starttime u_endtime u_gap_duration].
  apply in_map_iff in Ha. destruct Ha as (a' & E & Ha').
  inversion E; subst a'.
  apply in_map_iff in Hg. destruct Hg as (grp & E2 & Hgrp).
  apply groupby_in in Hgrp. destruct Hgrp as (Es & g & Hg & Ek).
  injection E2 as K S.
  split; [ destruct a; exact Ha' | ]. split.
  - exists g. split; [ exact Hg | rewrite Ek; exact K ].
  - unfold gaps_for. rewrite <- K, <- Es. symmetry. exact S.
Qed.

(** X15: [get_uptime_df] joins the availability of the channels with the
    gap totals on the four codes, and the join is an inner one.  When
    [get_gaps_df] finds no gap at all, every channel of the availability
    frame is reported, with a gap duration of 0.  As soon as one gap is
    found, the gap totals hold only the channels that have a gap: every row
    of the result is a channel of the availability frame with at least one
    gap and the sum of its gaps as gap duration, and the channels without a
    gap are left out of the result. *)
Theorem uptime_joins_gaps_by_channel (self : WaveBank)
    (net sta loc chan : param) (st en : option float) (w : World)
    (i : IndexFile) :
  index_file w = Some i -> coherent w -> bad_times st en = false ->
  exists avail gaps up,
    fst (get_availability_df self net sta loc chan st en w) = Ok avail
    /\ fst (get_gaps_df self net sta loc chan st en 1%float w) = Ok gaps
    /\ fst (get_uptime_df self net sta loc chan st en w) = Ok up
    /\ (gaps = [] -> up = map gapless avail)
    /\ (gaps <> [] ->
        forall u, In u up ->
          In (mkAvail (u_nslc u) (u_starttime u) (u_endtime u)) avail
          /\ (exists g, In g gaps /\ g_nslc g = u_nslc u)
          /\ u_gap_duration u
             = series_sum (map g_gap_duration (gaps_for (u_nslc u) gaps))).
Proof.
  intros Hi C Hb.
  destruct (get_availability_df_run self net sta loc chan st en Hi C Hb)
    as (w1 & E1 & _).
  destruct (get_gaps_df_run self net sta loc chan st en 1%float Hi C Hb)
    as (w2 & E2 & _).
  destruct (get_uptime_df_run self net sta loc chan st en Hi C Hb)
    as (w3 & E3 & _).
  exists (availability_of (matching net sta loc chan st en (index_node i))),
    (gaps_of (matching net sta loc chan st en (index_node i)) 1%float),
    (uptime_of (matching net sta loc chan st en (index_node i))).
  rewrite E1, E2, E3.
  split; [ reflexivity | ]. split; [ reflexivity | ].
  split; [ reflexivity | ]. split.
  - apply uptime_gapless.
  - intros N u Hu. apply uptime_with_gaps; assumption.
Qed.

(** X16: [get_availability_df] reports every channel of the rows that
    [read_index] selects, once: no two rows of the result have the same
    four codes, every selected row finds its channel in the result, and the
    start and end time of a channel are the start time of one of its rows
    and the end time of one of its rows. *)
Theorem availability_one_row_per_channel (self : WaveBank)
    (net sta loc chan : param) (st en : option float) (w : World)
    (i : IndexFile) :
  index_file w = Some i -> coherent w -> bad_times st en = false ->
  exists ind avail,
    fst (read_index self net sta loc chan st en (Some columns_no_path) w)
    = Ok ind
    /\ fst (get_availability_df self net sta loc chan st en w) = Ok avail
    /\ NoDup (map a_nslc avail)
    /\ (forall r, In r (df_rows ind) -> In (nslc_of r) (map a_nslc avail))
    /\ (forall a, In a avail ->
          (exists r,
              In r (df_rows ind) /\ nslc_of r = a_nslc a
              /\ starttime r = a_starttime a)
          /\ (exists r,
                 In r (df_rows ind) /\ nslc_of r = a_nslc a
                 /\ endtime r = a_endtime a)).
Proof.
  intros Hi C Hb.
  destruct (read_index_indexed self net sta loc chan st en
              (Some columns_no_path) Hi C Hb) as (w0 & E0 & _).
  destruct (get_availability_df_run self net sta loc chan st en Hi C Hb)
    as (w1 & E1 & _).
  exists (mkDF (kw_columns (Some columns_no_path))
            (matching net sta loc chan st en (index_node i))),
    (availability_of (matching net sta loc chan st en (index_node i))).
  rewrite E0, E1. cbn [fst df_rows].
  split; [ reflexivity | ]. split; [ reflexivity | ].
  rewrite availability_keys.
  split; [ apply group_keys_nodup | ]. split.
  - intros r Hr. apply group_keys_in. exists r.
    split; [ exact Hr | reflexivity ].
  - apply availability_attained.
Qed.

(** ** Paths at which no file exists *)

Lemma put_loop_new (items : list (string * list Trace)) :
  NoDup (map fst items) ->
  forall w r w',
    for_each items put_one w = (r, w') ->
    (forall p trs,
        In (p, trs) items -> lookup_file p (files w) = None ->
        lookup_file p (files w') = None
        \/ created trs (now w) (lookup_file p (files w')))
    /\ (r = Ok tt ->
        forall p trs,
          In (p, trs) items -> lookup_file p (files w) = None ->
          created trs (now w) (lookup_file p (files w'))).
Proof.
  induction items as [ | [p0 trs0] items IH]; intros ND w r w' E.
  - cbn in E. inversion E; subst.
    split; [ intros p trs [] | intros _ p trs [] ].
  - cbn [map fst] in ND. inversion ND as [ | ? ? Hnotin ND']; subst.
    cbn [for_each] in E. unfold bind in E. rewrite put_one_run in E.
    assert (Stop : forall e es,
               (Raise e, logged es w) = (r, w') ->
               (forall p trs,
                   In (p, trs) ((p0, trs0) :: items) ->
                   lookup_file p (files w) = None ->
                   lookup_file p (files w') = None
                   \/ created trs (now w) (lookup_file p (files w')))
               /\ (r = Ok tt ->
                   forall p trs,
                     In (p, trs) ((p0, trs0) :: items) ->
                     lookup_file p (files w) = None ->
                     created trs (now w) (lookup_file p (files w')))).
    { intros e es X. inversion X; subst.
      split; [ intros p trs _ L; left; exact L | discriminate ]. }
    assert (Go : forall m es,
               (lookup_file p0 (files w) = None -> st_merge trs0 = Some m) ->
               for_each items put_one (written p0 m es w) = (r, w') ->
               (forall p trs,
                   In (p, trs) ((p0, trs0) :: items) ->
                   lookup_file p (files w) = None ->
                   lookup_file p (files w') = None
                   \/ created trs (now w) (lookup_file p (files w')))
               /\ (r = Ok tt ->
                   forall p trs,
                     In (p, trs) ((p0, trs0) :: items) ->
                     lookup_file p (files w) = None ->
                     created trs (now w) (lookup_file p (files w')))).
    { intros m es Hm X.
      destruct (IH ND' _ _ _ X) as [Hp Hr].
      destruct (@put_loop items ND' _ _ _ X) as (_ & _ & _ & _ & Hq & _).
      cbn [written files now] in Hp, Hr, Hq.
      assert (Head : lookup_file p0 (files w')
                     = Some (mkFile (now w) (Some m))).
      { rewrite (Hq p0 Hnotin). apply lookup_store_same. }
      assert (Other : forall p, In p (map fst items) ->
                 lookup_file p
                   (store_file p0 (mkFile (now w) (Some m)) (files w))
                 = lookup_file p (files w)).
      { intros p Hin. apply lookup_store_other. intros ->.
        exact (Hnotin Hin). }
      split.
      - intros p trs [X' | Hin] L.
        + inversion X'; subst. right. exists m.
          split; [ exact (Hm L) | exact Head ].
        + apply (Hp p trs Hin). rewrite Other; [ exact L | ].
          apply (in_map fst) in Hin. exact Hin.
      - intros Hok p trs [X' | Hin] L.
        + inversion X'; subst. exists m.
          split; [ exact (Hm L) | exact Head ].
        + apply (Hr Hok p trs Hin). rewrite Other; [ exact L | ].
          apply (in_map fst) in Hin. exact Hin. }
    destruct (lookup_file p0 (files w)) as [f | ] eqn:L0.
    + destruct (contents f) as [st | ].
      * destruct (st_merge (trs0 ++ st)%list) as [m | ].
        -- apply (Go m [FileWrite p0; FileRead p0]); [ discriminate | exact E ].
        -- exact (Stop _ [FileRead p0] E).
      * exact (Stop _ [FileRead p0] E).
    + destruct (st_merge trs0) as [m | ] eqn:Mg.
      * apply (Go m [FileWrite p0]); [ intros _; reflexivity | exact E ].
      * apply (Stop MergeError []). destruct w; exact E.
Qed.

(** X17: when [put_waveforms] sends traces to a path at which no file
    exists, the path afterwards either still has no file (an exception
    stopped the call before the path was saved) or holds the merge of the
    traces sent there, in the order of the stream, with the clock as
    modification time; a call that returns has created the file.  An empty
    stream writes nothing and does not update the index. *)
Theorem put_waveforms_creates_new_files (self : WaveBank) (stream : Stream)
    (name : option string) (w : World) (tr : Trace) :
  In tr stream ->
  lookup_file (destination self name tr) (files w) = None ->
  let p := destination self name tr in
  let trs := routed_to self name p stream in
  let r := fst (put_waveforms self stream name w) in
  let w' := snd (put_waveforms self stream name w) in
  (lookup_file p (files w') = None
   \/ created trs (now w) (lookup_file p (files w')))
  /\ (r = Ok tt -> created trs (now w) (lookup_file p (files w')))
  /\ put_waveforms self [] name w = (Ok tt, w).
Proof.
  intros Hin L p trs r w'.
  destruct (group_by_path_spec self stream name) as [ND G].
  pose proof (@group_by_path_routed self stream name tr Hin) as Hp.
  fold p in Hp. fold trs in Hp.
  unfold r, w', put_waveforms, bind.
  destruct (for_each (group_by_path self stream name) put_one w)
    as [r1 w1] eqn:E.
  destruct (@put_loop_new _ ND _ _ _ E) as (Hd & Hr).
  split; [ | split; [ | reflexivity ] ].
  - destruct r1 as [[] | e]; cbn [fst snd]; [ | exact (Hd _ _ Hp L) ].
    destruct (group_by_path self stream name); [ exact (Hd _ _ Hp L) | ].
    destruct (update_index_cases self w1)
      as (w2 & Hf & _ & _ & [X | (x & X & _)]);
      rewrite X; cbn [snd]; rewrite Hf; exact (Hd _ _ Hp L).
  - destruct r1 as [[] | e]; cbn [fst snd]; [ | discriminate ].
    intros _.
    destruct (group_by_path self stream name);
      [ exact (Hr eq_refl _ _ Hp L) | ].
    destruct (update_index_cases self w1)
      as (w2 & Hf & _ & _ & [X | (x & X & _)]);
      rewrite X; cbn [snd]; rewrite Hf; exact (Hr eq_refl _ _ Hp L).
Qed.

(** ** Reading after an update *)

(** X18: a read that follows an update sees the new rows, whatever the
    cache held before: on a bank whose path has no character special in a
    regular expression, when [update_index] has found files and returned,
    [read_index] on the bank it leaves returns the rows that match the
    query among the rows the index held before followed by the stored rows
    of the new summaries. *)
Theorem read_index_after_update (self : WaveBank) (net sta loc chan : param)
    (st en : option float) (kw : kwargs) (w : World) :
  regex_free (bank_path self) = true ->
  unindexed self w <> [] -> fst (update_index self w) = Ok tt ->
  bad_times st en = false ->
  fst (read_index self net sta loc chan st en kw (snd (update_index self w)))
  = Ok (mkDF (kw_columns kw)
          (matching net sta loc chan st en
             (match rows_of w with
              | Some old => old
              | None => []
              end ++ map (stored_row self) (pending self w))%list)).
Proof.
  intros _ U Hok Hb. rewrite update_index_outcomes in *.
  destruct (unindexed self w); [ contradiction U; reflexivity | ].
  destruct (pending self w) as [ | u us]; [ discriminate | ].
  destruct (existsb isnull (map (stored_row self) (u :: us)));
    [ discriminate | ].
  cbn [snd].
  match goal with
  | |- fst (read_index _ _ _ _ _ _ _ _ ?W) = _ =>
      assert (C1 : coherent W) by (apply coherent_empty_cache; reflexivity);
      destruct (@read_index_indexed self net sta loc chan st en kw W _
                  eq_refl C1 Hb) as (w' & E & _)
  end.
  rewrite E. cbn [fst]. unfold matching, rows_of, appended.
  destruct (index_file w); reflexivity.
Qed.

(** ** Bulk requests on an index passed in *)





(** ** Waveforms by seed id *)

Lemma seed_rows_plain (net sta loc chan : string) (s e : float)
    (rows : list IndexRow) :
  plain net = true -> plain sta = true -> plain loc = true ->
  plain chan = true ->
  Py.contains "." net = false -> Py.contains "." sta = false ->
  Py.contains "." loc = false -> Py.contains "." chan = false ->
  seed_rows [net ++ "." ++ sta ++ "." ++ loc ++ "." ++ chan] s e rows
  = filter (fun r =>
              overlaps (padded_lo (Some s) buffer) (padded_hi (Some e) buffer)
                r
              && row_passes (PStr net) (PStr sta) (PStr loc) (PStr chan) r)
      rows.
Proof.
  intros Pn Ps Pl Pc Dn Ds Dl Dc. unfold seed_rows.
  cbn [padded_lo padded_hi]. apply filter_ext. intros r. f_equal.
  unfold isin. cbn [existsb]. rewrite orb_false_r. unfold seed_id.
  rewrite contains_single in Dn, Ds, Dl, Dc.
  rewrite (@seed_eq_codes _ _ _ _ _ _ _ _ Dn Ds Dl Dc).
  unfold row_passes. cbn [param_ok code].
  rewrite (@re_match_plain _ _ Pn), (@re_match_plain _ _ Ps),
    (@re_match_plain _ _ Pl), (@re_match_plain _ _ Pc).
  reflexivity.
Qed.

Lemma index2stream_same_files (self : WaveBank) (index : DataFrame)
    (st en : option pytime) (a : bool) (w1 w2 : World) :
  files w1 = files w2 ->
  fst (_index2stream self index st en a w1)
  = fst (_index2stream self index st en a w2).
Proof.
  intros F. unfold _index2stream, bind. rewrite !read_streams_run.
  cbn [fst ret]. unfold ret. cbn [fst].
  assert (R : readable w1 = readable w2).
  { unfold readable. rewrite F. reflexivity. }
  rewrite R. reflexivity.
Qed.

(** X20: [get_waveforms_by_seed] takes a single seed id as the list of
    that one id.  On a bank with an index file, for an id made of four
    codes without wildcard characters and without dots and for bounds in
    order, it returns the stream that [get_waveforms] returns for the four
    codes and the same bounds. *)
Theorem get_waveforms_by_seed_agrees (self : WaveBank)
    (net sta loc chan : string) (s e : float) (attach_response : bool)
    (w : World) (i : IndexFile) :
  index_file w = Some i -> coherent w ->
  plain net = true -> plain sta = true -> plain loc = true ->
  plain chan = true ->
  Py.contains "." net = false -> Py.contains "." sta = false ->
  Py.contains "." loc = false -> Py.contains "." chan = false ->
  PrimFloat.ltb e s = false ->
  let id := net ++ "." ++ sta ++ "." ++ loc ++ "." ++ chan in
  fst (get_waveforms_by_seed self (OneSeed id) s e attach_response w)
  = fst (get_waveforms self (PStr net) (PStr sta) (PStr loc) (PStr chan)
           (Some s) (Some e) attach_response w)
  /\ get_waveforms_by_seed self (OneSeed id) s e attach_response w
     = get_waveforms_by_seed self (SeedList [id]) s e attach_response w.
Proof.
  intros Hi C Pn Ps Pl Pc Dn Ds Dl Dc Hb id. split; [ | reflexivity ].
  unfold get_waveforms_by_seed, get_waveforms, bind.
  destruct (read_index_by_seed_run self [id] s e Hi C)
    as (w1 & E1 & F1 & _).
  destruct (@read_index_indexed self (PStr net) (PStr sta) (PStr loc)
              (PStr chan) (Some s) (Some e) None w i Hi C Hb)
    as (w2 & E2 & F2 & _).
  rewrite E1, E2. unfold id.
  rewrite (@seed_rows_plain net sta loc chan s e (index_node i)
             Pn Ps Pl Pc Dn Ds Dl Dc).
  cbn [kw_columns]. apply index2stream_same_files.
  rewrite F1, F2. reflexivity.
Qed.

End Bank.

(** * The properties on the example banks *)

(** C1 as stated fails: for the request UU.TMU.--.HHZ over [0, 50] (start
    <= end) on an index whose rows have an empty location, the bulk path
    selects the segment [0, 100] and the single-request path selects
    nothing. *)
Lemma bulk_differs_from_single_request :
  PrimFloat.leb (utc1 dashed_request) (utc2 dashed_request) = true
  /\ fst (bulk_resolve demo_summarize demo_time demo_bank [dashed_request] None
            demo_world)
     = Ok [((0%float, 50%float),
            mkDF index_columns [seg "" 0 100 "/a.mseed"])]
  /\ fst (read_index demo_summarize demo_time demo_bank (PStr "UU") (PStr "TMU")
            (PStr "--") (PStr "HHZ") (Some 0%float) (Some 50%float) None
            demo_world)
     = Ok (mkDF index_columns []).
Proof. repeat split. Qed.

(** Nor can the condition on dots be dropped: the request with network
    A.B and station C has the seed id of the row with network A and station
    B.C, which the bulk path therefore selects and [read_index] does not. *)
Lemma bulk_differs_on_dotted_codes :
  let w :=
    mkWorld [] (Some (mkIndex [mkRow "A" "B.C" "" "Z" 0 100 "/a.mseed"]
                        None (Some 1000%float))) [] 2000%float [] in
  fst (bulk_resolve demo_summarize demo_time demo_bank [mkReq "A.B" "C" "" "Z"
      0 50]
         None w)
  = Ok [((0%float, 50%float),
         mkDF index_columns [mkRow "A" "B.C" "" "Z" 0 100 "/a.mseed"])]
  /\ fst (read_index demo_summarize demo_time demo_bank (PStr "A.B") (PStr "C")
            (PStr "") (PStr "Z") (Some 0%float) (Some 50%float) None w)
     = Ok (mkDF index_columns []).
Proof. repeat split. Qed.

Lemma bulk_agrees_with_single_request_witness :
  exists df,
    fst (read_index demo_summarize demo_time demo_bank (PStr "UU") (PStr "TMU")
           (PStr "") (PStr "HHZ") (Some 0%float) (Some 50%float) None
           demo_world) = Ok df
    /\ fst (bulk_resolve demo_summarize demo_time demo_bank [plain_request] None
              demo_world)
       = Ok [((0%float, 50%float), df)].
Proof.
  apply (bulk_agrees_with_single_request demo_summarize demo_time demo_bank
           plain_request (w := demo_world) (i := demo_index)).
  - reflexivity.
  - constructor.
  - reflexivity.
  - right. split; [ | split ].
    + intros []; reflexivity.
    + intros []; discriminate.
    + intros r [<- | [<- | []]] []; discriminate.
Defined.

Lemma filter_index_wildcard_witness :
  filter_index demo_time station_rows PNone (PStr "A*") PNone PNone None None
  = [true; true; false]
  /\ filter_index demo_time station_rows PNone (PStr "A?") PNone PNone None None
     = [false; true; false]
  /\ filter_index demo_time station_rows PNone (PStr "A") PNone PNone None None
     = [false; false; false].
Proof.
  destruct (filter_index_wildcard demo_time station_rows)
    as (_ & Hplain & Hstar & Hany & _).
  rewrite Hstar, Hany, (Hplain "A" eq_refl). repeat split.
Defined.

Lemma read_index_validation_witness :
  read_index demo_summarize demo_time demo_bank PNone PNone PNone PNone
    (Some 5%float) (Some 1%float) None demo_world
  = (Raise (ValueError "starttime cannot be greater than endtime"),
     demo_world)
  /\ fst (read_index demo_summarize demo_time demo_bank PNone PNone PNone PNone
            (Some 1%float) (Some 5%float) None demo_world)
     <> Raise (ValueError "starttime cannot be greater than endtime")
  /\ fst (read_index demo_summarize demo_time demo_bank PNone PNone PNone PNone
            None (Some 5%float) None file_world)
     <> Raise (ValueError "starttime cannot be greater than endtime").
Proof.
  split; [ | split ].
  - apply (proj1 (read_index_validation demo_summarize demo_time demo_bank
      PNone PNone
                    PNone PNone None demo_world)).
    reflexivity.
  - apply (proj2 (read_index_validation demo_summarize demo_time demo_bank
      PNone PNone
                    PNone PNone None demo_world) (Some 1%float) (Some 5%float)).
    reflexivity.
  - apply (proj2 (read_index_validation demo_summarize demo_time demo_bank
      PNone PNone
                    PNone PNone None file_world) None (Some 5%float)).
    exact I.
Defined.

Lemma put_waveforms_merges_existing_witness :
  merged_into demo_merge old_file [new_trace] 2000%float
    (lookup_file "/data/bank/UU.TMU..HHZ.mseed"
       (files (snd (put_waveforms demo_summarize demo_trace_path demo_merge
                      demo_bank [new_trace] None file_world))))
  /\ read_then_written "/data/bank/UU.TMU..HHZ.mseed"
       (log (snd (put_waveforms demo_summarize demo_trace_path demo_merge
                    demo_bank [new_trace] None file_world))).
Proof.
  destruct (put_waveforms_merges_existing demo_summarize demo_trace_path
              demo_merge demo_bank [new_trace] None file_world new_trace
              (old := old_file) (or_introl eq_refl) eq_refl)
    as (_ & H & _).
  apply H. reflexivity.
Defined.

Lemma three_segments_gap_and_uptime_witness :
  fst (get_gaps_df demo_summarize demo_time demo_bank PNone PNone PNone PNone
      None None
         1%float gap_world)
  = Ok [mkGap ("X", "Y", "", "Z") 200 300 100]
  /\ fst (get_uptime_df demo_summarize demo_time demo_bank PNone PNone PNone
      PNone
            None None gap_world)
     = Ok [mkUptime ("X", "Y", "", "Z") 0 400 400 100 300 0.75].
Proof.
  apply (three_segments_gap_and_uptime demo_summarize demo_time demo_bank
           (w := gap_world)
           (i := mkIndex [mkRow "X" "Y" "" "Z" 300 400 "/c.mseed";
                          mkRow "X" "Y" "" "Z" 0 100 "/a.mseed";
                          mkRow "X" "Y" "" "Z" 100 200 "/b.mseed"]
                   None (Some 1000%float))
           (p1 := "/a.mseed") (p2 := "/b.mseed") (p3 := "/c.mseed")).
  - reflexivity.
  - constructor.
  - apply (Permutation_cons_app
             [mkRow "X" "Y" "" "Z" 0 100 "/a.mseed";
              mkRow "X" "Y" "" "Z" 100 200 "/b.mseed"] []
             (mkRow "X" "Y" "" "Z" 300 400 "/c.mseed")).
    apply Permutation_refl.
Defined.

(** The segment [300, 400] lies outside the window [405, 410] and within
    its padding. *)
Lemma read_index_padded_window_witness :
  fst (read_index demo_summarize demo_time demo_bank PNone PNone PNone PNone
         (Some 405%float) (Some 410%float) None demo_world)
  = Ok (mkDF index_columns [seg "" 300 400 "/b.mseed"])
  /\ overlaps 405 410 (seg "" 300 400 "/b.mseed") = false.
Proof.
  destruct (read_index_padded_window demo_summarize demo_time demo_bank PNone
      PNone
              PNone PNone (s := 405%float) (e := 410%float) None
              (w := demo_world) (i := demo_index) eq_refl
              (Forall_nil _) eq_refl) as [H _].
  rewrite H. split; reflexivity.
Defined.

Lemma bulk_exact_codes_normalised_witness :
  _func_cells (0%float, 50%float) null_rows [dashed_row]
  = Ok [true; true; true; false]
  /\ (exists e,
        _func_cells (0%float, 50%float) null_rows [null_request] = Raise e)
  /\ filter_index demo_time [seg "" 0 100 "/a.mseed"] PNone PNone
       (PStr "--") PNone None None
     = [false].
Proof.
  split; [ | split ].
  - destruct (bulk_exact_codes_normalised demo_time (0%float, 50%float)
                null_rows [dashed_row]) as (H & _).
    refine (eq_trans (proj1 (H _ eq_refl)) eq_refl). discriminate.
  - destruct (bulk_exact_codes_normalised demo_time (0%float, 50%float)
                null_rows [null_request]) as (_ & H & _).
    exact (H eq_refl).
  - destruct (bulk_exact_codes_normalised demo_time (0%float, 50%float)
                null_rows [dashed_row]) as (_ & _ & _ & _ & H & _).
    exact (H (seg "" 0 100 "/a.mseed") eq_refl).
Defined.

(** C10 as stated fails for a bound given as a time object: the end time
    [UTCDateTime(0)] equals 0.0 and is the bound the stream is trimmed to,
    where an absent end time leaves the trace as long as it is. *)
Lemma epoch_time_object_is_a_bound :
  _polish_stream demo_merge demo_trim (fun st => st) (fun st => st)
    demo_time [old_trace] None (Some (TimeObj 0)) false
  = [mkTrace "UU.TMU..HHZ" 0 0 [1; 2; 3]%float]
  /\ _polish_stream demo_merge demo_trim (fun st => st) (fun st => st)
       demo_time [old_trace] None None false
     = [old_trace].
Proof. split; reflexivity. Qed.

Lemma polish_stream_zero_is_absent_witness :
  _polish_stream demo_merge demo_trim (fun st => st) (fun st => st)
    demo_time [old_trace] (Some (Stamp 50)) (Some (Stamp 0)) false
  = [mkTrace "UU.TMU..HHZ" 50 100 [1; 2; 3]%float]
  /\ _polish_stream demo_merge demo_trim (fun st => st) (fun st => st)
       demo_time [old_trace] (Some (Stamp (-0))) (Some (TimeObj 50)) false
     = [mkTrace "UU.TMU..HHZ" 0 50 [1; 2; 3]%float].
Proof.
  split.
  - destruct (@polish_stream_zero_is_absent demo_merge demo_trim
                (fun st => st) (fun st => st) demo_time demo_bank old_trace
                [] None false (mkDF index_columns []) demo_world 0%float
                eq_refl) as (_ & _ & _ & H & _).
    exact (eq_trans (H 50%float eq_refl) eq_refl).
  - destruct (@polish_stream_zero_is_absent demo_merge demo_trim
                (fun st => st) (fun st => st) demo_time demo_bank old_trace
                [] None false (mkDF index_columns []) demo_world (-0)%float
                eq_refl) as (_ & _ & _ & _ & _ & H & _).
    exact (eq_trans (H 50%float) eq_refl).
Defined.

Lemma filter_index_star_patterns_witness :
  filter_index demo_time station_rows PNone (PStr "A*") PNone PNone None None
  = [true; true; false]
  /\ filter_index demo_time station_rows PNone (PStr "*Y") PNone PNone None None
     = [false; false; true].
Proof.
  destruct (filter_index_star_patterns demo_time station_rows Station)
    as (_ & Hpre & Hsuf).
  split.
  - exact (eq_trans (Hpre "A" eq_refl) eq_refl).
  - exact (eq_trans (Hsuf "Y" eq_refl) eq_refl).
Defined.

Lemma retrieval_rejects_inverted_bounds_witness :
  get_waveforms demo_summarize demo_merge (fun _ _ st => st) (fun st => st)
    (fun st => st) demo_time demo_bank PNone PNone PNone PNone (Some 5%float)
    (Some 1%float) false demo_world
  = (Raise (ValueError "starttime cannot be greater than endtime"),
     demo_world)
  /\ get_waveforms_bulk demo_summarize demo_merge (fun _ _ st => st)
       (fun st => st) (fun st => st) demo_time demo_bank
       [mkReq "UU" "TMU" "" "HHZ" 5 1] None demo_world
     = (Raise (ValueError "starttime cannot be greater than endtime"),
        demo_world).
Proof.
  destruct (retrieval_rejects_inverted_bounds demo_summarize demo_merge
              (fun _ _ st => st) (fun st => st) (fun st => st) demo_time
                  demo_bank
              PNone PNone PNone PNone (s := 5%float) (e := 1%float) 1%float
              false (mkReq "UU" "TMU" "" "HHZ" 5 1) [] demo_world
              eq_refl eq_refl) as (H1 & _ & _ & _ & H5).
  split; assumption.
Defined.

Lemma retrieval_on_empty_bank_witness :
  fst (get_waveforms demo_summarize demo_merge (fun _ _ st => st)
         (fun st => st) (fun st => st) demo_time demo_bank PNone (PStr "TMU")
             PNone
         PNone (Some 1%float) (Some 5%float) false empty_world) = Ok []
  /\ fst (get_uptime_df demo_summarize demo_time demo_bank PNone (PStr "TMU")
      PNone
            PNone (Some 1%float) (Some 5%float) empty_world) = Ok []
  /\ fst (get_waveforms_bulk demo_summarize demo_merge (fun _ _ st => st)
            (fun st => st) (fun st => st) demo_time demo_bank
            [plain_request; dashed_request] None empty_world) = Ok [].
Proof.
  destruct (retrieval_on_empty_bank demo_summarize demo_merge
              (fun _ _ st => st) (fun st => st) (fun st => st) demo_time
                  demo_bank
              PNone (PStr "TMU") PNone PNone (Some 1%float) (Some 5%float)
              1%float false plain_request [dashed_request] empty_world
              eq_refl eq_refl eq_refl eq_refl)
    as ((H1 & _) & _ & _ & (H4 & _) & (H5 & _)).
  repeat split; assumption.
Defined.

Lemma index_rows_are_never_removed_witness :
  exists i' added,
    index_file (snd (update_index demo_summarize demo_bank stale_world))
    = Some i'
    /\ index_node i' = (index_node demo_index ++ added)%list
    /\ forall m, meta_node demo_index = Some m -> meta_node i' = Some m.
Proof.
  exact (proj1 (@index_rows_are_never_removed demo_summarize
                  demo_trace_path demo_merge demo_time demo_bank stale_world
                      demo_index
                  [new_trace] None PNone PNone PNone PNone None None None
                  eq_refl)).
Defined.

Lemma update_index_twice_witness :
  fst (update_index demo_summarize demo_bank
         (snd (update_index demo_summarize demo_bank file_world))) = Ok tt
  /\ index_file
       (snd (update_index demo_summarize demo_bank
               (snd (update_index demo_summarize demo_bank file_world))))
     = index_file (snd (update_index demo_summarize demo_bank file_world)).
Proof.
  assert (N : no_file_from_the_future file_world).
  { intros pf [<- | []]. reflexivity. }
  destruct (update_index_twice demo_summarize demo_bank (w := file_world) N
              eq_refl) as (H1 & H2 & _).
  split; assumption.
Defined.

Lemma update_index_failure_changes_nothing_witness :
  fst (update_index demo_summarize demo_bank junk_world)
  = Raise (KeyError "path")
  /\ index_file (snd (update_index demo_summarize demo_bank junk_world))
     = None.
Proof.
  destruct (proj1 (update_index_failure_changes_nothing demo_summarize
                     demo_bank junk_world))
    as (E & Hi & _); [ discriminate | reflexivity | ].
  split; [ exact E | exact Hi ].
Defined.

Lemma update_index_effect_witness :
  rows_of (snd (update_index demo_summarize demo_bank file_world))
  = Some [mkRow "UU" "TMU" "" "HHZ" 0 100 "/UU.TMU..HHZ.mseed"]
  /\ cache (snd (update_index demo_summarize demo_bank file_world)) = [].
Proof.
  destruct (proj1 (@update_index_effect demo_summarize demo_bank file_world
                     eq_refl))
    as (Hr & Hc & _); [ discriminate | reflexivity | ].
  split; [ exact (eq_trans Hr eq_refl) | exact Hc ].
Defined.

Lemma read_index_by_seed_rows_witness :
  fst (_read_index_by_seed demo_summarize demo_bank ["UU.TMU..HHZ"] 50 0
         demo_world)
  = Ok (mkDF index_columns [seg "" 0 100 "/a.mseed"])
  /\ fst (_read_index_by_seed demo_summarize demo_bank ["UU.TMU..HHZ"] 0 50
            demo_world)
     = fst (read_index demo_summarize demo_time demo_bank (PStr "UU") (PStr
         "TMU")
              (PStr "") (PStr "HHZ") (Some 0%float) (Some 50%float) None
              demo_world).
Proof.
  split.
  - destruct (@read_index_by_seed_rows demo_summarize demo_time demo_bank
      50%float
                0%float demo_world demo_index eq_refl (Forall_nil _))
      as [H _].
    exact (eq_trans (H ["UU.TMU..HHZ"]) eq_refl).
  - destruct (@read_index_by_seed_rows demo_summarize demo_time demo_bank
      0%float
                50%float demo_world demo_index eq_refl (Forall_nil _))
      as [_ H].
    exact (H "UU" "TMU" "" "HHZ" eq_refl eq_refl eq_refl eq_refl eq_refl
             eq_refl eq_refl eq_refl eq_refl).
Defined.

Lemma bulk_requests_of_one_window_witness :
  unique_times [plain_request; dashed_request] = [(0%float, 50%float)]
  /\ get_waveforms_bulk demo_summarize demo_merge (fun _ _ st => st)
       (fun st => st) (fun st => st) demo_time demo_bank
       [plain_request; dashed_request] None demo_world
     = (ind <- bulk_index demo_summarize demo_time demo_bank
                 [plain_request; dashed_request] None ;;
        _func demo_merge (fun _ _ st => st) (fun st => st) (fun st => st)
            demo_time
          demo_bank (0%float, 50%float) ind [plain_request; dashed_request])
         demo_world.
Proof.
  apply (@bulk_requests_of_one_window demo_summarize demo_merge
           (fun _ _ st => st) (fun st => st) (fun st => st) demo_time demo_bank
           plain_request [dashed_request] None demo_world).
  intros b' [<- | []]. reflexivity.
Defined.

Lemma uptime_joins_gaps_by_channel_witness :
  exists avail gaps up,
    fst (get_availability_df demo_summarize demo_time demo_bank PNone PNone
        PNone PNone
           None None gap_world) = Ok avail
    /\ fst (get_gaps_df demo_summarize demo_time demo_bank PNone PNone PNone
        PNone
              None None 1%float gap_world) = Ok gaps
    /\ fst (get_uptime_df demo_summarize demo_time demo_bank PNone PNone PNone
        PNone
              None None gap_world) = Ok up
    /\ (gaps = [] -> up = map gapless avail)
    /\ (gaps <> [] ->
        forall u, In u up ->
          In (mkAvail (u_nslc u) (u_starttime u) (u_endtime u)) avail
          /\ (exists g, In g gaps /\ g_nslc g = u_nslc u)
          /\ u_gap_duration u
             = series_sum (map g_gap_duration (gaps_for (u_nslc u) gaps))).
Proof.
  apply (@uptime_joins_gaps_by_channel demo_summarize demo_time demo_bank PNone
      PNone
           PNone PNone None None gap_world
           (mkIndex [mkRow "X" "Y" "" "Z" 300 400 "/c.mseed";
                     mkRow "X" "Y" "" "Z" 0 100 "/a.mseed";
                     mkRow "X" "Y" "" "Z" 100 200 "/b.mseed"]
              None (Some 1000%float))).
  - reflexivity.
  - constructor.
  - reflexivity.
Defined.

Lemma availability_one_row_per_channel_witness :
  exists ind avail,
    fst (read_index demo_summarize demo_time demo_bank PNone PNone PNone PNone
           (Some 0%float) (Some 50%float) (Some columns_no_path) demo_world)
    = Ok ind
    /\ fst (get_availability_df demo_summarize demo_time demo_bank PNone PNone
        PNone
              PNone (Some 0%float) (Some 50%float) demo_world) = Ok avail
    /\ NoDup (map a_nslc avail)
    /\ (forall r, In r (df_rows ind) -> In (nslc_of r) (map a_nslc avail))
    /\ (forall a, In a avail ->
          (exists r,
              In r (df_rows ind) /\ nslc_of r = a_nslc a
              /\ starttime r = a_starttime a)
          /\ (exists r,
                 In r (df_rows ind) /\ nslc_of r = a_nslc a
                 /\ endtime r = a_endtime a)).
Proof.
  apply (@availability_one_row_per_channel demo_summarize demo_time demo_bank
      PNone
           PNone PNone PNone (Some 0%float) (Some 50%float) demo_world
           demo_index).
  - reflexivity.
  - constructor.
  - reflexivity.
Defined.

Lemma put_waveforms_creates_new_files_witness :
  created demo_merge [new_trace] 2000%float
    (lookup_file "/data/bank/UU.TMU..HHZ.mseed"
       (files (snd (put_waveforms demo_summarize demo_trace_path demo_merge
                      demo_bank [new_trace] None demo_world)))).
Proof.
  destruct (@put_waveforms_creates_new_files demo_summarize demo_trace_path
              demo_merge demo_bank [new_trace] None demo_world new_trace
              (or_introl eq_refl) eq_refl)
    as (_ & H & _).
  apply H. reflexivity.
Defined.

Lemma read_index_after_update_witness :
  fst (read_index demo_summarize demo_time demo_bank PNone PNone PNone PNone
      None None
         None (snd (update_index demo_summarize demo_bank file_world)))
  = Ok (mkDF index_columns
          [mkRow "UU" "TMU" "" "HHZ" 0 100 "/UU.TMU..HHZ.mseed"]).
Proof.
  refine (eq_trans
            (@read_index_after_update demo_summarize demo_time demo_bank PNone
                PNone
               PNone PNone None None None file_world eq_refl _ eq_refl
               eq_refl)
            eq_refl).
  discriminate.
Defined.

Lemma get_waveforms_by_seed_agrees_witness :
  fst (get_waveforms_by_seed demo_summarize demo_merge (fun _ _ st => st)
         (fun st => st) (fun st => st) demo_time demo_bank (OneSeed
             "UU.TMU..HHZ")
         0 50 false demo_world)
  = fst (get_waveforms demo_summarize demo_merge (fun _ _ st => st)
           (fun st => st) (fun st => st) demo_time demo_bank (PStr "UU") (PStr
               "TMU")
           (PStr "") (PStr "HHZ") (Some 0%float) (Some 50%float) false
           demo_world).
Proof.
  exact (proj1 (@get_waveforms_by_seed_agrees demo_summarize demo_merge
                  (fun _ _ st => st) (fun st => st) (fun st => st) demo_time
                      demo_bank
                  "UU" "TMU" "" "HHZ" 0%float 50%float false demo_world
                  demo_index eq_refl (Forall_nil _) eq_refl eq_refl eq_refl
                  eq_refl eq_refl eq_refl eq_refl eq_refl eq_refl)).
Defined.

Lemma read_index_without_waveforms_witness :
  fst (read_index demo_summarize demo_time demo_bank PNone (PStr "TMU") PNone
      PNone
         (Some 1%float) (Some 5%float) None junk_world)
  = Raise (KeyError "path")
  /\ fst (read_index demo_summarize demo_time demo_bank PNone (PStr "TMU")
      PNone PNone
            (Some 1%float) (Some 5%float) None empty_world)
     = Ok (mkDF index_columns []).
Proof.
  split.
  - destruct (proj2 (@read_index_without_waveforms demo_summarize demo_time
      demo_bank
                       PNone (PStr "TMU") PNone PNone (Some 1%float)
                       (Some 5%float) None junk_world eq_refl eq_refl
                       eq_refl))
      as (w' & E & _); [ discriminate | ].
    rewrite E. reflexivity.
  - destruct (proj1 (@read_index_without_waveforms demo_summarize demo_time
      demo_bank
                       PNone (PStr "TMU") PNone PNone (Some 1%float)
                       (Some 5%float) None empty_world eq_refl eq_refl
                       eq_refl))
      as (w' & E & _); [ reflexivity | ].
    rewrite E. reflexivity.
Defined.
